(** * Dunamai: version strings from VCS tags

    A shallow embedding of the pure core of [dunamai/__init__.py]:
    the pattern matcher [_match_version_pattern], the [Version] class
    ([__lt__], [serialize], [parse], [bump]), [check_version], the three
    [serialize_*] functions and [bump_version], together with the parts of
    Python's [re], [str], [int], [list] and [datetime] they rely on.

    Conventions of the embedding.
    - A Python [str] is a [list ascii]; a character is its code point, so the
      model covers the strings whose code points are below 256.
    - A Python [int] is a [Z].
    - A raised exception is the [Raise] branch of [result]; every [raise
      ValueError(...)] of the source is kept apart by its message.
    - A compiled regular expression is a [regex] term; the strings
      [VERSION_SOURCE_PATTERN], [_VALID_PEP440], ... of the source are
      transcribed to such terms group by group. *)

From Stdlib Require Import String Ascii List ZArith NArith Arith Bool Lia.
Import ListNotations.

Open Scope list_scope.
Open Scope Z_scope.

(** ** Strings *)

Definition pystr := list ascii.

(** [lit "abc"] is the Python literal ["abc"]. *)
Definition lit (s : string) : pystr := list_ascii_of_string s.

Definition code (c : ascii) : N := N_of_ascii c.

Definition in_range (lo hi : N) (c : ascii) : bool :=
  (N.leb lo (code c) && N.leb (code c) hi)%bool.

(** [\d] on code points below 256: the ten ASCII digits. *)
Definition is_digit (c : ascii) : bool := in_range 48 57 c.
Definition is_lower (c : ascii) : bool := in_range 97 122 c.
Definition is_upper (c : ascii) : bool := in_range 65 90 c.
(** [[a-zA-Z]] *)
Definition is_alpha (c : ascii) : bool := (is_lower c || is_upper c)%bool.
(** [[a-zA-Z0-9]] *)
Definition is_alnum (c : ascii) : bool := (is_alpha c || is_digit c)%bool.
(** [[\da-z]] *)
Definition is_lower_alnum (c : ascii) : bool := (is_digit c || is_lower c)%bool.
(** [[a-zA-Z0-9\-]] *)
Definition is_alnum_dash (c : ascii) : bool := (is_alnum c || Ascii.eqb c "-")%bool.
(** [[a-zA-Z0-9.]] *)
Definition is_alnum_dot (c : ascii) : bool := (is_alnum c || Ascii.eqb c ".")%bool.
(** [[-._]] *)
Definition is_sep (c : ascii) : bool :=
  (Ascii.eqb c "-" || Ascii.eqb c "." || Ascii.eqb c "_")%bool.
(** [[.-]] *)
Definition is_dot_dash (c : ascii) : bool := (Ascii.eqb c "." || Ascii.eqb c "-")%bool.
(** [.] without DOTALL: anything but a line feed. *)
Definition is_not_newline (c : ascii) : bool := negb (N.eqb (code c) 10).
Definition is_char (a : ascii) (c : ascii) : bool := Ascii.eqb c a.

(** Whitespace of [str.strip()] and of [int()], on code points below 256. *)
Definition is_space (c : ascii) : bool :=
  (in_range 9 13 c || in_range 28 32 c || N.eqb (code c) 133 || N.eqb (code c) 160)%bool.
Definition is_int_space (c : ascii) : bool :=
  (in_range 9 13 c || N.eqb (code c) 32 || N.eqb (code c) 133 || N.eqb (code c) 160)%bool.

Fixpoint str_eqb (a b : pystr) : bool :=
  match a, b with
  | [], [] => true
  | x :: a', y :: b' => (Ascii.eqb x y && str_eqb a' b')%bool
  | _, _ => false
  end.

(** [<] on [str]: lexicographic on code points. *)
Fixpoint str_ltb (a b : pystr) : bool :=
  match a, b with
  | _, [] => false
  | [], _ :: _ => true
  | x :: a', y :: b' =>
      if N.ltb (code x) (code y) then true
      else if N.ltb (code y) (code x) then false
      else str_ltb a' b'
  end.

(** [str.lower()] on code points below 256. *)
Definition lower_char (c : ascii) : ascii :=
  if (is_upper c || (in_range 192 222 c && negb (N.eqb (code c) 215)))%bool
  then ascii_of_N (code c + 32) else c.
Definition str_lower (s : pystr) : pystr := map lower_char s.

Fixpoint startswith (p s : pystr) : bool :=
  match p, s with
  | [], _ => true
  | x :: p', y :: s' => (Ascii.eqb x y && startswith p' s')%bool
  | _ :: _, [] => false
  end.

Fixpoint lstrip (f : ascii -> bool) (s : pystr) : pystr :=
  match s with
  | c :: t => if f c then lstrip f t else s
  | [] => []
  end.
Definition rstrip (f : ascii -> bool) (s : pystr) : pystr := rev (lstrip f (rev s)).

(** The longest run of [f] at the start of [s], and what follows it. *)
Fixpoint take_while (f : ascii -> bool) (s : pystr) : pystr :=
  match s with
  | c :: t => if f c then c :: take_while f t else []
  | [] => []
  end.

Fixpoint drop_while (f : ascii -> bool) (s : pystr) : pystr :=
  match s with
  | c :: t => if f c then drop_while f t else s
  | [] => []
  end.

(** [s.strip()] *)
Definition str_strip (s : pystr) : pystr := rstrip is_space (lstrip is_space s).

(** [sep.join(parts)] *)
Fixpoint str_join (sep : pystr) (parts : list pystr) : pystr :=
  match parts with
  | [] => []
  | [x] => x
  | x :: rest => x ++ sep ++ str_join sep rest
  end.

(** Splitting at the characters that satisfy [f]; [None] is no limit on the
    number of splits ([s.split(c)]), [Some n] is [maxsplit = n]. *)
Fixpoint split_by (f : ascii -> bool) (maxsplit : option nat) (s : pystr) : list pystr :=
  match s with
  | [] => [[]]
  | c :: t =>
      if f c then
        match maxsplit with
        | Some O => [s]
        | Some (S n) => [] :: split_by f (Some n) t
        | None => [] :: split_by f None t
        end
      else
        match maxsplit with
        | Some O => [s]
        | _ =>
            match split_by f maxsplit t with
            | h :: r => (c :: h) :: r
            | [] => [[c]]
            end
        end
  end.

(** [s.split(c)] and [s.split(c, n)] for a one-character separator. *)
Definition str_split (c : ascii) (s : pystr) : list pystr := split_by (is_char c) None s.
Definition str_split_max (c : ascii) (n : nat) (s : pystr) : list pystr :=
  split_by (is_char c) (Some n) s.

(** ** Exceptions *)

Inductive Style := Pep440 | SemVer | Pvp.

Definition Style_eqb (a b : Style) : bool :=
  match a, b with
  | Pep440, Pep440 | SemVer, SemVer | Pvp, Pvp => true
  | _, _ => false
  end.

(** The messages of the [ValueError]s the module raises, and of the two
    raised by the standard library below it. *)
Inductive message :=
| MissingBaseGroup            (* "Pattern '{}' did not include required capture group 'base'" *)
| NoMatchLatest (tag : pystr) (* "Pattern '{}' did not match the latest tag '{}' from {}" *)
| NoMatchAny                  (* "Pattern '{}' did not match any tags from {}" *)
| BadRevision (text : pystr)  (* "Revision '{}' is not a valid number" *)
| BadEpoch (text : pystr)     (* "Epoch '{}' is not a valid number" *)
| NotConforming (version : pystr) (style : Style)
                              (* "Version '{}' does not conform to the {} style" *)
| InvalidLiteral (text : pystr)  (* int(): "invalid literal for int() with base 10" *)
| ExceedsLimit                   (* int(), str(): "Exceeds the limit (4300 digits) for
                                    integer string conversion" *)
| OutOfRange (what : string).    (* datetime: "year 0 is out of range" *)

Inductive exn :=
| ValueError (m : message)
| IndexError
| TypeError
| InvalidVersion (text : pystr).   (* packaging.version.InvalidVersion *)

Inductive result (A : Type) :=
| Ok (a : A)
| Raise (e : exn).
Arguments Ok {A} a.
Arguments Raise {A} e.

Definition bind {A B} (r : result A) (f : A -> result B) : result B :=
  match r with
  | Ok a => f a
  | Raise e => Raise e
  end.

Notation "x <- c ;; k" := (bind c (fun x => k))
  (at level 61, c at next level, right associativity).
Notation "c ;;; k" := (bind c (fun _ => k))
  (at level 61, right associativity).

(** The error taxonomy of the design documents, read off the messages. *)
Inductive error_class := ConfigurationError | PatternError | FormatError | ValidationError | OtherError.

Definition classify (e : exn) : error_class :=
  match e with
  | ValueError MissingBaseGroup => ConfigurationError
  | ValueError (NoMatchLatest _) | ValueError NoMatchAny => PatternError
  | ValueError (BadRevision _) | ValueError (BadEpoch _) | ValueError (InvalidLiteral _)
  | ValueError ExceedsLimit => FormatError
  | ValueError (NotConforming _ _) => ValidationError
  | _ => OtherError
  end.

(** ** [int(s)] and [str(n)] *)

Definition digit_val (c : ascii) : Z := Z.of_N (code c) - 48.

(** The digits of an [int] literal: decimal digits, single underscores
    between them. [seen] says that the previous character was a digit. *)
Fixpoint int_digits (acc : Z) (seen : bool) (s : pystr) : option Z :=
  match s with
  | [] => if seen then Some acc else None
  | c :: t =>
      if is_digit c then int_digits (10 * acc + digit_val c) true t
      else if Ascii.eqb c "_" then (if seen then int_digits acc false t else None)
      else None
  end.

Definition int_literal (s : pystr) : option Z :=
  match rstrip is_int_space (lstrip is_int_space s) with
  | c :: t =>
      if Ascii.eqb c "+" then int_digits 0 false t
      else if Ascii.eqb c "-" then option_map Z.opp (int_digits 0 false t)
      else int_digits 0 false (c :: t)
  | [] => None
  end.

(** [sys.get_int_max_str_digits()] as CPython sets it by default: the
    most digits [int(s)] reads and [str(n)] writes in base 10. *)
Definition int_max_str_digits : nat := 4300.

Arguments int_max_str_digits : simpl never.

(** A text of at most [int_max_str_digits] characters. *)
Definition within_limit (s : pystr) : bool :=
  Nat.leb (length s) int_max_str_digits.

(** What [int] scans after the white space and the sign: the run of digits
    and underscores. *)
Definition int_body (s : pystr) : pystr :=
  match rstrip is_int_space (lstrip is_int_space s) with
  | c :: t => if (Ascii.eqb c "+" || Ascii.eqb c "-")%bool then t else c :: t
  | [] => []
  end.

Definition is_digit_or_underscore (c : ascii) : bool :=
  (is_digit c || Ascii.eqb c "_")%bool.

Definition int_run (s : pystr) : pystr := take_while is_digit_or_underscore (int_body s).

(** [int(s)]. The digits of a well-formed run are counted before they are
    converted and before what follows the run is looked at: more than the
    limit is a [ValueError] of its own. *)
Definition py_int (s : pystr) : result Z :=
  match int_digits 0 false (int_run s) with
  | Some _ =>
      if Nat.ltb int_max_str_digits (length (filter is_digit (int_run s)))
      then Raise (ValueError ExceedsLimit)
      else match int_literal s with
           | Some z => Ok z
           | None => Raise (ValueError (InvalidLiteral s))
           end
  | None => Raise (ValueError (InvalidLiteral s))
  end.

Definition digit_char (d : N) : ascii := ascii_of_N (48 + d).

Fixpoint N_digits (fuel : nat) (n : N) (acc : pystr) : pystr :=
  match fuel with
  | O => acc
  | S f =>
      let acc' := digit_char (n mod 10) :: acc in
      if N.ltb n 10 then acc' else N_digits f (n / 10) acc'
  end.

Definition str_of_N (n : N) : pystr := N_digits (S (N.to_nat (N.log2 n))) n [].

(** The decimal writing of an integer. *)
Definition str_of_int (z : Z) : pystr :=
  if z <? 0 then "-"%char :: str_of_N (Z.abs_N z) else str_of_N (Z.to_N z).

(** An integer [str] writes: one of at most [int_max_str_digits] digits. *)
Definition printable (z : Z) : bool :=
  Nat.leb (length (str_of_N (Z.abs_N z))) int_max_str_digits.

(** [str(n)] for an [int] *)
Definition py_str_int (z : Z) : result pystr :=
  if printable z then Ok (str_of_int z) else Raise (ValueError ExceedsLimit).

(** An element of a [Sequence[Union[str, int]]]. *)
Inductive atom :=
| AStr (s : pystr)
| AInt (z : Z).

(** [str(x)] *)
Definition py_str (x : atom) : result pystr :=
  match x with
  | AStr s => Ok s
  | AInt z => py_str_int z
  end.

(** What [str(x)] is when it returns. *)
Definition atom_text (x : atom) : pystr :=
  match x with
  | AStr s => s
  | AInt z => str_of_int z
  end.

Definition printable_atom (x : atom) : bool :=
  match x with
  | AStr _ => true
  | AInt z => printable z
  end.

(** ** Lists with Python indexing *)

(** The position an index denotes in a list of length [n]. *)
Definition norm_index (n : nat) (i : Z) : option nat :=
  let j := if i <? 0 then i + Z.of_nat n else i in
  if (0 <=? j) && (j <? Z.of_nat n) then Some (Z.to_nat j) else None.

Fixpoint set_nth {A} (l : list A) (n : nat) (x : A) : list A :=
  match l, n with
  | [], _ => []
  | _ :: t, O => x :: t
  | h :: t, S n' => h :: set_nth t n' x
  end.

Fixpoint del_nth {A} (l : list A) (n : nat) : list A :=
  match l, n with
  | [], _ => []
  | _ :: t, O => t
  | h :: t, S n' => h :: del_nth t n'
  end.

(** [l[i]] *)
Definition getitem {A} (l : list A) (i : Z) : result A :=
  match norm_index (length l) i with
  | Some n => match nth_error l n with Some x => Ok x | None => Raise IndexError end
  | None => Raise IndexError
  end.

(** [l[i] = x] *)
Definition setitem {A} (l : list A) (i : Z) (x : A) : result (list A) :=
  match norm_index (length l) i with
  | Some n => Ok (set_nth l n x)
  | None => Raise IndexError
  end.

(** [l.pop(i)], keeping the list that is left. *)
Definition list_pop {A} (l : list A) (i : Z) : result (list A) :=
  match norm_index (length l) i with
  | Some n => Ok (del_nth l n)
  | None => Raise IndexError
  end.

(** [[f(x) for x in l]] where [f] may raise. *)
Fixpoint map_result {A B} (f : A -> result B) (l : list A) : result (list B) :=
  match l with
  | [] => Ok []
  | x :: t => y <- f x ;; ys <- map_result f t ;; Ok (y :: ys)
  end.

(** ** [bump_version] *)

(** The loop [while i < limit: bases[i] = 0; i += 1], which runs
    [limit - i] times. *)
Fixpoint reset_loop (n : nat) (i : Z) (bases : list Z) : result (list Z) :=
  match n with
  | O => Ok bases
  | S n' => bases' <- setitem bases i 0 ;; reset_loop n' (i + 1) bases'
  end.

Definition bump_version (base : pystr) (index : Z) : result pystr :=
  bases <- map_result py_int (str_split "." base) ;;
  x <- getitem bases index ;;
  bases <- setitem bases index (x + 1) ;;
  let limit := if index <? 0 then 0 else Z.of_nat (length bases) in
  let i := index + 1 in
  bases <- reset_loop (Z.to_nat (limit - i)) i bases ;;
  strs <- map_result py_str_int bases ;;
  Ok (str_join (lit ".") strs).

(** ** Regular expressions: the fragment of [re] the module uses

    Greedy, backtracking, leftmost-first matching as in [re]: [Alt] tries its
    left branch first, [Star], [Plus] and [Opt] take as much as they can and
    give back on failure.  A capturing group carries its number and, for
    [(?P<name>...)], its name. *)

Inductive regex :=
| Eps
| Chr (f : ascii -> bool)
| Seq (a b : regex)
| Alt (a b : regex)
| Star (a : regex)
| Plus (a : regex)
| Opt (a : regex)
| Group (idx : nat) (name : option string) (a : regex)
| Bol                      (* ^ *)
| Eol.                     (* $ : at the end, or before a final line feed *)

Infix "+++" := Seq (at level 60, right associativity).

(** A literal word. *)
Fixpoint word (s : pystr) : regex :=
  match s with
  | [] => Eps
  | [c] => Chr (is_char c)
  | c :: t => Chr (is_char c) +++ word t
  end.

(** State of a match in progress: characters consumed so far, the input
    that is left, and the text of the groups closed so far (latest first). *)
Record mstate := MState {
  pos : nat;
  rest : pystr;
  caps : list (nat * pystr)
}.

Definition cont := mstate -> option mstate.

Definition set_cap (i : nat) (text : pystr) (s : mstate) : mstate :=
  MState (pos s) (rest s) ((i, text) :: caps s).

(** Repetition of [step]: one more round if it succeeds and consumes
    something, else go on with [k]. The fuel bounds the rounds by the
    length of the input. *)
Fixpoint star_loop (step : cont -> cont) (k : cont) (fuel : nat) (s : mstate)
  : option mstate :=
  match fuel with
  | O => k s
  | S fuel' =>
      match step (fun s' =>
                    if Nat.ltb (length (rest s')) (length (rest s))
                    then star_loop step k fuel' s' else None) s with
      | Some m => Some m
      | None => k s
      end
  end.

Fixpoint mt (r : regex) (k : cont) (s : mstate) {struct r} : option mstate :=
  match r with
  | Eps => k s
  | Chr f =>
      match rest s with
      | c :: t => if f c then k (MState (S (pos s)) t (caps s)) else None
      | [] => None
      end
  | Seq a b => mt a (mt b k) s
  | Alt a b =>
      match mt a k s with
      | Some m => Some m
      | None => mt b k s
      end
  | Star a => star_loop (mt a) k (S (length (rest s))) s
  | Plus a => mt a (fun s' => star_loop (mt a) k (S (length (rest s'))) s') s
  | Opt a =>
      match mt a k s with
      | Some m => Some m
      | None => k s
      end
  | Group i _ a =>
      mt a (fun s' => k (set_cap i (firstn (pos s' - pos s) (rest s)) s')) s
  | Bol => if Nat.eqb (pos s) 0 then k s else None
  | Eol =>
      match rest s with
      | [] => k s
      | [c] => if N.eqb (code c) 10 then k s else None
      | _ => None
      end
  end.

Definition accept : cont := fun s => Some s.

(** [re.match(r, s)]: a match at the start of [s]. *)
Definition re_match (r : regex) (s : pystr) : option mstate :=
  mt r accept (MState 0 s []).

(** [re.search(r, s)]: the first position of [s] with a match. *)
Fixpoint search_from (r : regex) (p : nat) (s : pystr) : option mstate :=
  match mt r accept (MState p s []) with
  | Some m => Some m
  | None =>
      match s with
      | [] => None
      | _ :: t => search_from r (S p) t
      end
  end.

Definition re_search (r : regex) (s : pystr) : option mstate := search_from r 0 s.

(** The number of the group named [name], as in [Pattern.groupindex]. *)
Fixpoint groupindex (r : regex) (name : string) : option nat :=
  match r with
  | Seq a b | Alt a b =>
      match groupindex a name with
      | Some i => Some i
      | None => groupindex b name
      end
  | Star a | Plus a | Opt a => groupindex a name
  | Group i nm a =>
      match nm with
      | Some n => if String.eqb n name then Some i else groupindex a name
      | None => groupindex a name
      end
  | _ => None
  end.

Fixpoint has_group (r : regex) (i : nat) : bool :=
  match r with
  | Seq a b | Alt a b => (has_group a i || has_group b i)%bool
  | Star a | Plus a | Opt a => has_group a i
  | Group j _ a => (Nat.eqb i j || has_group a i)%bool
  | _ => false
  end.

Fixpoint lookup_cap (i : nat) (l : list (nat * pystr)) : option pystr :=
  match l with
  | [] => None
  | (j, t) :: l' => if Nat.eqb i j then Some t else lookup_cap i l'
  end.

(** [m.group(i)]: [None] for a group that took no part in the match,
    [IndexError] for a group the pattern does not have. *)
Definition group_num (r : regex) (m : mstate) (i : nat) : result (option pystr) :=
  if has_group r i then Ok (lookup_cap i (caps m)) else Raise IndexError.

(** [m.group(name)] *)
Definition group_name (r : regex) (m : mstate) (name : string) : result (option pystr) :=
  match groupindex r name with
  | Some i => Ok (lookup_cap i (caps m))
  | None => Raise IndexError
  end.

(** [m.groupdict().get(name)] *)
Definition groupdict_get (r : regex) (m : mstate) (name : string) : option pystr :=
  match groupindex r name with
  | Some i => lookup_cap i (caps m)
  | None => None
  end.

(** [re.split(r, s)] for a pattern [r] without groups that matches no empty
    string (the module splits on [[.-]] only): cut [s] at the successive
    matches of [r]. [cur] is the piece being built, reversed. *)
Fixpoint re_split_from (r : regex) (fuel : nat) (p : nat) (cur : pystr) (s : pystr)
  : list pystr :=
  match fuel with
  | O => [rev cur ++ s]
  | S fuel' =>
      match s with
      | [] => [rev cur]
      | c :: t =>
          match mt r accept (MState p s []) with
          | Some m =>
              if Nat.ltb p (pos m)
              then rev cur :: re_split_from r fuel' (pos m) [] (rest m)
              else re_split_from r fuel' (S p) (c :: cur) t
          | None => re_split_from r fuel' (S p) (c :: cur) t
          end
      end
  end.

Definition re_split (r : regex) (s : pystr) : list pystr :=
  re_split_from r (S (length s)) 0 [] s.

(** ** The patterns of the module *)

Definition digits : regex := Plus (Chr is_digit).

(** [VERSION_SOURCE_PATTERN], in the verbose syntax the source writes it in
    (white space in the pattern is not part of it):
<<
    ^v((?P<epoch>\d+)!)?(?P<base>\d+(\.\d+)* )
    ([-._]?((?P<stage>[a-zA-Z]+)[-._]?(?P<revision>\d+)?))?
    (\+(?P<tagged_metadata>.+))?$
>> *)
Definition VERSION_SOURCE_PATTERN : regex :=
  Bol +++ Chr (is_char "v") +++
  Opt (Group 1 None (Group 2 (Some "epoch"%string) digits +++ Chr (is_char "!"))) +++
  Group 3 (Some "base"%string)
    (digits +++ Star (Group 4 None (Chr (is_char ".") +++ digits))) +++
  Opt (Group 5 None
    (Opt (Chr is_sep) +++
     Group 6 None
       (Group 7 (Some "stage"%string) (Plus (Chr is_alpha)) +++
        Opt (Chr is_sep) +++
        Opt (Group 8 (Some "revision"%string) digits)))) +++
  Opt (Group 9 None
    (Chr (is_char "+") +++
     Group 10 (Some "tagged_metadata"%string) (Plus (Chr is_not_newline)))) +++
  Eol.

(** [_VALID_PEP440] (verbose syntax)
<<
    ^(\d+!)?\d+(\.\d+)*((a|b|rc)\d+)?(\.post\d+)?(\.dev\d+)?
    (\+([a-zA-Z0-9]|[a-zA-Z0-9]{2}|[a-zA-Z0-9][a-zA-Z0-9.]+[a-zA-Z0-9]))?$
>> *)
Definition _VALID_PEP440 : regex :=
  Bol +++
  Opt (Group 1 None (digits +++ Chr (is_char "!"))) +++
  digits +++ Star (Group 2 None (Chr (is_char ".") +++ digits)) +++
  Opt (Group 3 None
    (Group 4 None (Alt (word (lit "a")) (Alt (word (lit "b")) (word (lit "rc")))) +++
     digits)) +++
  Opt (Group 5 None (word (lit ".post") +++ digits)) +++
  Opt (Group 6 None (word (lit ".dev") +++ digits)) +++
  Opt (Group 7 None
    (Chr (is_char "+") +++
     Group 8 None
       (Alt (Chr is_alnum)
       (Alt (Chr is_alnum +++ Chr is_alnum)
            (Chr is_alnum +++ Plus (Chr is_alnum_dot) +++ Chr is_alnum))))) +++
  Eol.

(** [_VALID_SEMVER] (verbose syntax)
<<
    ^\d+\.\d+\.\d+
    (\-[a-zA-Z0-9\-]+(\.[a-zA-Z0-9\-]+)* )?
    (\+[a-zA-Z0-9\-]+(\.[a-zA-Z0-9\-]+)* )?$
>> *)
Definition _VALID_SEMVER : regex :=
  Bol +++
  digits +++ Chr (is_char ".") +++ digits +++ Chr (is_char ".") +++ digits +++
  Opt (Group 1 None
    (Chr (is_char "-") +++ Plus (Chr is_alnum_dash) +++
     Star (Group 2 None (Chr (is_char ".") +++ Plus (Chr is_alnum_dash))))) +++
  Opt (Group 3 None
    (Chr (is_char "+") +++ Plus (Chr is_alnum_dash) +++
     Star (Group 4 None (Chr (is_char ".") +++ Plus (Chr is_alnum_dash))))) +++
  Eol.

(** [_VALID_PVP]: [^\d+(\.\d+)*(-[a-zA-Z0-9]+)*$] *)
Definition _VALID_PVP : regex :=
  Bol +++
  digits +++ Star (Group 1 None (Chr (is_char ".") +++ digits)) +++
  Star (Group 2 None (Chr (is_char "-") +++ Plus (Chr is_alnum))) +++
  Eol.

(** [r"^0[0-9]+$"] of [check_version] *)
Definition LEADING_ZERO : regex :=
  Bol +++ Chr (is_char "0") +++ Plus (Chr is_digit) +++ Eol.

(** [r"[.-]"] of [check_version] *)
Definition DOT_OR_DASH : regex := Chr is_dot_dash.

(** [r"d?(\d+)"] of [Version.parse] *)
Definition DISTANCE_PART : regex :=
  Opt (Chr (is_char "d")) +++ Group 1 None digits.

(** [r"g?([\da-z]+)"] of [Version.parse] *)
Definition COMMIT_PART : regex :=
  Opt (Chr (is_char "g")) +++ Group 1 None (Plus (Chr is_lower_alnum)).

Definition style_pattern (style : Style) : regex :=
  match style with
  | Pep440 => _VALID_PEP440
  | SemVer => _VALID_SEMVER
  | Pvp => _VALID_PVP
  end.

Definition is_some {A} (o : option A) : bool :=
  match o with Some _ => true | None => false end.

(** ** [check_version] *)

Definition check_version (version : pystr) (style : Style) : result unit :=
  let failure := ValueError (NotConforming version style) in
  match re_search (style_pattern style) version with
  | None => Raise failure
  | Some _ =>
      if Style_eqb style SemVer then
        head <- getitem (str_split_max "+" 1 version) 0 ;;
        let parts := re_split DOT_OR_DASH head in
        if existsb (fun x => is_some (re_search LEADING_ZERO x)) parts
        then Raise failure
        else Ok tt
      else Ok tt
  end.

(** ** [_match_version_pattern] *)

Module Matched.
Record t := Make {
  matched_tag : pystr;
  base : pystr;
  stage_revision : option (pystr * option Z);
  newer_tags : list pystr;
  tagged_metadata : option pystr;
  epoch : option Z
}.
End Matched.

(** What the [for] loop leaves behind: [pattern_match], [base],
    [newer_unmatched_tags] and the loop variable [source]. *)
Record loop_state := LoopState {
  l_match : option mstate;
  l_base : option pystr;
  l_newer : list pystr;
  l_source : option pystr
}.

Fixpoint match_loop (pattern : regex) (sources : list pystr)
  (pattern_match : option mstate) (newer : list pystr) (last : option pystr)
  : result loop_state :=
  match sources with
  | [] => Ok (LoopState pattern_match None newer last)
  | source :: sources' =>
      match re_search pattern source with
      | None => match_loop pattern sources' None (newer ++ [source]) (Some source)
      | Some m =>
          match group_name pattern m "base" with
          | Raise IndexError => Raise (ValueError MissingBaseGroup)
          | Raise e => Raise e
          | Ok (Some b) => Ok (LoopState (Some m) (Some b) newer (Some source))
          | Ok None => match_loop pattern sources' (Some m) newer (Some source)
          end
      end
  end.

(** [try: int(text) except ValueError: raise ValueError(msg)] *)
Definition int_or (msg : pystr -> message) (text : pystr) : result Z :=
  match py_int text with
  | Ok z => Ok z
  | Raise (ValueError _) => Raise (ValueError (msg text))
  | Raise e => Raise e
  end.

Definition _match_version_pattern (pattern : regex) (sources : list pystr)
  (latest_source : bool) : result Matched.t :=
  st <- match_loop pattern (if latest_source then firstn 1 sources else sources)
          None [] None ;;
  match l_match st, l_base st, l_source st with
  | Some pattern_match, Some base, Some source =>
      let stage := groupdict_get pattern pattern_match "stage" in
      let revision := groupdict_get pattern pattern_match "revision" in
      let tagged_metadata := groupdict_get pattern pattern_match "tagged_metadata" in
      let epoch := groupdict_get pattern pattern_match "epoch" in
      stage_revision <-
        match stage with
        | Some stage =>
            match revision with
            | None => Ok (Some (stage, None))
            | Some text => r <- int_or BadRevision text ;; Ok (Some (stage, Some r))
            end
        | None => Ok None
        end ;;
      epoch <-
        match epoch with
        | Some text => e <- int_or BadEpoch text ;; Ok (Some e)
        | None => Ok None
        end ;;
      Ok (Matched.Make source base stage_revision (l_newer st) tagged_metadata epoch)
  | _, _, _ =>
      if latest_source then
        first <- getitem sources 0 ;;
        Raise (ValueError (NoMatchLatest first))
      else Raise (ValueError NoMatchAny)
  end.

(** [_blank] *)
Definition _blank {A} (value : option A) (default : A) : A :=
  match value with
  | Some v => v
  | None => default
  end.

(** [re.sub(r, repl, s)] for a pattern [r] without groups that matches no
    empty string and a replacement [repl] without escapes: every successive
    match of [r] is replaced by [repl]. *)
Fixpoint re_sub_from (r : regex) (repl : pystr) (fuel : nat) (p : nat) (s : pystr) : pystr :=
  match fuel with
  | O => s
  | S fuel' =>
      match s with
      | [] => []
      | c :: t =>
          match mt r accept (MState p s []) with
          | Some m =>
              if Nat.ltb p (pos m)
              then repl ++ re_sub_from r repl fuel' (pos m) (rest m)
              else c :: re_sub_from r repl fuel' (S p) t
          | None => c :: re_sub_from r repl fuel' (S p) t
          end
      end
  end.

Definition re_sub (r : regex) (repl : pystr) (s : pystr) : pystr :=
  re_sub_from r repl (S (length s)) 0 s.

(** [r"[^a-zA-Z0-9]"] of [_escape_branch] *)
Definition NOT_ALNUM : regex := Chr (fun c => negb (is_alnum c)).

(** [_escape_branch] *)
Definition _escape_branch (value : pystr) : pystr := re_sub NOT_ALNUM [] value.

Definition opt_eqb {A} (eqb : A -> A -> bool) (x y : option A) : bool :=
  match x, y with
  | Some a, Some b => eqb a b
  | None, None => true
  | _, _ => false
  end.

(** [_equal_if_set(x, y, unset)]: [y in unset] compares [y] with each
    element of [unset]. *)
Definition _equal_if_set {A} (eqb : A -> A -> bool) (x y : option A)
  (unset : list (option A)) : bool :=
  if existsb (opt_eqb eqb y) unset then true else opt_eqb eqb x y.

(** ** [datetime.datetime]: construction and order, for times in UTC *)

Record datetime := DateTime {
  year : Z; month : Z; day : Z; hour : Z; minute : Z; second : Z
}.

Definition is_leap (y : Z) : bool :=
  ((y mod 4 =? 0) && (negb (y mod 100 =? 0) || (y mod 400 =? 0)))%bool.

Definition days_in_month (y m : Z) : Z :=
  if m =? 2 then (if is_leap y then 29 else 28)
  else if (m =? 4) || (m =? 6) || (m =? 9) || (m =? 11) then 30 else 31.

Definition within (lo hi x : Z) : bool := ((lo <=? x) && (x <=? hi))%bool.

(** [dt.datetime(year, month, day, hour, minute, second)] *)
Definition dt_datetime (y m d h mi s : Z) : result datetime :=
  if negb (within 1 9999 y) then Raise (ValueError (OutOfRange "year"))
  else if negb (within 1 12 m) then Raise (ValueError (OutOfRange "month"))
  else if negb (within 1 (days_in_month y m) d) then Raise (ValueError (OutOfRange "day"))
  else if negb (within 0 23 h) then Raise (ValueError (OutOfRange "hour"))
  else if negb (within 0 59 mi) then Raise (ValueError (OutOfRange "minute"))
  else if negb (within 0 59 s) then Raise (ValueError (OutOfRange "second"))
  else Ok (DateTime y m d h mi s).

Fixpoint lex_ltb (a b : list Z) : bool :=
  match a, b with
  | x :: a', y :: b' => if x <? y then true else if y <? x then false else lex_ltb a' b'
  | [], _ :: _ => true
  | _, [] => false
  end.

Definition datetime_fields (t : datetime) : list Z :=
  [year t; month t; day t; hour t; minute t; second t].

Definition datetime_ltb (a b : datetime) : bool :=
  lex_ltb (datetime_fields a) (datetime_fields b).

Fixpoint list_Z_eqb (a b : list Z) : bool :=
  match a, b with
  | [], [] => true
  | x :: a', y :: b' => ((x =? y) && list_Z_eqb a' b')%bool
  | _, _ => false
  end.

(** [==] on times in UTC *)
Definition datetime_eqb (a b : datetime) : bool :=
  list_Z_eqb (datetime_fields a) (datetime_fields b).

(** ** The serializers *)

Definition opt_atoms {A} (o : option A) (f : A -> list atom) : list atom :=
  match o with
  | Some x => f x
  | None => []
  end.

(** [alternative_stages.get(key, key)] *)
Definition alternative_stages : list (pystr * pystr) :=
  [(lit "alpha", lit "a"); (lit "beta", lit "b"); (lit "c", lit "rc");
   (lit "pre", lit "rc"); (lit "preview", lit "rc")].

Fixpoint dict_get (d : list (pystr * pystr)) (key default : pystr) : pystr :=
  match d with
  | [] => default
  | (k, v) :: d' => if str_eqb k key then v else dict_get d' key default
  end.

(** [sep.join(map(str, l))] *)
Definition join_atoms (sep : pystr) (l : list atom) : result pystr :=
  parts <- map_result py_str l ;; Ok (str_join sep parts).

(** ["".join(map(str, out))] *)
Definition join_str (out : list atom) : result pystr :=
  parts <- map_result py_str out ;; Ok (concat parts).

Definition nonempty {A} (o : option (list A)) : option (list A) :=
  match o with
  | Some (x :: l) => Some (x :: l)
  | _ => None
  end.

(** [if l is not None and len(l) > 0: out.extend([mark, sep.join(map(str, l))])]:
    what is added to [out]. *)
Definition extend_joined (mark sep : pystr) (l : option (list atom)) : result (list atom) :=
  match nonempty l with
  | Some m => joined <- join_atoms sep m ;; Ok [AStr mark; AStr joined]
  | None => Ok []
  end.

Definition serialize_pep440 (base : pystr) (stage : option pystr) (revision : option Z)
  (post dev epoch : option Z) (metadata : option (list atom)) : result pystr :=
  meta <- extend_joined (lit "+") (lit ".") metadata ;;
  let out :=
    opt_atoms epoch (fun e => [AInt e; AStr (lit "!")]) ++
    [AStr base] ++
    opt_atoms stage (fun st =>
      [AStr (dict_get alternative_stages (str_lower st) (str_lower st));
       match revision with
       | None => AInt 0
       | Some r => AInt r
       end]) ++
    opt_atoms post (fun p => [AStr (lit ".post"); AInt p]) ++
    opt_atoms dev (fun d => [AStr (lit ".dev"); AInt d]) ++
    meta in
  serialized <- join_str out ;;
  check_version serialized Pep440 ;;;
  Ok serialized.

Definition serialize_semver (base : pystr) (pre metadata : option (list atom))
  : result pystr :=
  pre_ <- extend_joined (lit "-") (lit ".") pre ;;
  meta <- extend_joined (lit "+") (lit ".") metadata ;;
  let out := [AStr base] ++ pre_ ++ meta in
  serialized <- join_str out ;;
  check_version serialized SemVer ;;;
  Ok serialized.

Definition serialize_pvp (base : pystr) (metadata : option (list atom)) : result pystr :=
  meta <- extend_joined (lit "-") (lit "-") metadata ;;
  let out := [AStr base] ++ meta in
  serialized <- join_str out ;;
  check_version serialized Pvp ;;;
  Ok serialized.

(** ** The [Version] class *)

Module Version.

Record t := Make {
  base : pystr;
  stage : option pystr;
  revision : option Z;
  distance : Z;
  commit : option pystr;
  dirty : option bool;
  tagged_metadata : option pystr;
  epoch : option Z;
  branch : option pystr;
  timestamp : option datetime
}.

(** [Version.__init__]; [timestamp] is taken in UTC already. *)
Definition init (base : pystr) (stage : option (pystr * option Z)) (distance : Z)
  (commit : option pystr) (dirty : option bool) (tagged_metadata : option pystr)
  (epoch : option Z) (branch : option pystr) (timestamp : option datetime) : t :=
  match stage with
  | Some (st, rev) =>
      Make base (Some st) rev distance commit dirty tagged_metadata epoch branch timestamp
  | None =>
      Make base None None distance commit dirty tagged_metadata epoch branch timestamp
  end.

(** [Version(base)], every keyword at its default. *)
Definition of_base (base : pystr) : t :=
  init base None 0 None None None None None None.

Definition with_base_revision (v : t) (b : pystr) (r : option Z) : t :=
  Make b (stage v) r (distance v) (commit v) (dirty v) (tagged_metadata v)
       (epoch v) (branch v) (timestamp v).

(** [bool(x)] for an [Optional[bool]] *)
Definition truth (x : option bool) : bool := _blank x false.

Definition bool_ltb (a b : bool) : bool := (negb a && b)%bool.

Section Ordering.

(** [packaging.version] is not part of the module: its [Version] type, the
    constructor (which raises [InvalidVersion]) and [<] are parameters. *)
Variable pv_version : Type.
Variable pv_Version : pystr -> result pv_version.
Variable pv_ltb : pv_version -> pv_version -> bool.

(** [a and b], where evaluating either side may raise. *)
Definition and_then (a : result bool) (b : result bool) : result bool :=
  x <- a ;; if x then b else Ok false.

(** [Version.__lt__] for [other] a [Version]. *)
Definition __lt__ (self other : t) : result bool :=
  and_then (a <- pv_Version (base self) ;; b <- pv_Version (base other) ;; Ok (pv_ltb a b))
  (and_then (Ok (str_ltb (_blank (stage self) []) (_blank (stage other) [])))
  (and_then (Ok (_blank (revision self) 0 <? _blank (revision other) 0))
  (and_then (Ok (_blank (Some (distance self)) 0 <? _blank (Some (distance other)) 0))
  (and_then (Ok (str_ltb (_blank (commit self) []) (_blank (commit other) [])))
  (and_then (Ok (bool_ltb (truth (dirty self)) (truth (dirty other))))
  (and_then (Ok (str_ltb (_blank (tagged_metadata self) []) (_blank (tagged_metadata other) [])))
  (and_then (Ok (_blank (epoch self) 0 <? _blank (epoch other) 0))
  (and_then (Ok (str_ltb (_blank (branch self) []) (_blank (branch other) [])))
     (d1 <- dt_datetime 0 0 0 0 0 0 ;;
      d2 <- dt_datetime 0 0 0 0 0 0 ;;
      Ok (datetime_ltb (_blank (timestamp self) d1) (_blank (timestamp other) d2))))))))))).

End Ordering.

(** [Version.bump] *)
Definition bump (self : t) (index : Z) : result t :=
  match stage self with
  | None =>
      b <- bump_version (base self) index ;;
      Ok (with_base_revision self b (revision self))
  | Some _ =>
      match revision self with
      | None => Ok (with_base_revision self (base self) (Some 2))
      | Some r => Ok (with_base_revision self (base self) (Some (r + 1)))
      end
  end.

(** [sorted(l)] on positions *)
Fixpoint insert_sorted (x : nat) (l : list nat) : list nat :=
  match l with
  | [] => [x]
  | y :: l' => if Nat.leb x y then x :: l else y :: insert_sorted x l'
  end.
Definition sorted (l : list nat) : list nat := fold_right insert_sorted [] l.

(** [Version.serialize]. [format] is the callback form of the parameter;
    the template-string form ([format.format(...)]) is not embedded. *)
Definition serialize (self : t) (metadata : option bool) (dirty : bool)
  (format : option (t -> result pystr)) (style : option Style) (bump_ : bool)
  (tagged_metadata_ : bool) : result pystr :=
  br <- (if (bump_ && (distance self >? 0))%bool
         then bumped <- bump self (-1) ;; Ok (base bumped, revision bumped)
         else Ok (base self, revision self)) ;;
  let base_ := fst br in
  let revision_ := snd br in
  match format with
  | Some f =>
      out <- f (with_base_revision self base_ revision_) ;;
      match style with
      | Some st => check_version out st ;;; Ok out
      | None => Ok out
      end
  | None =>
      let style := _blank style Pep440 in
      let meta_parts :=
        match metadata with
        | Some false => []
        | _ =>
            (match tagged_metadata self with
             | Some (c :: m) => if tagged_metadata_ then [c :: m] else []
             | _ => []
             end) ++
            (match commit self with
             | Some c => if (truth metadata || (distance self >? 0))%bool then [c] else []
             | None => []
             end) ++
            (if (dirty && truth (Version.dirty self))%bool then [lit "dirty"] else [])
        end in
      stage_parts <-
        match stage self with
        | Some st =>
            match revision_ with
            | Some r => text <- py_str_int r ;; Ok [st; text]
            | None => Ok [st]
            end
        | None => Ok []
        end ;;
      distance_parts <-
        (if distance self >? 0
         then text <- py_str_int (distance self) ;;
              Ok [if bump_ then lit "pre" else lit "post"; text]
         else Ok []) ;;
      let pre_parts := stage_parts ++ distance_parts in
      out <-
        match style with
        | Pep440 =>
            let is_post := match stage self with Some st => str_eqb st (lit "post") | None => false end in
            let is_dev := match stage self with Some st => str_eqb st (lit "dev") | None => false end in
            let stage_ := if (is_post || is_dev)%bool then None else stage self in
            let post := if is_post then revision_ else None in
            let dev := if is_post then None else if is_dev then revision_ else None in
            let post_dev :=
              if distance self >? 0 then
                if bump_ then
                  match dev with
                  | None => (post, Some (distance self))
                  | Some d => (post, Some (d + distance self))
                  end
                else
                  match post, dev with
                  | None, None => (Some (distance self), Some 0)
                  | _, None => (post, Some (distance self))
                  | _, Some d => (post, Some (d + distance self))
                  end
              else (post, dev) in
            serialize_pep440 base_ stage_ revision_ (fst post_dev) (snd post_dev)
              (epoch self) (Some (map AStr meta_parts))
        | SemVer =>
            serialize_semver base_ (Some (map AStr pre_parts)) (Some (map AStr meta_parts))
        | Pvp =>
            serialize_pvp base_ (Some (map AStr (pre_parts ++ meta_parts)))
        end ;;
      check_version out style ;;;
      Ok out
  end.

(** The three slots filled while the parts of the metadata are scanned,
    and the positions to pop. *)
Record slots := Slots {
  s_dirty : option bool;
  s_distance : option Z;
  s_commit : option pystr;
  s_pop : list nat
}.

(** [re.match(r, value)] and, when there is a match, its [match.group(1)]. *)
Definition match_group1 (r : regex) (value : pystr) : result (option (option pystr)) :=
  match re_match r value with
  | Some m => g <- group_num r m 1 ;; Ok (Some g)
  | None => Ok None
  end.

(** [int(x)] for an [Optional[str]]: [int(None)] is a [TypeError]. *)
Definition py_int_opt (x : option pystr) : result Z :=
  match x with
  | Some text => py_int text
  | None => Raise TypeError
  end.

(** One round of [for i, value in enumerate(parts)]. *)
Definition scan_step (st : slots) (i : nat) (value : pystr) : result slots :=
  let claimed_dirty :=
    match s_dirty st with
    | None =>
        if str_eqb value (lit "dirty") then Some true
        else if str_eqb value (lit "clean") then Some false
        else None
    | Some _ => None
    end in
  match claimed_dirty with
  | Some d => Ok (Slots (Some d) (s_distance st) (s_commit st) (s_pop st ++ [i]))
  | None =>
      claimed_distance <-
        match s_distance st with
        | None =>
            m <- match_group1 DISTANCE_PART value ;;
            match m with
            | Some g => n <- py_int_opt g ;; Ok (Some n)
            | None => Ok None
            end
        | Some _ => Ok None
        end ;;
      match claimed_distance with
      | Some n => Ok (Slots (s_dirty st) (Some n) (s_commit st) (s_pop st ++ [i]))
      | None =>
          claimed_commit <-
            match s_commit st with
            | None => match_group1 COMMIT_PART value
            | Some _ => Ok None
            end ;;
          match claimed_commit with
          | Some g => Ok (Slots (s_dirty st) (s_distance st) g (s_pop st ++ [i]))
          | None => Ok st
          end
      end
  end.

Fixpoint scan_parts (st : slots) (i : nat) (parts : list pystr) : result slots :=
  match parts with
  | [] => Ok st
  | value :: parts' => st' <- scan_step st i value ;; scan_parts st' (S i) parts'
  end.

(** [for i in reversed(sorted(pop)): parts.pop(i)] *)
Fixpoint pop_all (indices : list nat) (parts : list pystr) : result (list pystr) :=
  match indices with
  | [] => Ok parts
  | i :: indices' => parts' <- list_pop parts (Z.of_nat i) ;; pop_all indices' parts'
  end.

(** [Version.parse] *)
Definition parse (version : pystr) (pattern : regex) : result t :=
  let prefixed := if startswith (lit "v") version then version else lit "v" ++ version in
  match _match_version_pattern pattern [prefixed] true with
  | Raise (ValueError _) => Ok (of_base version)
  | Raise e => Raise e
  | Ok matched_pattern =>
      let base := Matched.base matched_pattern in
      let stage := Matched.stage_revision matched_pattern in
      let tagged_metadata := Matched.tagged_metadata matched_pattern in
      let epoch := Matched.epoch matched_pattern in
      r <-
        match tagged_metadata with
        | Some (c :: m) =>
            let parts := str_split "." (c :: m) in
            st <- scan_parts (Slots None None None []) 0 parts ;;
            parts <- pop_all (rev (sorted (s_pop st))) parts ;;
            Ok (st, Some (str_join (lit ".") parts))
        | _ => Ok (Slots None None None [], tagged_metadata)
        end ;;
      let st := fst r in
      let tagged_metadata := snd r in
      let distance := _blank (s_distance st) 0 in
      let tagged_metadata :=
        match tagged_metadata with
        | Some m => if str_eqb (str_strip m) [] then None else Some m
        | None => None
        end in
      Ok (init base stage distance (s_commit st) (s_dirty st) tagged_metadata epoch
            None None)
  end.

(** [Version.__eq__] for [other] a [Version]. *)
Definition __eq__ (self other : t) : bool :=
  (str_eqb (base self) (base other)
   && opt_eqb str_eqb (stage self) (stage other)
   && opt_eqb Z.eqb (revision self) (revision other)
   && (distance self =? distance other)
   && opt_eqb str_eqb (commit self) (commit other)
   && opt_eqb Bool.eqb (dirty self) (dirty other)
   && opt_eqb str_eqb (tagged_metadata self) (tagged_metadata other)
   && opt_eqb Z.eqb (epoch self) (epoch other)
   && opt_eqb str_eqb (branch self) (branch other)
   && opt_eqb datetime_eqb (timestamp self) (timestamp other))%bool.

(** [Version._matches_partial] *)
Definition _matches_partial (self other : t) : bool :=
  (_equal_if_set str_eqb (Some (base self)) (Some (base other)) [None]
   && _equal_if_set str_eqb (stage self) (stage other) [None]
   && _equal_if_set Z.eqb (revision self) (revision other) [None]
   && _equal_if_set Z.eqb (Some (distance self)) (Some (distance other)) [None; Some 0]
   && _equal_if_set str_eqb (commit self) (commit other) [None]
   && _equal_if_set Bool.eqb (dirty self) (dirty other) [None]
   && _equal_if_set str_eqb (tagged_metadata self) (tagged_metadata other) [None]
   && _equal_if_set Z.eqb (epoch self) (epoch other) [None]
   && _equal_if_set str_eqb (branch self) (branch other) [None]
   && _equal_if_set datetime_eqb (timestamp self) (timestamp other) [None])%bool.

(** [Version.__str__]: [serialize()] with every argument at its default. *)
Definition __str__ (self : t) : result pystr :=
  serialize self None false None None false false.

End Version.


(** ** Definitions used to state the properties *)

(** [yields Q o]: the match [o] succeeded with a final state satisfying [Q]. *)
Definition yields (Q : mstate -> Prop) (o : option mstate) : Prop :=
  match o with
  | Some m => Q m
  | None => False
  end.

(** A stand-in for [packaging.version] on release-only versions such as
    ["1.2.3"], to run [Version.__lt__] on examples: the key of a version is
    the list of its numbers. *)
Definition release_Version (s : pystr) : result (list Z) :=
  match map_result py_int (str_split "." s) with
  | Ok l => Ok l
  | Raise _ => Raise (InvalidVersion s)
  end.

(** The nine comparisons of [Version.__lt__] that come before the one on
    [timestamp], as one conjunction. *)
Definition before_timestamp {pv_version : Type} (pv_Version : pystr -> result pv_version)
  (pv_ltb : pv_version -> pv_version -> bool) (x y : Version.t) : result bool :=
  a <- pv_Version (Version.base x) ;;
  b <- pv_Version (Version.base y) ;;
  Ok (pv_ltb a b
      && str_ltb (_blank (Version.stage x) []) (_blank (Version.stage y) [])
      && (_blank (Version.revision x) 0 <? _blank (Version.revision y) 0)
      && (Version.distance x <? Version.distance y)
      && str_ltb (_blank (Version.commit x) []) (_blank (Version.commit y) [])
      && Version.bool_ltb (Version.truth (Version.dirty x)) (Version.truth (Version.dirty y))
      && str_ltb (_blank (Version.tagged_metadata x) []) (_blank (Version.tagged_metadata y) [])
      && (_blank (Version.epoch x) 0 <? _blank (Version.epoch y) 0)
      && str_ltb (_blank (Version.branch x) []) (_blank (Version.branch y) []))%bool.

(** Two versions that agree on every field but [base]. *)
Definition same_but_base (x y : Version.t) : Prop :=
  Version.stage x = Version.stage y /\
  Version.revision x = Version.revision y /\
  Version.distance x = Version.distance y /\
  Version.commit x = Version.commit y /\
  Version.dirty x = Version.dirty y /\
  Version.tagged_metadata x = Version.tagged_metadata y /\
  Version.epoch x = Version.epoch y /\
  Version.branch x = Version.branch y /\
  Version.timestamp x = Version.timestamp y.

(** The candidates [_match_version_pattern] looks at. *)
Definition tested (sources : list pystr) (latest_source : bool) : list pystr :=
  if latest_source then firstn 1 sources else sources.

(** [re.search(pattern, source)] found a match. *)
Definition matches (pattern : regex) (source : pystr) : bool :=
  is_some (re_search pattern source).

(** A run of decimal digits, at least one. *)
Definition numeric (seg : pystr) : bool :=
  match seg with
  | [] => false
  | _ => forallb is_digit seg
  end.

(** The number a run of decimal digits denotes. *)
Definition digits_value (s : pystr) : Z :=
  fold_left (fun acc c => 10 * acc + digit_val c) s 0.

(** Dot-separated runs of digits, such as ["1.2.3"]. *)
Definition dotted_numeric (base : pystr) : bool :=
  forallb numeric (str_split "." base).

(** The longest prefix of characters in a class, and what follows it. *)
(** [stops f t]: [t] does not go on with a character of the class [f]. *)
Definition stops (f : ascii -> bool) (t : pystr) : bool :=
  match t with
  | [] => true
  | c :: _ => negb (f c)
  end.

(** The repetition of a character class, by recursion on the input: take
    the characters of the class, then try [k] from the longest run down. *)
Fixpoint star_chr (f : ascii -> bool) (k : cont) (p : nat) (r : pystr)
  (c : list (nat * pystr)) : option mstate :=
  match r with
  | x :: t =>
      if f x then
        match star_chr f k (S p) t c with
        | Some m => Some m
        | None => k (MState p r c)
        end
      else k (MState p r c)
  | [] => k (MState p [] c)
  end.

(** Two capture lists that agree on every group but [g]. *)
Definition agree_but (g : nat) (c c' : list (nat * pystr)) : Prop :=
  forall i, i <> g -> lookup_cap i c' = lookup_cap i c.

(** ** The decomposition of the metadata, part by part

    What [Version.parse] does with the parts of the captured metadata,
    written without positions and without the matcher: each part is given
    at most one of the slots that are still free. *)

Definition nonempty_str (s : pystr) : option pystr :=
  match s with
  | [] => None
  | _ => Some s
  end.

(** [value] without a leading [c], if it has one. *)
Definition without_leading (c : ascii) (value : pystr) : pystr :=
  match value with
  | x :: t => if Ascii.eqb x c then t else value
  | [] => []
  end.

(** The digits a part offers for the distance: after an optional ["d"], the
    digits it starts with (whatever follows them). *)
Definition distance_token (value : pystr) : option pystr :=
  nonempty_str (take_while is_digit (without_leading "d" value)).

(** The text a part offers for the commit: after an optional ["g"], the
    digits and lower-case letters it starts with (whatever follows them);
    a ["g"] that nothing follows is itself such a text. *)
Definition commit_token (value : pystr) : option pystr :=
  match nonempty_str (take_while is_lower_alnum (without_leading "g" value)) with
  | Some text => Some text
  | None => nonempty_str (take_while is_lower_alnum value)
  end.

Inductive claim :=
| ClaimDirty (b : bool)
| ClaimDistance (n : Z)
| ClaimCommit (c : pystr)
| Unclaimed.

Definition is_none {A} (o : option A) : bool :=
  match o with Some _ => false | None => true end.

Definition is_claimed (c : claim) : bool :=
  match c with Unclaimed => false | _ => true end.

Fixpoint claimed_dirty (cl : list claim) : option bool :=
  match cl with
  | ClaimDirty b :: _ => Some b
  | _ :: cl' => claimed_dirty cl'
  | [] => None
  end.

Fixpoint claimed_distance (cl : list claim) : option Z :=
  match cl with
  | ClaimDistance n :: _ => Some n
  | _ :: cl' => claimed_distance cl'
  | [] => None
  end.

Fixpoint claimed_commit (cl : list claim) : option pystr :=
  match cl with
  | ClaimCommit c :: _ => Some c
  | _ :: cl' => claimed_commit cl'
  | [] => None
  end.

(** The parts no slot took, in order. *)
Fixpoint unclaimed (parts : list pystr) (cl : list claim) : list pystr :=
  match parts, cl with
  | part :: parts', c :: cl' =>
      if is_claimed c then unclaimed parts' cl' else part :: unclaimed parts' cl'
  | _, _ => []
  end.

(** A string of white space only (the empty string too). *)
Definition blank (s : pystr) : bool := forallb is_space s.

Definition empty (s : pystr) : bool :=
  match s with [] => true | _ => false end.

Section Decomposition.

(** What a part offers for the distance and for the commit, and when the
    remainder counts as unset. *)
Variable distance_of : pystr -> option pystr.
Variable commit_of : pystr -> option pystr.
Variable unset : pystr -> bool.

(** The slot a part is given, from the slots that are free. *)
Definition claim_with (dirty_free distance_free commit_free : bool) (part : pystr) : claim :=
  if (dirty_free && str_eqb part (lit "dirty"))%bool then ClaimDirty true
  else if (dirty_free && str_eqb part (lit "clean"))%bool then ClaimDirty false
  else
    match (if distance_free then distance_of part else None) with
    | Some ds => ClaimDistance (digits_value ds)
    | None =>
        match (if commit_free then commit_of part else None) with
        | Some text => ClaimCommit text
        | None => Unclaimed
        end
    end.

(** One scan, left to right: a slot that was given is no longer free. *)
Fixpoint claims_with (dirty_free distance_free commit_free : bool) (parts : list pystr)
  : list claim :=
  match parts with
  | [] => []
  | part :: parts' =>
      let c := claim_with dirty_free distance_free commit_free part in
      c :: claims_with
             (dirty_free && negb (match c with ClaimDirty _ => true | _ => false end))
             (distance_free && negb (match c with ClaimDistance _ => true | _ => false end))
             (commit_free && negb (match c with ClaimCommit _ => true | _ => false end))
             parts'
  end.

(** The version built from a match of the pattern: the metadata is split
    on ["."], scanned once, and what no slot took is joined again. *)
Definition decomposed_with (mp : Matched.t) : Version.t :=
  let parts := str_split "." (_blank (Matched.tagged_metadata mp) []) in
  let cl := claims_with true true true parts in
  let remainder := str_join (lit ".") (unclaimed parts cl) in
  Version.init (Matched.base mp) (Matched.stage_revision mp)
    (_blank (claimed_distance cl) 0) (claimed_commit cl) (claimed_dirty cl)
    (if unset remainder then None else Some remainder)
    (Matched.epoch mp) None None.

End Decomposition.

(** The decomposition [Version.parse] performs. *)
Definition claim_of := claim_with distance_token commit_token.
Definition claims := claims_with distance_token commit_token.
Definition decomposed := decomposed_with distance_token commit_token blank.

(** The digits of the part the scan gives to the distance, if it gives one. *)
Fixpoint distance_digits (parts : list pystr) (cl : list claim) : option pystr :=
  match parts, cl with
  | part :: parts', c :: cl' =>
      match c with
      | ClaimDistance _ => distance_token part
      | _ => distance_digits parts' cl'
      end
  | _, _ => None
  end.

Definition opt_within_limit (o : option pystr) : bool :=
  match o with
  | Some s => within_limit s
  | None => true
  end.

(** What [extend_joined] adds to [out] for a list of strings. *)
Definition joined_part (mark sep : pystr) (l : list pystr) : list atom :=
  match l with
  | [] => []
  | _ => [AStr mark; AStr (str_join sep l)]
  end.

(** The digits of the revision of a written stage are within the limit. *)
Definition rev_within (st : option (option ascii * pystr * option (option ascii * pystr)))
  : bool :=
  match st with
  | Some (_, _, Some (_, ds)) => within_limit ds
  | _ => true
  end.

Definition opt_printable (o : option Z) : bool :=
  match o with
  | Some z => printable z
  | None => true
  end.

(** The distance in the metadata of a match, if there is one, has no more
    digits than [int] reads. *)
Definition distance_readable (mp : Matched.t) : bool :=
  let parts := str_split "." (_blank (Matched.tagged_metadata mp) []) in
  opt_within_limit (distance_digits parts (claims true true true parts)).

(** The decomposition in the words of the design: a part is taken for the
    distance when it is an optional ["d"] and then digits, for the commit
    when it is an optional ["g"] and then letters and digits, and the
    remainder is unset when it is empty. *)
Definition stated_distance_token (part : pystr) : option pystr :=
  let ds := without_leading "d" part in
  if numeric ds then Some ds else None.

Definition alphanumeric (s : pystr) : bool :=
  match s with
  | [] => false
  | _ => forallb is_alnum s
  end.

Definition stated_commit_token (part : pystr) : option pystr :=
  if alphanumeric (without_leading "g" part) then Some (without_leading "g" part)
  else if alphanumeric part then Some part
  else None.

Definition stated_decomposed :=
  decomposed_with stated_distance_token stated_commit_token empty.

(** The positions of the flags that are set, counted from [i]. *)
Fixpoint positions (i : nat) (flags : list bool) : list nat :=
  match flags with
  | [] => []
  | b :: flags' => if b then i :: positions (S i) flags' else positions (S i) flags'
  end.

(** [version], with a ["v"] in front if it has none. *)
Definition prefixed (version : pystr) : pystr :=
  if startswith (lit "v") version then version else lit "v" ++ version.

(** Everything before the first ["+"]. *)
Definition before_plus (version : pystr) : pystr :=
  take_while (fun c => negb (is_char "+" c)) version.

(** A ["0"] followed by one or more digits (and, as [$] allows, by a final
    line feed). *)
Definition leading_zero_number (seg : pystr) : Prop :=
  exists ds, numeric ds = true /\
             (seg = "0"%char :: ds \/ seg = "0"%char :: ds ++ ["010"%char]).

(** The leading-zero rule of [check_version] for SemVer. *)
Definition has_leading_zero (version : pystr) : Prop :=
  exists seg, In seg (split_by is_dot_dash None (before_plus version)) /\
              matches LEADING_ZERO seg = true.

(** [base_stops t]: after a base, [t] neither goes on with a digit nor
    with a ["."] and a digit. *)
Definition base_stops (t : pystr) : bool :=
  match t with
  | [] => true
  | c :: t' => (negb (is_digit c) && (negb (is_char "." c) || stops is_digit t'))%bool
  end.

(** The groups of a dotted string after the first, each with its dot. *)
Definition dotted_tail (groups : list pystr) : pystr :=
  concat (map (fun g => "."%char :: g) groups).

(** What [serialize_pep440] writes after the base, without epoch and
    metadata: a stage with its number, a post-release and a development
    number, each optional. *)
Definition pep440_dev (dev : option pystr) : pystr :=
  match dev with
  | Some ds => lit ".dev" ++ ds
  | None => []
  end.

Definition pep440_post (post dev : option pystr) : pystr :=
  match post with
  | Some ds => lit ".post" ++ ds ++ pep440_dev dev
  | None => pep440_dev dev
  end.

Definition pep440_tail (pre : option (pystr * pystr)) (post dev : option pystr) : pystr :=
  match pre with
  | Some (label, ds) => label ++ ds ++ pep440_post post dev
  | None => pep440_post post dev
  end.

Definition opt_numeric (o : option pystr) : bool :=
  match o with
  | Some ds => numeric ds
  | None => true
  end.

(** The stage labels of PEP 440. *)
Definition pep440_labels : list pystr := [lit "a"; lit "b"; lit "rc"].

(** The label [serialize_pep440] writes for a stage: the alias of its
    lower-case form, or that lower-case form itself. *)
Definition pep440_label (stage : pystr) : pystr :=
  let l := str_lower stage in
  if str_eqb l (lit "alpha") then lit "a"
  else if str_eqb l (lit "beta") then lit "b"
  else if (str_eqb l (lit "c") || str_eqb l (lit "pre") || str_eqb l (lit "preview"))%bool
       then lit "rc"
  else l.


Definition opt_nonneg (o : option Z) : bool :=
  match o with
  | Some z => 0 <=? z
  | None => true
  end.

(** The post-release and development numbers of [Version.serialize] for
    PEP 440, without bump and with a distance: [post] and [dev] start as the
    revision of a ["post"] or ["dev"] stage; with neither, the distance is
    the post-release and the development number is 0; otherwise the distance
    is added to the development number. *)
Definition stage_is (name : pystr) (stage : option pystr) : bool :=
  match stage with
  | Some st => str_eqb st name
  | None => false
  end.

Definition pep440_post_dev (stage : option pystr) (revision : option Z) (distance : Z)
  : option Z * option Z :=
  let post := if stage_is (lit "post") stage then revision else None in
  let dev := if stage_is (lit "dev") stage then revision else None in
  match post, dev with
  | None, None => (Some distance, Some 0)
  | _, _ => (post, Some (_blank dev 0 + distance))
  end.

(** The stage that is left for the pre-release segment. *)
Definition pep440_stage (stage : option pystr) : option pystr :=
  if (stage_is (lit "post") stage || stage_is (lit "dev") stage)%bool then None else stage.

(** ** Version strings of the shape [epoch! base sep stage sep revision] *)

Definition sep_text (sep : option ascii) : pystr :=
  match sep with
  | Some c => [c]
  | None => []
  end.

Definition rev_text (rev : option (option ascii * pystr)) : pystr :=
  match rev with
  | Some (sep, ds) => sep_text sep ++ ds
  | None => []
  end.

Definition stage_text (st : option (option ascii * pystr * option (option ascii * pystr)))
  : pystr :=
  match st with
  | Some (sep, letters, rev) => sep_text sep ++ letters ++ rev_text rev
  | None => []
  end.

Definition epoch_text (e : option pystr) : pystr :=
  match e with
  | Some ds => ds ++ ["!"%char]
  | None => []
  end.

Definition sep_ok (sep : option ascii) : bool :=
  match sep with
  | Some c => is_sep c
  | None => true
  end.

(** A run of ASCII letters, at least one. *)
Definition letters (s : pystr) : bool :=
  match s with
  | [] => false
  | _ => forallb is_alpha s
  end.

Definition rev_ok (rev : option (option ascii * pystr)) : bool :=
  match rev with
  | Some (sep, ds) => (sep_ok sep && numeric ds)%bool
  | None => true
  end.

Definition stage_ok (st : option (option ascii * pystr * option (option ascii * pystr)))
  : bool :=
  match st with
  | Some (sep, l, rev) => (sep_ok sep && letters l && rev_ok rev)%bool
  | None => true
  end.

(** The stage and revision such a string denotes. *)
Definition stage_value (st : option (option ascii * pystr * option (option ascii * pystr)))
  : option (pystr * option Z) :=
  match st with
  | Some (_, l, Some (_, ds)) => Some (l, Some (digits_value ds))
  | Some (_, l, None) => Some (l, None)
  | None => None
  end.

Definition opt_str (o : option Z) : option pystr := option_map str_of_int o.

Definition or_else {A} (a b : option A) : option A :=
  match a with
  | Some x => Some x
  | None => b
  end.

(** The slots after one more part, in terms of the claim made on it. *)
Definition after_claim (st : Version.slots) (i : nat) (c : claim) : Version.slots :=
  match c with
  | ClaimDirty b =>
      Version.Slots (Some b) (Version.s_distance st) (Version.s_commit st)
        (Version.s_pop st ++ [i])
  | ClaimDistance n =>
      Version.Slots (Version.s_dirty st) (Some n) (Version.s_commit st)
        (Version.s_pop st ++ [i])
  | ClaimCommit text =>
      Version.Slots (Version.s_dirty st) (Version.s_distance st) (Some text)
        (Version.s_pop st ++ [i])
  | Unclaimed => st
  end.

(** The groups the pattern captures in [v epoch! base stage revision]. *)
Definition found (e : option pystr) (base : pystr)
  (st : option (option ascii * pystr * option (option ascii * pystr))) (m : mstate) : Prop :=
  lookup_cap 2 (caps m) = e /\
  lookup_cap 3 (caps m) = Some base /\
  lookup_cap 7 (caps m) = match st with Some (_, l, _) => Some l | None => None end /\
  lookup_cap 8 (caps m) = match st with Some (_, _, Some (_, ds)) => Some ds | _ => None end /\
  lookup_cap 10 (caps m) = None.

(** The text [Version.serialize] writes for a version at distance 0, as an
    epoch and a stage part around the base: for PEP 440 the epoch and the
    normalized stage, a ["post"] or ["dev"] stage as [.postN] or [.devN];
    for SemVer [-stage.revision]; for PVP [-stage-revision]. *)
Definition shape (v : Version.t) (style : Style)
  : option pystr * option (option ascii * pystr * option (option ascii * pystr)) :=
  match style with
  | Pep440 =>
      (opt_str (Version.epoch v),
       match Version.stage v with
       | None => None
       | Some st =>
           if (str_eqb st (lit "post") || str_eqb st (lit "dev"))%bool then
             match Version.revision v with
             | Some r => Some (Some "."%char, st, Some (None, str_of_int r))
             | None => None
             end
           else
             Some (None, pep440_label st,
                   Some (None, str_of_int (_blank (Version.revision v) 0)))
       end)
  | SemVer =>
      (None,
       match Version.stage v with
       | None => None
       | Some st =>
           Some (Some "-"%char, st,
                 option_map (fun r => (Some "."%char, str_of_int r)) (Version.revision v))
       end)
  | Pvp =>
      (None,
       match Version.stage v with
       | None => None
       | Some st =>
           Some (Some "-"%char, st,
                 option_map (fun r => (Some "-"%char, str_of_int r)) (Version.revision v))
       end)
  end.

(** The post-release and development numbers in the words of the design:
    post = distance and dev = 0 when the stage is neither ["post"] nor
    ["dev"], and otherwise the distance added to the development number. *)
Definition stated_post_dev (stage : option pystr) (revision : option Z) (distance : Z)
  : option Z * option Z :=
  if (stage_is (lit "post") stage || stage_is (lit "dev") stage)%bool
  then (if stage_is (lit "post") stage then revision else None,
        Some (_blank (if stage_is (lit "dev") stage then revision else None) 0 + distance))
  else (Some distance, Some 0).

(** ** More of the module: [get_version] and [_GitRefInfo] *)

(** [get_version]. The callbacks [first_choice] and [third_choice] are
    given by what calling them yields, [ilm_version] is
    [importlib.metadata.version] with [None] for [PackageNotFoundError]. A
    [Version] object is always true. *)
Definition get_version (ilm_version : pystr -> option pystr) (name : pystr)
  (first_choice third_choice : option (result (option Version.t)))
  (fallback : Version.t) (ignore : option (list Version.t))
  (parser : pystr -> result Version.t) : result Version.t :=
  let ignore := _blank ignore [] in
  let ignored (v : Version.t) := existsb (Version._matches_partial v) ignore in
  first <-
    match first_choice with
    | Some call =>
        first_ver <- call ;;
        match first_ver with
        | Some v => if negb (ignored v) then Ok (Some v) else Ok None
        | None => Ok None
        end
    | None => Ok None
    end ;;
  match first with
  | Some v => Ok v
  | None =>
      second <-
        match ilm_version name with
        | Some text =>
            v <- parser text ;;
            if negb (ignored v) then Ok (Some v) else Ok None
        | None => Ok None
        end ;;
      match second with
      | Some v => Ok v
      | None =>
          third <-
            match third_choice with
            | Some call =>
                third_ver <- call ;;
                match third_ver with
                | Some v => if negb (ignored v) then Ok (Some v) else Ok None
                | None => Ok None
                end
            | None => Ok None
            end ;;
          match third with
          | Some v => Ok v
          | None => Ok fallback
          end
      end
  end.

(** [s.replace(old, new)] for a non-empty [old]: the occurrences of [old],
    leftmost first and without overlap, become [new]. *)
Fixpoint str_replace_from (old new : pystr) (fuel : nat) (s : pystr) : pystr :=
  match fuel with
  | O => s
  | S fuel' =>
      if startswith old s
      then new ++ str_replace_from old new fuel' (skipn (length old) s)
      else match s with
           | [] => []
           | c :: t => c :: str_replace_from old new fuel' t
           end
  end.

Definition str_replace (old new s : pystr) : pystr :=
  str_replace_from old new (S (length s)) s.

Module GitRefInfo.

(** [_GitRefInfo.normalize_tag_ref] *)
Definition normalize_tag_ref (ref : pystr) : pystr :=
  if startswith (lit "refs/tags/") ref then ref else lit "refs/tags/" ++ ref.

(** [_GitRefInfo.ref], from [fullref] *)
Definition ref (fullref : pystr) : pystr := str_replace (lit "refs/tags/") [] fullref.

(** [_GitRefInfo.best_date], from [taggerdate], [committerdate] and
    [creatordate] *)
Definition best_date (taggerdate committerdate creatordate : option datetime)
  : option datetime :=
  match taggerdate with
  | Some d => Some d
  | None =>
      match committerdate with
      | Some d => Some d
      | None => creatordate
      end
  end.

End GitRefInfo.

(** [old] occurs in [s]. *)
Fixpoint occurs (old s : pystr) : bool :=
  (startswith old s ||
   match s with
   | [] => false
   | _ :: t => occurs old t
   end)%bool.

(** A copy of [v] at another distance. *)
Definition at_distance (v : Version.t) (d : Z) : Version.t :=
  Version.Make (Version.base v) (Version.stage v) (Version.revision v) d
    (Version.commit v) (Version.dirty v) (Version.tagged_metadata v)
    (Version.epoch v) (Version.branch v) (Version.timestamp v).

(** Two versions with the same base, stage, revision, distance and epoch. *)
Definition same_release (x y : Version.t) : Prop :=
  Version.base x = Version.base y /\
  Version.stage x = Version.stage y /\
  Version.revision x = Version.revision y /\
  Version.distance x = Version.distance y /\
  Version.epoch x = Version.epoch y.

(** The text the group [name] takes in the match [re.search] finds for
    [pattern] in [source], if there is a match and the group took part. *)
Definition group_of (pattern : regex) (name : string) (source : pystr) : option pystr :=
  match re_search pattern source with
  | Some m => groupdict_get pattern m name
  | None => None
  end.

Definition base_of (pattern : regex) (source : pystr) : option pystr :=
  group_of pattern "base" source.

(** The sources among [l] the pattern does not match. *)
Definition unmatched (pattern : regex) (l : list pystr) : list pystr :=
  filter (fun s => negb (matches pattern s)) l.

(** The tokens of a PVP tag, each with its dash. *)
Definition dashed_tail (tokens : list pystr) : pystr :=
  concat (map (fun t => "-"%char :: t) tokens).

(** A segment of two characters or more that starts with ["0"]. *)
Definition leading_zero (seg : pystr) : bool :=
  match seg with
  | c :: _ :: _ => is_char "0" c
  | _ => false
  end.

(** The matches of a pattern as a relation: [run r s s'] is one way for
    [r] to take the match state [s] to [s']. *)
Inductive run : regex -> mstate -> mstate -> Prop :=
| run_eps s : run Eps s s
| run_chr f p x t c :
    f x = true -> run (Chr f) (MState p (x :: t) c) (MState (S p) t c)
| run_seq a b s s' s'' : run a s s' -> run b s' s'' -> run (Seq a b) s s''
| run_alt_l a b s s' : run a s s' -> run (Alt a b) s s'
| run_alt_r a b s s' : run b s s' -> run (Alt a b) s s'
| run_star_stop a s : run (Star a) s s
| run_star_more a s s' s'' : run a s s' -> run (Star a) s' s'' -> run (Star a) s s''
| run_plus a s s' s'' : run a s s' -> run (Star a) s' s'' -> run (Plus a) s s''
| run_opt_some a s s' : run a s s' -> run (Opt a) s s'
| run_opt_none a s : run (Opt a) s s
| run_group i nm a s s' :
    run a s s' ->
    run (Group i nm a) s (set_cap i (firstn (pos s' - pos s) (rest s)) s')
| run_bol s : pos s = 0%nat -> run Bol s s
| run_eol s :
    rest s = [] \/ (exists c, rest s = [c] /\ N.eqb (code c) 10 = true) ->
    run Eol s s.

(** Every text a group [i] of [r] can capture satisfies [P i]. *)
Fixpoint captures (P : nat -> pystr -> Prop) (r : regex) : Prop :=
  match r with
  | Seq a b | Alt a b => captures P a /\ captures P b
  | Star a | Plus a | Opt a => captures P a
  | Group i _ a =>
      captures P a /\
      forall s s', run a s s' -> P i (firstn (pos s' - pos s) (rest s))
  | _ => True
  end.

(** What the groups of [VERSION_SOURCE_PATTERN] hold: digits in [epoch]
    (2) and [revision] (8), dot-separated numbers in [base] (3), letters in
    [stage] (7). *)
Definition default_groups (i : nat) (text : pystr) : Prop :=
  match i with
  | 2%nat | 8%nat => numeric text = true
  | 3%nat => dotted_numeric text = true
  | 7%nat => letters text = true
  | _ => True
  end.

(** The fields of a result of [_match_version_pattern] with the default
    pattern. *)
Definition default_fields (mp : Matched.t) : Prop :=
  dotted_numeric (Matched.base mp) = true /\
  match Matched.stage_revision mp with
  | Some (stage, revision) => letters stage = true /\ opt_nonneg revision = true
  | None => True
  end /\
  opt_nonneg (Matched.epoch mp) = true.

(** What [_match_version_pattern] raises when nothing matched. *)
Definition no_match (sources : list pystr) (latest_source : bool) : exn :=
  if latest_source then
    match sources with
    | [] => IndexError
    | first :: _ => ValueError (NoMatchLatest first)
    end
  else ValueError NoMatchAny.

(** * Properties *)

(** ** Order on versions *)

Lemma str_ltb_irrefl (s : pystr) : str_ltb s s = false.
Proof.
  induction s as [|c s IH]; simpl; [reflexivity|].
  rewrite N.ltb_irrefl. exact IH.
Qed.

Lemma year_zero_rejected :
  dt_datetime 0 0 0 0 0 0 = Raise (ValueError (OutOfRange "year")).
Proof. reflexivity. Qed.

Section OrderingFacts.

Context {pv_version : Type}.
Variable pv_Version : pystr -> result pv_version.
Variable pv_ltb : pv_version -> pv_version -> bool.

Let lt := Version.__lt__ pv_version pv_Version pv_ltb.

Lemma lt_unfold (x y : Version.t) :
  lt x y =
  match before_timestamp pv_Version pv_ltb x y with
  | Ok true => Raise (ValueError (OutOfRange "year"))
  | Ok false => Ok false
  | Raise e => Raise e
  end.
Proof.
  unfold lt, Version.__lt__, before_timestamp, Version.and_then.
  destruct (pv_Version (Version.base x)) as [a|e]; simpl; [|reflexivity].
  destruct (pv_Version (Version.base y)) as [b|e]; simpl; [|reflexivity].
  destruct (pv_ltb a b); simpl; [|reflexivity].
  repeat match goal with
         | |- context [if ?c then _ else Ok false] =>
             destruct c; simpl; [|reflexivity]
         end.
  reflexivity.
Qed.

End OrderingFacts.

(** C9. For every pair of versions, [x < y] never returns [True]: when the
    nine comparisons before the one on [timestamp] all hold, building the
    default [dt.datetime(0, 0, 0, 0, 0, 0)] raises [ValueError] (year 0 is out
    of range); when one of them is false the conjunction stops there and the
    result is [False]; and an exception of [packaging.version] on a base goes
    through. *)
Theorem C9_lt_never_true :
  forall (pv_version : Type) (pv_Version : pystr -> result pv_version)
         (pv_ltb : pv_version -> pv_version -> bool) (x y : Version.t),
    Version.__lt__ pv_version pv_Version pv_ltb x y <> Ok true /\
    dt_datetime 0 0 0 0 0 0 = Raise (ValueError (OutOfRange "year")) /\
    Version.__lt__ pv_version pv_Version pv_ltb x y =
      match before_timestamp pv_Version pv_ltb x y with
      | Ok true => Raise (ValueError (OutOfRange "year"))
      | Ok false => Ok false
      | Raise e => Raise e
      end.
Proof.
  intros pvv pvV pvlt x y.
  pose proof (lt_unfold pvV pvlt x y) as H.
  split; [|split; [reflexivity | exact H]].
  rewrite H.
  destruct (before_timestamp pvV pvlt x y) as [[|]|e]; discriminate.
Qed.

(** C8. The comparator asks every field to be strictly less: two versions
    that agree on every field but [base], the first with the smaller base,
    do not compare as less-than: [x < y] is [False]. *)
Theorem C8_smaller_base_not_less :
  forall (pv_version : Type) (pv_Version : pystr -> result pv_version)
         (pv_ltb : pv_version -> pv_version -> bool) (x y : Version.t)
         (a b : pv_version),
    same_but_base x y ->
    pv_Version (Version.base x) = Ok a ->
    pv_Version (Version.base y) = Ok b ->
    pv_ltb a b = true ->
    Version.__lt__ pv_version pv_Version pv_ltb x y = Ok false.
Proof.
  intros pvv pvV pvlt x y a b Hsame Ha Hb Hlt.
  destruct Hsame as (Hst & _).
  unfold Version.__lt__, Version.and_then.
  rewrite Ha, Hb. simpl. rewrite Hlt. simpl.
  rewrite Hst, str_ltb_irrefl. reflexivity.
Qed.

Lemma C8_smaller_base_not_less_witness :
  let x := Version.init (lit "1.0.0") (Some (lit "rc", Some 1)) 2 (Some (lit "abc"))
             (Some true) None None None None in
  let y := Version.init (lit "1.0.1") (Some (lit "rc", Some 1)) 2 (Some (lit "abc"))
             (Some true) None None None None in
  Version.__lt__ (list Z) release_Version lex_ltb x y = Ok false.
Proof.
  intros x y.
  apply (C8_smaller_base_not_less (list Z) release_Version lex_ltb x y [1; 0; 0] [1; 0; 1]).
  - repeat split.
  - reflexivity.
  - reflexivity.
  - reflexivity.
Defined.

(** ** The pattern matcher and a pattern without a [base] group *)

Lemma match_loop_without_base (pattern : regex) :
  groupindex pattern "base" = None ->
  forall sources pm newer last,
    existsb (matches pattern) sources = true ->
    match_loop pattern sources pm newer last = Raise (ValueError MissingBaseGroup).
Proof.
  intros Hg sources.
  induction sources as [|s sources IH]; intros pm newer last Hex; simpl in *.
  - discriminate.
  - unfold matches in Hex. destruct (re_search pattern s) as [m|] eqn:Hs; simpl in Hex.
    + unfold group_name. rewrite Hg. reflexivity.
    + apply IH. exact Hex.
Qed.

Lemma match_loop_no_match (pattern : regex) :
  forall sources pm newer last,
    existsb (matches pattern) sources = false ->
    exists st, match_loop pattern sources pm newer last = Ok st /\ l_base st = None.
Proof.
  induction sources as [|s sources IH]; intros pm newer last Hex; simpl in *.
  - eexists. split; reflexivity.
  - unfold matches in Hex. destruct (re_search pattern s) as [m|] eqn:Hs; simpl in Hex.
    + discriminate.
    + apply IH. exact Hex.
Qed.

(** C5, as the code has it. A pattern without a [base] group never gives a
    result, and fails with the missing-group error (ConfigurationError) as
    soon as one of the candidates it looks at matches the pattern. When none
    of them matches, the failure is the one of a pattern that matches no tag
    (PatternError), or an [IndexError] for an empty candidate list with
    [latest_source]. *)
Theorem C5_pattern_without_base :
  forall (pattern : regex) (sources : list pystr) (latest_source : bool),
    groupindex pattern "base" = None ->
    _match_version_pattern pattern sources latest_source =
      if existsb (matches pattern) (tested sources latest_source)
      then Raise (ValueError MissingBaseGroup)
      else if latest_source then
             match sources with
             | [] => Raise IndexError
             | first :: _ => Raise (ValueError (NoMatchLatest first))
             end
           else Raise (ValueError NoMatchAny).
Proof.
  intros pattern sources latest Hg.
  unfold _match_version_pattern. fold (tested sources latest).
  destruct (existsb (matches pattern) (tested sources latest)) eqn:Hex.
  - rewrite (match_loop_without_base pattern Hg _ _ _ _ Hex). reflexivity.
  - destruct (match_loop_no_match pattern _ None [] None Hex) as (st & Hst & Hb).
    rewrite Hst. simpl. rewrite Hb.
    assert (Hfall : forall (A : Type) (x : result A),
               match l_match st, @None pystr, l_source st with
               | Some _, Some _, Some _ => Raise IndexError
               | _, _, _ => x
               end = x).
    { intros A x. destruct (l_match st); reflexivity. }
    destruct (l_match st); destruct latest; try reflexivity;
      destruct sources; reflexivity.
Qed.

Lemma C5_pattern_without_base_witness :
  _match_version_pattern digits [lit "v1"; lit "abc"] false
    = Raise (ValueError MissingBaseGroup) /\
  _match_version_pattern digits [lit "abc"] true
    = Raise (ValueError (NoMatchLatest (lit "abc"))).
Proof.
  split.
  - exact (C5_pattern_without_base digits [lit "v1"; lit "abc"] false eq_refl).
  - exact (C5_pattern_without_base digits [lit "abc"] true eq_refl).
Defined.

(** C5, as stated, fails: with candidates none of which matches, a pattern
    without a [base] group does not fail with the missing-group error. *)
Lemma C5_counterexample :
  ~ (forall (pattern : regex) (sources : list pystr) (latest_source : bool),
        groupindex pattern "base" = None ->
        exists e, _match_version_pattern pattern sources latest_source = Raise e /\
                  classify e = ConfigurationError).
Proof.
  intros H.
  destruct (H digits [lit "abc"] false eq_refl) as (e & He & Hc).
  vm_compute in He. inversion He; subst e. discriminate Hc.
Qed.

(** ** Characters *)

Ltac by_cases_on_char c :=
  destruct c as [[] [] [] [] [] [] [] []]; vm_compute; try reflexivity; try discriminate;
  intuition discriminate.

Lemma digit_not_dot c : is_digit c = true -> is_char "." c = false.
Proof. by_cases_on_char c. Qed.

Lemma digit_not_int_space c : is_digit c = true -> is_int_space c = false.
Proof. by_cases_on_char c. Qed.

Lemma digit_not_sign c :
  is_digit c = true -> Ascii.eqb c "+" = false /\ Ascii.eqb c "-" = false.
Proof. by_cases_on_char c. Qed.

Lemma digit_val_range c : is_digit c = true -> 0 <= digit_val c <= 9.
Proof.
  destruct c as [[] [] [] [] [] [] [] []]; vm_compute; try discriminate;
    intros _; split; discriminate.
Qed.

(** ** Splitting and joining *)

Lemma split_by_not_nil f n s : split_by f n s <> [].
Proof.
  destruct s as [|c t]; simpl; [discriminate|].
  destruct (f c); destruct n as [[|n]|]; try discriminate;
    destruct (split_by f _ t); discriminate.
Qed.

Lemma split_by_app f (seg t : pystr) :
  forallb (fun c => negb (f c)) seg = true ->
  split_by f None (seg ++ t) =
    match split_by f None t with
    | h :: r => (seg ++ h) :: r
    | [] => [seg]
    end.
Proof.
  induction seg as [|c seg IH]; simpl; intros H.
  - destruct (split_by f None t) eqn:E; [|reflexivity].
    exfalso. exact (split_by_not_nil _ _ _ E).
  - apply andb_prop in H. destruct H as [Hc Hs].
    apply negb_true_iff in Hc. rewrite Hc, (IH Hs).
    destruct (split_by f None t); reflexivity.
Qed.

Lemma split_by_no_sep f (seg : pystr) :
  forallb (fun c => negb (f c)) seg = true -> split_by f None seg = [seg].
Proof.
  intros H. rewrite <- (app_nil_r seg) at 1. rewrite (split_by_app f seg [] H).
  simpl. rewrite app_nil_r. reflexivity.
Qed.

Lemma split_join (sep : ascii) (segs : list pystr) :
  segs <> [] ->
  forallb (fun seg => forallb (fun c => negb (is_char sep c)) seg) segs = true ->
  str_split sep (str_join [sep] segs) = segs.
Proof.
  unfold str_split.
  induction segs as [|seg segs IH]; intros Hne H; [congruence|].
  simpl in H. apply andb_prop in H. destruct H as [Hseg Hrest].
  destruct segs as [|seg' segs'].
  - simpl. apply split_by_no_sep. exact Hseg.
  - change (str_join [sep] (seg :: seg' :: segs'))
      with (seg ++ sep :: str_join [sep] (seg' :: segs')).
    rewrite (split_by_app _ seg _ Hseg).
    change (split_by (is_char sep) None (sep :: str_join [sep] (seg' :: segs')))
      with (if is_char sep sep
            then [] :: split_by (is_char sep) None (str_join [sep] (seg' :: segs'))
            else match split_by (is_char sep) None (str_join [sep] (seg' :: segs')) with
                 | h :: r => (sep :: h) :: r
                 | [] => [[sep]]
                 end).
    unfold is_char at 1. rewrite Ascii.eqb_refl.
    rewrite IH by (try discriminate; exact Hrest).
    rewrite app_nil_r. reflexivity.
Qed.

Lemma join_split (sep : ascii) (s : pystr) :
  str_join [sep] (str_split sep s) = s.
Proof.
  unfold str_split.
  induction s as [|c t IH]; [reflexivity|].
  simpl. unfold is_char at 1.
  destruct (Ascii.eqb c sep) eqn:E.
  - apply Ascii.eqb_eq in E. subst c.
    destruct (split_by (is_char sep) None t) as [|h r] eqn:Hs.
    + exfalso. exact (split_by_not_nil _ _ _ Hs).
    + simpl. simpl in IH. rewrite IH. reflexivity.
  - destruct (split_by (is_char sep) None t) as [|h r] eqn:Hs.
    + exfalso. exact (split_by_not_nil _ _ _ Hs).
    + destruct r as [|h' r']; simpl in *; rewrite <- IH; reflexivity.
Qed.

Lemma numeric_digits seg : numeric seg = true -> seg <> [] /\ forallb is_digit seg = true.
Proof.
  destruct seg as [|c t]; simpl; [discriminate|]. intros H. split; [discriminate|exact H].
Qed.

Lemma numeric_no_dot segs :
  forallb numeric segs = true ->
  forallb (fun seg => forallb (fun c => negb (is_char "." c)) seg) segs = true.
Proof.
  intros H. apply forallb_forall. intros seg Hin.
  rewrite forallb_forall in H. specialize (H seg Hin).
  apply numeric_digits in H. destruct H as [_ H].
  apply forallb_forall. intros c Hc. rewrite forallb_forall in H.
  rewrite (digit_not_dot c (H c Hc)). reflexivity.
Qed.

(** ** [int] on runs of digits *)

Lemma lstrip_head f c t : f c = false -> lstrip f (c :: t) = c :: t.
Proof. intros H. simpl. rewrite H. reflexivity. Qed.

Lemma strip_digits (s : pystr) :
  numeric s = true -> rstrip is_int_space (lstrip is_int_space s) = s.
Proof.
  intros H. apply numeric_digits in H. destruct H as [Hne Hd].
  destruct s as [|c t]; [congruence|].
  assert (Hc : is_digit c = true) by (simpl in Hd; apply andb_prop in Hd; tauto).
  rewrite (lstrip_head _ _ _ (digit_not_int_space c Hc)).
  unfold rstrip.
  assert (Hr : forallb is_digit (rev (c :: t)) = true).
  { apply forallb_forall. intros x Hx. apply in_rev in Hx.
    rewrite forallb_forall in Hd. auto. }
  destruct (rev (c :: t)) as [|x r] eqn:E.
  - apply (f_equal (@rev ascii)) in E. rewrite rev_involutive in E. discriminate.
  - simpl in Hr. apply andb_prop in Hr. destruct Hr as [Hx _].
    rewrite (lstrip_head _ _ _ (digit_not_int_space x Hx)).
    rewrite <- E. apply rev_involutive.
Qed.

Lemma int_digits_run (s : pystr) :
  forallb is_digit s = true ->
  forall acc seen,
    int_digits acc seen s =
      match s with
      | [] => if seen then Some acc else None
      | _ => Some (fold_left (fun a c => 10 * a + digit_val c) s acc)
      end.
Proof.
  induction s as [|c t IH]; intros H acc seen; [reflexivity|].
  simpl in H. apply andb_prop in H. destruct H as [Hc Ht].
  simpl. rewrite Hc. rewrite (IH Ht). destruct t; reflexivity.
Qed.

Lemma int_literal_numeric (s : pystr) :
  numeric s = true -> int_literal s = Some (digits_value s).
Proof.
  intros H. unfold int_literal. rewrite (strip_digits s H).
  apply numeric_digits in H. destruct H as [Hne Hd].
  destruct s as [|c t]; [congruence|].
  assert (Hc : is_digit c = true) by (simpl in Hd; apply andb_prop in Hd; tauto).
  destruct (digit_not_sign c Hc) as [Hp Hm]. rewrite Hp, Hm.
  rewrite (int_digits_run _ Hd). reflexivity.
Qed.

Lemma take_while_id f (s : pystr) : forallb f s = true -> take_while f s = s.
Proof.
  induction s as [|c t IH]; simpl; [reflexivity|].
  intros H. apply andb_prop in H. destruct H as [Hc Ht]. rewrite Hc, (IH Ht). reflexivity.
Qed.

Lemma filter_id {A} (f : A -> bool) (l : list A) : forallb f l = true -> filter f l = l.
Proof.
  induction l as [|x l IH]; simpl; [reflexivity|].
  intros H. apply andb_prop in H. destruct H as [Hx Hl]. rewrite Hx, (IH Hl). reflexivity.
Qed.

Lemma int_run_numeric (s : pystr) : numeric s = true -> int_run s = s.
Proof.
  intros H. unfold int_run, int_body. rewrite (strip_digits s H).
  apply numeric_digits in H. destruct H as [Hne Hd].
  destruct s as [|c t]; [congruence|].
  assert (Hc : is_digit c = true) by (simpl in Hd; apply andb_prop in Hd; tauto).
  destruct (digit_not_sign c Hc) as [Hp Hm]. rewrite Hp, Hm. cbn [orb].
  apply take_while_id. apply forallb_forall. intros x Hx.
  rewrite forallb_forall in Hd. unfold is_digit_or_underscore.
  rewrite (Hd x Hx). reflexivity.
Qed.

(** [int] on a run of digits: its number, unless the run is longer than
    the limit. *)
Lemma py_int_digits (s : pystr) :
  numeric s = true ->
  py_int s = if within_limit s then Ok (digits_value s)
             else Raise (ValueError ExceedsLimit).
Proof.
  intros H. unfold py_int. rewrite (int_run_numeric s H), (int_literal_numeric s H).
  pose proof H as H'. apply numeric_digits in H'. destruct H' as [Hne Hd].
  rewrite (int_digits_run s Hd), (filter_id is_digit s Hd).
  destruct s as [|c t]; [congruence|].
  unfold within_limit.
  destruct (Nat.leb_spec (length (c :: t)) int_max_str_digits) as [Hle|Hgt].
  - apply Nat.ltb_ge in Hle. rewrite Hle. reflexivity.
  - apply Nat.ltb_lt in Hgt. rewrite Hgt. reflexivity.
Qed.

Lemma py_int_numeric (s : pystr) :
  numeric s = true -> within_limit s = true -> py_int s = Ok (digits_value s).
Proof. intros H Hl. rewrite (py_int_digits s H), Hl. reflexivity. Qed.

Lemma py_int_too_long (s : pystr) :
  numeric s = true -> within_limit s = false -> py_int s = Raise (ValueError ExceedsLimit).
Proof. intros H Hl. rewrite (py_int_digits s H), Hl. reflexivity. Qed.

(** [int] fails with a [ValueError] only. *)
Lemma py_int_raises (s : pystr) (e : exn) :
  py_int s = Raise e -> exists m, e = ValueError m.
Proof.
  unfold py_int. destruct (int_digits 0 false (int_run s)).
  - destruct (Nat.ltb _ _); [intros H; inversion H; eauto|].
    destruct (int_literal s); intros H; inversion H; eauto.
  - intros H; inversion H; eauto.
Qed.

Lemma py_int_rejected (s : pystr) :
  int_literal s = None -> exists m, py_int s = Raise (ValueError m).
Proof.
  intros H. unfold py_int. rewrite H.
  destruct (int_digits 0 false (int_run s)); [destruct (Nat.ltb _ _)|]; eauto.
Qed.

Lemma map_py_int_numeric (segs : list pystr) :
  forallb numeric segs = true ->
  forallb within_limit segs = true ->
  map_result py_int segs = Ok (map digits_value segs).
Proof.
  induction segs as [|seg segs IH]; simpl; intros H Hl; [reflexivity|].
  apply andb_prop in H. destruct H as [Hs Hr].
  apply andb_prop in Hl. destruct Hl as [Hls Hlr].
  rewrite (py_int_numeric seg Hs Hls). simpl. rewrite (IH Hr Hlr). reflexivity.
Qed.

Lemma map_result_raises {A B} (f : A -> result B) (P : exn -> Prop) (l : list A) :
  (forall x e, f x = Raise e -> P e) ->
  (exists x, In x l /\ exists e, f x = Raise e) ->
  exists e, map_result f l = Raise e /\ P e.
Proof.
  intros Hf. induction l as [|x l IH]; intros (y & Hin & e & He); [destruct Hin|].
  simpl. destruct (f x) as [b|e'] eqn:Ex.
  - destruct Hin as [->|Hin]; [congruence|].
    destruct IH as (e1 & Hr & Hp); [eauto|].
    exists e1. simpl. rewrite Hr. auto.
  - exists e'. simpl. split; [reflexivity | exact (Hf x e' Ex)].
Qed.

(** A segment [int] does not read makes the conversion of the segments
    raise a [ValueError]. *)
Lemma map_py_int_failure (segs : list pystr) :
  (exists seg, In seg segs /\ exists e, py_int seg = Raise e) ->
  exists m, map_result py_int segs = Raise (ValueError m).
Proof.
  intros H.
  destruct (map_result_raises py_int (fun e => exists m, e = ValueError m) segs
              py_int_raises H) as (e & Hr & m & ->).
  exists m. exact Hr.
Qed.

(** ** [str] of a number, and [int] back *)

Lemma digit_char_code (d : N) : (d < 10)%N -> code (digit_char d) = (48 + d)%N.
Proof.
  intros H. unfold code, digit_char. apply N_ascii_embedding. lia.
Qed.

Lemma digit_char_is_digit (d : N) : (d < 10)%N -> is_digit (digit_char d) = true.
Proof.
  intros H. unfold is_digit, in_range. rewrite (digit_char_code d H).
  apply andb_true_intro. split; apply N.leb_le; lia.
Qed.

Lemma digit_char_val (d : N) : (d < 10)%N -> digit_val (digit_char d) = Z.of_N d.
Proof.
  intros H. unfold digit_val. rewrite (digit_char_code d H). lia.
Qed.

Lemma N_digits_S (fuel : nat) (n : N) (acc : pystr) :
  N_digits (S fuel) n acc =
    if N.ltb n 10 then digit_char (n mod 10) :: acc
    else N_digits fuel (n / 10) (digit_char (n mod 10) :: acc).
Proof. reflexivity. Qed.

Lemma N_digits_spec (fuel : nat) :
  forall (n : N) (acc : pystr),
    (n < 2 ^ N.of_nat (S fuel))%N ->
    exists l, N_digits (S fuel) n acc = l ++ acc /\ numeric l = true /\
              forall z, fold_left (fun a c => 10 * a + digit_val c) l z
                        = z * 10 ^ Z.of_nat (length l) + Z.of_N n.
Proof.
  induction fuel as [|fuel IH]; intros n acc Hn;
    assert (Hmod : (n mod 10 < 10)%N) by (apply N.mod_lt; lia);
    rewrite N_digits_S; destruct (N.ltb_spec n 10) as [Hlt|Hge].
  - exists [digit_char (n mod 10)]. split; [reflexivity|].
    split; [simpl; rewrite digit_char_is_digit by exact Hmod; reflexivity|].
    intros z. cbn [fold_left length]. rewrite digit_char_val by exact Hmod.
    rewrite N.mod_small by exact Hlt.
    change (Z.of_nat 1) with 1. rewrite Z.pow_1_r. lia.
  - change (N.of_nat 1) with 1%N in Hn. rewrite N.pow_1_r in Hn. lia.
  - exists [digit_char (n mod 10)]. split; [reflexivity|].
    split; [simpl; rewrite digit_char_is_digit by exact Hmod; reflexivity|].
    intros z. cbn [fold_left length]. rewrite digit_char_val by exact Hmod.
    rewrite N.mod_small by exact Hlt.
    change (Z.of_nat 1) with 1. rewrite Z.pow_1_r. lia.
  - destruct (IH (n / 10)%N (digit_char (n mod 10) :: acc)) as (l & Hl & Hnum & Hval).
    { apply N.Div0.div_lt_upper_bound.
      rewrite (Nat2N.inj_succ (S fuel)), N.pow_succ_r' in Hn.
      assert (0 < 2 ^ N.of_nat (S fuel))%N by (apply N.neq_0_lt_0, N.pow_nonzero; lia).
      lia. }
    exists (l ++ [digit_char (n mod 10)]).
    rewrite Hl, <- app_assoc.
    split; [reflexivity|].
    split.
    + apply numeric_digits in Hnum. destruct Hnum as [Hne Hd].
      destruct l as [|x l]; [congruence|]. simpl. simpl in Hd.
      apply andb_prop in Hd. destruct Hd as [Hx Hd]. rewrite Hx. simpl.
      rewrite forallb_app, Hd. simpl.
      rewrite digit_char_is_digit by exact Hmod. reflexivity.
    + intros z. rewrite fold_left_app, Hval. cbn [fold_left].
      rewrite digit_char_val by exact Hmod.
      rewrite length_app. simpl length.
      rewrite Nat2Z.inj_add. change (Z.of_nat 1) with 1.
      rewrite Z.pow_add_r by lia.
      pose proof (N.div_mod n 10 ltac:(lia)) as Hdm.
      assert (Hz : Z.of_N n = 10 * Z.of_N (n / 10) + Z.of_N (n mod 10)) by lia.
      rewrite Hz, Z.pow_1_r. ring.
Qed.

Lemma str_of_N_spec (n : N) :
  numeric (str_of_N n) = true /\ digits_value (str_of_N n) = Z.of_N n.
Proof.
  unfold str_of_N.
  destruct (N_digits_spec (N.to_nat (N.log2 n)) n []) as (l & Hl & Hnum & Hval).
  - rewrite Nat2N.inj_succ, N2Nat.id.
    destruct (N.eq_dec n 0) as [->|Hn]; [reflexivity|].
    apply N.log2_spec. lia.
  - rewrite Hl, app_nil_r. split; [exact Hnum|].
    unfold digits_value. rewrite Hval. lia.
Qed.

Lemma str_of_int_numeric (z : Z) : 0 <= z -> numeric (str_of_int z) = true.
Proof.
  intros H. unfold str_of_int. destruct (Z.ltb_spec z 0); [lia|].
  apply str_of_N_spec.
Qed.

Lemma digits_of_printed (z : Z) : 0 <= z -> digits_value (str_of_int z) = z.
Proof.
  intros H. unfold str_of_int. destruct (Z.ltb_spec z 0); [lia|].
  destruct (str_of_N_spec (Z.to_N z)) as [_ ->]. lia.
Qed.

Lemma printable_length (z : Z) :
  0 <= z -> within_limit (str_of_int z) = printable z.
Proof.
  intros H. unfold within_limit, printable, str_of_int.
  destruct (Z.ltb_spec z 0); [lia|].
  replace (Z.abs_N z) with (Z.to_N z) by lia. reflexivity.
Qed.

(** [int] reads back what [str] wrote. *)
Lemma int_of_str (z : Z) : 0 <= z -> printable z = true -> py_int (str_of_int z) = Ok z.
Proof.
  intros H Hp. rewrite py_int_numeric.
  - rewrite (digits_of_printed z H). reflexivity.
  - apply str_of_int_numeric; exact H.
  - rewrite (printable_length z H). exact Hp.
Qed.

Lemma fold_digits_bound (s : pystr) :
  forallb is_digit s = true ->
  forall acc, 0 <= acc ->
    acc * 10 ^ Z.of_nat (length s) <= fold_left (fun a c => 10 * a + digit_val c) s acc
    /\ fold_left (fun a c => 10 * a + digit_val c) s acc
        < (acc + 1) * 10 ^ Z.of_nat (length s).
Proof.
  induction s as [|c t IH]; intros H acc Hacc.
  - cbn [fold_left length]. change (Z.of_nat 0) with 0. rewrite Z.pow_0_r. lia.
  - simpl in H. apply andb_prop in H. destruct H as [Hc Ht].
    pose proof (digit_val_range c Hc) as Hr.
    cbn [fold_left length]. rewrite Nat2Z.inj_succ, Z.pow_succ_r by lia.
    destruct (IH Ht (10 * acc + digit_val c) ltac:(lia)) as [Hlo Hhi].
    assert (Hpos : 0 < 10 ^ Z.of_nat (length t)) by (apply Z.pow_pos_nonneg; lia).
    split; nia.
Qed.

Lemma digits_value_bound (s : pystr) :
  forallb is_digit s = true ->
  0 <= digits_value s < 10 ^ Z.of_nat (length s).
Proof.
  intros H. unfold digits_value.
  destruct (fold_digits_bound s H 0 ltac:(lia)) as [Hlo Hhi]. lia.
Qed.

Lemma N_digits_length (fuel : nat) :
  forall (n : N) (acc : pystr) (k : nat),
    (1 <= k)%nat -> (n < 10 ^ N.of_nat k)%N ->
    (length (N_digits (S fuel) n acc) <= k + length acc)%nat.
Proof.
  induction fuel as [|fuel IH]; intros n acc k Hk Hn; rewrite N_digits_S;
    destruct (N.ltb_spec n 10) as [Hlt|Hge]; try (cbn [length]; lia).
  { cbn [N_digits length]. lia. }
  destruct k as [|[|k]]; [lia | |].
  - change (N.of_nat 1) with 1%N in Hn. rewrite N.pow_1_r in Hn. lia.
  - pose proof (IH (n / 10)%N (digit_char (n mod 10) :: acc) (S k)) as H.
    cbn [length] in H. 
    assert (Hdiv : (n / 10 < 10 ^ N.of_nat (S k))%N).
    { apply N.Div0.div_lt_upper_bound.
      rewrite (Nat2N.inj_succ (S k)), N.pow_succ_r' in Hn. exact Hn. }
    specialize (H ltac:(lia) Hdiv). lia.
Qed.

Lemma str_of_N_length (n : N) (k : nat) :
  (1 <= k)%nat -> (n < 10 ^ N.of_nat k)%N -> (length (str_of_N n) <= k)%nat.
Proof.
  intros Hk Hn. unfold str_of_N.
  pose proof (N_digits_length (N.to_nat (N.log2 n)) n [] k Hk Hn) as H.
  cbn [length] in H. lia.
Qed.

Lemma printable_below (z : Z) (k : nat) :
  (1 <= k)%nat -> (k <= int_max_str_digits)%nat ->
  0 <= z < 10 ^ Z.of_nat k -> printable z = true.
Proof.
  intros Hk Hlim Hz. unfold printable. apply Nat.leb_le.
  assert (Hn : (Z.abs_N z < 10 ^ N.of_nat k)%N).
  { assert (E : Z.of_N (10 ^ N.of_nat k) = 10 ^ Z.of_nat k).
    { rewrite N2Z.inj_pow. f_equal. lia. }
    lia. }
  pose proof (str_of_N_length _ k Hk Hn). lia.
Qed.

(** The number of a run of digits within the limit can be written. *)
Lemma printable_digits (seg : pystr) :
  numeric seg = true -> within_limit seg = true -> printable (digits_value seg) = true.
Proof.
  intros Hn Hl. apply numeric_digits in Hn. destruct Hn as [Hne Hd].
  apply (printable_below _ (length seg)).
  - destruct seg; [congruence | simpl; lia].
  - apply Nat.leb_le. exact Hl.
  - apply digits_value_bound. exact Hd.
Qed.

Lemma printable_zero : printable 0 = true.
Proof. reflexivity. Qed.

Lemma py_str_int_printable (z : Z) : printable z = true -> py_str_int z = Ok (str_of_int z).
Proof. intros H. unfold py_str_int. rewrite H. reflexivity. Qed.

Lemma py_str_int_ok (z : Z) (s : pystr) :
  py_str_int z = Ok s -> printable z = true /\ s = str_of_int z.
Proof.
  unfold py_str_int. destruct (printable z); intros H; inversion H. auto.
Qed.

Lemma py_str_int_raises (z : Z) (e : exn) :
  py_str_int z = Raise e -> e = ValueError ExceedsLimit.
Proof.
  unfold py_str_int. destruct (printable z); intros H; inversion H. reflexivity.
Qed.

Lemma map_py_str_int (l : list Z) :
  forallb printable l = true -> map_result py_str_int l = Ok (map str_of_int l).
Proof.
  induction l as [|z l IH]; simpl; intros H; [reflexivity|].
  apply andb_prop in H. destruct H as [Hz Hl].
  rewrite (py_str_int_printable z Hz). simpl. rewrite (IH Hl). reflexivity.
Qed.

Lemma map_py_str_int_ok (l : list Z) (strs : list pystr) :
  map_result py_str_int l = Ok strs ->
  forallb printable l = true /\ strs = map str_of_int l.
Proof.
  revert strs. induction l as [|z l IH]; simpl; intros strs H.
  - inversion H. auto.
  - destruct (py_str_int z) as [s|e] eqn:Ez; [|discriminate H].
    destruct (py_str_int_ok z s Ez) as [Hp ->]. cbn [bind] in H.
    destruct (map_result py_str_int l) as [ss|e] eqn:El; [|discriminate H].
    destruct (IH ss eq_refl) as [Hl ->]. cbn [bind] in H.
    inversion H. rewrite Hp, Hl. auto.
Qed.

(** ** Lists with Python indexing *)

Lemma set_nth_length {A} (l : list A) n x : length (set_nth l n x) = length l.
Proof.
  revert n. induction l as [|h t IH]; intros [|n]; simpl; auto.
Qed.

Lemma nth_set_nth (l : list Z) n x j :
  (n < length l)%nat ->
  nth j (set_nth l n x) 0 = if Nat.eqb j n then x else nth j l 0.
Proof.
  revert n j. induction l as [|h t IH]; intros n j Hn; simpl in Hn; [lia|].
  destruct n as [|n]; destruct j as [|j]; simpl; try reflexivity.
  apply IH. lia.
Qed.

Lemma norm_index_spec n i p :
  norm_index n i = Some p <->
  ((0 <= i /\ i < Z.of_nat n /\ p = Z.to_nat i) \/
   (i < 0 /\ 0 <= i + Z.of_nat n /\ p = Z.to_nat (i + Z.of_nat n))).
Proof.
  unfold norm_index.
  destruct (Z.ltb_spec i 0);
    match goal with |- context [(?a <=? ?b) && (?c <? ?d)] =>
      destruct (Z.leb_spec a b); destruct (Z.ltb_spec c d) end;
    simpl; split; intros H'; try discriminate;
    try (inversion H'; subst; lia);
    try (destruct H' as [H'|H']; try lia; destruct H' as (? & ? & ->); reflexivity).
Qed.

Lemma getitem_at (l : list Z) i p :
  norm_index (length l) i = Some p -> getitem l i = Ok (nth p l 0) /\ (p < length l)%nat.
Proof.
  intros H. unfold getitem. rewrite H.
  assert (Hp : (p < length l)%nat) by (apply norm_index_spec in H; lia).
  split; [|exact Hp].
  destruct (nth_error l p) as [x|] eqn:E.
  - rewrite (nth_error_nth l p 0 E). reflexivity.
  - apply nth_error_None in E. lia.
Qed.

Lemma reset_loop_spec (n : nat) :
  forall (i : Z) (l : list Z) (q : nat),
    length l = (q + n)%nat ->
    (forall j, (j < n)%nat -> norm_index (length l) (i + Z.of_nat j) = Some (q + j)%nat) ->
    exists out,
      reset_loop n i l = Ok out /\ length out = length l /\
      forall j, nth j out 0 = if Nat.ltb j q then nth j l 0 else 0.
Proof.
  induction n as [|n IH]; intros i l q Hlen Hidx; simpl.
  - exists l. repeat split. intros j.
    destruct (Nat.ltb_spec j q); [reflexivity|]. apply nth_overflow. lia.
  - unfold setitem.
    pose proof (Hidx 0%nat ltac:(lia)) as H0.
    rewrite Z.add_0_r, Nat.add_0_r in H0. rewrite H0. simpl.
    destruct (IH (i + 1) (set_nth l q 0) (S q)) as (out & Hout & Hl & Hn).
    + rewrite set_nth_length. lia.
    + intros j Hj. rewrite set_nth_length.
      replace (i + 1 + Z.of_nat j) with (i + Z.of_nat (S j)) by lia.
      rewrite (Hidx (S j)) by lia. f_equal. lia.
    + exists out. rewrite Hout. split; [reflexivity|].
      rewrite Hl, set_nth_length. split; [reflexivity|].
      intros j. rewrite Hn. rewrite nth_set_nth by lia.
      destruct (Nat.ltb_spec j (S q)); destruct (Nat.ltb_spec j q);
        destruct (Nat.eqb_spec j q); try lia; reflexivity.
Qed.

(** The numbers a bump leaves at each position. *)
Lemma bump_numbers (vals : list Z) (index : Z) (p : nat) :
  norm_index (length vals) index = Some p ->
  exists out,
    (x <- getitem vals index ;;
     bases <- setitem vals index (x + 1) ;;
     reset_loop (Z.to_nat ((if index <? 0 then 0 else Z.of_nat (length bases)) - (index + 1)))
       (index + 1) bases) = Ok out /\
    length out = length vals /\
    forall j, (j < length vals)%nat ->
      nth j out 0 =
        if Nat.ltb j p then nth j vals 0
        else if Nat.eqb j p then nth p vals 0 + 1 else 0.
Proof.
  intros Hp.
  destruct (getitem_at vals index p Hp) as [Hget Hlt].
  rewrite Hget. simpl. unfold setitem at 1. rewrite Hp. simpl.
  set (l1 := set_nth vals p (nth p vals 0 + 1)).
  assert (Hl1 : length l1 = length vals) by apply set_nth_length.
  rewrite Hl1.
  set (n := Z.to_nat ((if index <? 0 then 0 else Z.of_nat (length vals)) - (index + 1))).
  assert (Hn : n = (length vals - p - 1)%nat).
  { subst n. apply norm_index_spec in Hp. destruct (Z.ltb_spec index 0); lia. }
  destruct (reset_loop_spec n (index + 1) l1 (S p)) as (out & Hout & Hlen & Hnth).
  - lia.
  - intros j Hj. rewrite Hl1. apply norm_index_spec.
    apply norm_index_spec in Hp. destruct Hp as [Hp|Hp]; [left|right]; lia.
  - exists out. split; [exact Hout|]. split; [lia|].
    intros j Hj. rewrite Hnth. subst l1. rewrite nth_set_nth by lia.
    destruct (Nat.ltb_spec j (S p)); destruct (Nat.ltb_spec j p);
      destruct (Nat.eqb_spec j p); try lia; reflexivity.
Qed.

Lemma lstrip_keeps f (c : ascii) (s : pystr) :
  In c s -> f c = false -> In c (lstrip f s).
Proof.
  induction s as [|x s IH]; intros Hin Hc; [destruct Hin|].
  simpl. destruct (f x) eqn:Hx; [|exact Hin].
  destruct Hin as [->|Hin]; [congruence | auto].
Qed.

Lemma rstrip_keeps f (c : ascii) (s : pystr) :
  In c s -> f c = false -> In c (rstrip f s).
Proof.
  intros Hin Hc. unfold rstrip. apply in_rev. rewrite rev_involutive.
  apply lstrip_keeps; [apply -> in_rev; exact Hin | exact Hc].
Qed.

Lemma int_digits_letter (c : ascii) (s : pystr) :
  In c s -> is_alpha c = true -> forall acc seen, int_digits acc seen s = None.
Proof.
  intros Hin Hc. induction s as [|x s IH]; intros acc seen; [destruct Hin|].
  simpl. destruct Hin as [->|Hin].
  - assert (Hd : is_digit c = false) by (revert Hc; by_cases_on_char c).
    assert (Hu : Ascii.eqb c "_" = false) by (revert Hc; by_cases_on_char c).
    rewrite Hd, Hu. reflexivity.
  - destruct (is_digit x); [apply IH; exact Hin|].
    destruct (Ascii.eqb x "_"); [|reflexivity].
    destruct seen; [apply IH; exact Hin | reflexivity].
Qed.

(** [int] rejects the empty string and every string with a letter in it. *)
Lemma int_literal_rejects (seg : pystr) :
  seg = [] \/ (exists c, In c seg /\ is_alpha c = true) -> int_literal seg = None.
Proof.
  intros [->|(c & Hin & Hc)]; [reflexivity|].
  unfold int_literal.
  assert (Hs : is_int_space c = false) by (revert Hc; by_cases_on_char c).
  pose proof (rstrip_keeps is_int_space c _ (lstrip_keeps is_int_space c seg Hin Hs) Hs) as H.
  destruct (rstrip is_int_space (lstrip is_int_space seg)) as [|x t]; [reflexivity|].
  assert (Hp : Ascii.eqb c "+" = false) by (revert Hc; by_cases_on_char c).
  assert (Hm : Ascii.eqb c "-" = false) by (revert Hc; by_cases_on_char c).
  destruct (Ascii.eqb x "+") eqn:Ex.
  - apply Ascii.eqb_eq in Ex. subst x.
    destruct H as [<-|H]; [discriminate Hp|].
    apply (int_digits_letter c t H Hc).
  - destruct (Ascii.eqb x "-") eqn:Ex'.
    + apply Ascii.eqb_eq in Ex'. subst x.
      destruct H as [<-|H]; [discriminate Hm|].
      rewrite (int_digits_letter c t H Hc). reflexivity.
    + apply (int_digits_letter c (x :: t) H Hc).
Qed.

(** What [bump_version] does to a base of digit runs within the limit:
    the numbers are bumped, then written. *)
Lemma bump_version_run (segs : list pystr) (index : Z) (p : nat) :
  segs <> [] ->
  forallb numeric segs = true ->
  forallb within_limit segs = true ->
  norm_index (length segs) index = Some p ->
  exists out,
    length out = length segs /\
    (forall j, (j < length segs)%nat ->
       nth j out 0 =
         if Nat.ltb j p then nth j (map digits_value segs) 0
         else if Nat.eqb j p then nth p (map digits_value segs) 0 + 1 else 0) /\
    bump_version (str_join (lit ".") segs) index =
      (strs <- map_result py_str_int out ;; Ok (str_join (lit ".") strs)).
Proof.
  intros Hne Hnum Hlim Hp.
  set (vals := map digits_value segs).
  assert (Hsplit : str_split "." (str_join (lit ".") segs) = segs).
  { apply split_join; [exact Hne | apply numeric_no_dot; exact Hnum]. }
  assert (Hvals : map_result py_int segs = Ok vals)
    by (apply map_py_int_numeric; assumption).
  assert (Hp' : norm_index (length vals) index = Some p)
    by (unfold vals; rewrite length_map; exact Hp).
  destruct (bump_numbers vals index p Hp') as (out & Hout & Hlen & Hnth).
  exists out. unfold vals in Hlen, Hnth. rewrite length_map in Hlen, Hnth.
  split; [exact Hlen|]. split; [exact Hnth|].
  unfold bump_version. rewrite Hsplit, Hvals.
  change (bind (Ok vals) ?f) with (f vals). cbv beta.
  destruct (getitem vals index) as [x|e] eqn:Hx; [|discriminate Hout].
  simpl in Hout |- *.
  destruct (setitem vals index (x + 1)) as [b|e] eqn:Hb; [|discriminate Hout].
  simpl in Hout |- *. rewrite Hout. reflexivity.
Qed.

Lemma bumped_printable (segs : list pystr) (out : list Z) (p : nat) :
  forallb numeric segs = true ->
  forallb within_limit segs = true ->
  length out = length segs ->
  (forall j, (j < length segs)%nat ->
     nth j out 0 =
       if Nat.ltb j p then nth j (map digits_value segs) 0
       else if Nat.eqb j p then nth p (map digits_value segs) 0 + 1 else 0) ->
  printable (nth p (map digits_value segs) 0 + 1) = true ->
  forallb printable out = true.
Proof.
  intros Hnum Hlim Hlen Hnth Hpr.
  apply forallb_forall. intros z Hz.
  destruct (In_nth out z 0 Hz) as (j & Hj & <-).
  rewrite Hnth by lia.
  destruct (Nat.ltb j p); [|destruct (Nat.eqb j p); [exact Hpr | exact printable_zero]].
  assert (Hjs : (j < length segs)%nat) by lia.
  rewrite (nth_indep _ 0 (digits_value []))
    by (rewrite length_map; exact Hjs).
  rewrite map_nth.
  assert (Hin : In (nth j segs []) segs) by (apply nth_In; exact Hjs).
  rewrite forallb_forall in Hnum, Hlim.
  apply printable_digits; auto.
Qed.

(** The bumped base, when every number can be read and written. *)
Lemma bump_version_numbers (segs : list pystr) (index : Z) (p : nat) :
  segs <> [] ->
  forallb numeric segs = true ->
  forallb within_limit segs = true ->
  norm_index (length segs) index = Some p ->
  printable (nth p (map digits_value segs) 0 + 1) = true ->
  exists out,
    bump_version (str_join (lit ".") segs) index
      = Ok (str_join (lit ".") (map str_of_int out)) /\
    length out = length segs /\
    forall j, (j < length segs)%nat ->
      nth j out 0 =
        if Nat.ltb j p then nth j (map digits_value segs) 0
        else if Nat.eqb j p then nth p (map digits_value segs) 0 + 1 else 0.
Proof.
  intros Hne Hnum Hlim Hp Hpr.
  destruct (bump_version_run segs index p Hne Hnum Hlim Hp) as (out & Hlen & Hnth & Hrun).
  exists out. split; [|split; [exact Hlen | exact Hnth]].
  rewrite Hrun, (map_py_str_int out); [reflexivity|].
  exact (bumped_printable segs out p Hnum Hlim Hlen Hnth Hpr).
Qed.

(** The bump of a number that can no longer be written. *)
Lemma bump_version_overflow (segs : list pystr) (index : Z) (p : nat) :
  segs <> [] ->
  forallb numeric segs = true ->
  forallb within_limit segs = true ->
  norm_index (length segs) index = Some p ->
  printable (nth p (map digits_value segs) 0 + 1) = false ->
  bump_version (str_join (lit ".") segs) index = Raise (ValueError ExceedsLimit).
Proof.
  intros Hne Hnum Hlim Hp Hpr.
  destruct (bump_version_run segs index p Hne Hnum Hlim Hp) as (out & Hlen & Hnth & Hrun).
  rewrite Hrun.
  assert (Hlt : (p < length segs)%nat) by (apply norm_index_spec in Hp; lia).
  destruct (map_result_raises py_str_int (fun e => e = ValueError ExceedsLimit) out
              py_str_int_raises) as (e & He & ->).
  - exists (nth p out 0). split; [apply nth_In; lia|].
    rewrite (Hnth p Hlt), Nat.ltb_irrefl, Nat.eqb_refl.
    unfold py_str_int. rewrite Hpr. eauto.
  - rewrite He. reflexivity.
Qed.

Lemma bump_version_unread (base : pystr) (index : Z) :
  (exists seg, In seg (str_split "." base) /\ exists e, py_int seg = Raise e) ->
  exists m, bump_version base index = Raise (ValueError m).
Proof.
  intros Hex. destruct (map_py_int_failure _ Hex) as (m & Hr).
  exists m. unfold bump_version. rewrite Hr. reflexivity.
Qed.

Lemma py_int_unread (seg : pystr) :
  seg = [] \/ (exists c, In c seg /\ is_alpha c = true) \/
  (numeric seg = true /\ within_limit seg = false) ->
  exists m, py_int seg = Raise (ValueError m).
Proof.
  intros [H|[H|[Hn Hl]]].
  - apply py_int_rejected. apply int_literal_rejects. left. exact H.
  - apply py_int_rejected. apply int_literal_rejects. right. exact H.
  - exists ExceedsLimit. apply py_int_too_long; assumption.
Qed.

(** C2. For a base of dot-separated runs of digits, each of at most
    [int_max_str_digits] digits, and an index in range (from the left, or
    negative from the right) such that the number at the index plus one can
    still be written, [bump_version] converts each segment to its number,
    adds one at the index and sets every position to its right to 0. A
    segment [int] does not read (an empty one, one with a letter in it, a run
    of more digits than the limit) makes it raise a [ValueError], and so
    does a bumped number of more digits than the limit. The three examples
    of the design hold. *)
Theorem C2_bump_version :
  forall (segs : list pystr) (index : Z) (p : nat),
    segs <> [] ->
    forallb numeric segs = true ->
    forallb within_limit segs = true ->
    norm_index (length segs) index = Some p ->
    printable (nth p (map digits_value segs) 0 + 1) = true ->
    let vals := map digits_value segs in
    map_result py_int (str_split "." (str_join (lit ".") segs)) = Ok vals /\
    (exists out,
        bump_version (str_join (lit ".") segs) index
          = Ok (str_join (lit ".") (map str_of_int out)) /\
        length out = length segs /\
        forall j, (j < length segs)%nat ->
          nth j out 0 =
            if Nat.ltb j p then nth j vals 0
            else if Nat.eqb j p then nth p vals 0 + 1 else 0) /\
    (forall base' index',
        (exists seg, In seg (str_split "." base') /\ exists e, py_int seg = Raise e) ->
        exists m, bump_version base' index' = Raise (ValueError m)) /\
    (forall seg,
        seg = [] \/ (exists c, In c seg /\ is_alpha c = true) \/
        (numeric seg = true /\ within_limit seg = false) ->
        exists m, py_int seg = Raise (ValueError m)) /\
    (forall segs' index' p',
        segs' <> [] -> forallb numeric segs' = true -> forallb within_limit segs' = true ->
        norm_index (length segs') index' = Some p' ->
        printable (nth p' (map digits_value segs') 0 + 1) = false ->
        bump_version (str_join (lit ".") segs') index' = Raise (ValueError ExceedsLimit)) /\
    bump_version (lit "1.2.3") (-1) = Ok (lit "1.2.4") /\
    bump_version (lit "1.2.3") 0 = Ok (lit "2.0.0") /\
    bump_version (lit "1.2.3") 1 = Ok (lit "1.3.0").
Proof.
  intros segs index p Hne Hnum Hlim Hp Hpr vals.
  assert (Hsplit : str_split "." (str_join (lit ".") segs) = segs).
  { apply split_join; [exact Hne | apply numeric_no_dot; exact Hnum]. }
  split; [rewrite Hsplit; apply map_py_int_numeric; assumption|].
  split; [exact (bump_version_numbers segs index p Hne Hnum Hlim Hp Hpr)|].
  split; [exact bump_version_unread|].
  split; [exact py_int_unread|].
  split; [exact bump_version_overflow|].
  repeat split; vm_compute; reflexivity.
Qed.

Lemma C2_bump_version_witness :
  exists out,
    bump_version (lit "1.9.3") (-2) = Ok (str_join (lit ".") (map str_of_int out)) /\
    nth 0 out 0 = 1 /\ nth 1 out 0 = 10 /\ nth 2 out 0 = 0.
Proof.
  destruct (C2_bump_version [lit "1"; lit "9"; lit "3"] (-2) 1%nat
              ltac:(discriminate) eq_refl eq_refl eq_refl eq_refl)
    as (_ & (out & Hb & _ & Hn) & _).
  exists out. split; [exact Hb|].
  split; [exact (Hn 0%nat ltac:(simpl; lia))|].
  split; [exact (Hn 1%nat ltac:(simpl; lia)) | exact (Hn 2%nat ltac:(simpl; lia))].
Defined.

(** C2, as stated, fails: a segment of 4301 digits is numeric and the
    index is in range, yet [bump_version] raises instead of returning the
    bumped base. *)
Lemma C2_counterexample :
  ~ (forall (segs : list pystr) (index : Z) (p : nat),
        segs <> [] ->
        forallb numeric segs = true ->
        norm_index (length segs) index = Some p ->
        exists bumped, bump_version (str_join (lit ".") segs) index = Ok bumped).
Proof.
  intros H.
  destruct (H [repeat "1"%char 4301] (-1) 0%nat ltac:(discriminate)
              ltac:(vm_compute; reflexivity) eq_refl) as (bumped & Hb).
  vm_compute in Hb. discriminate Hb.
Qed.

(** ** The matcher on character classes *)

Lemma star_loop_chr f k :
  forall r fuel p c,
    (length r < fuel)%nat ->
    star_loop (mt (Chr f)) k fuel (MState p r c) = star_chr f k p r c.
Proof.
  induction r as [|x t IH]; intros fuel p c Hf;
    (destruct fuel as [|fuel]; [simpl in Hf; lia|]).
  - reflexivity.
  - simpl. destruct (f x); [|reflexivity].
    assert (Hlt : Nat.ltb (length t) (S (length t)) = true) by (apply Nat.ltb_lt; lia).
    simpl in Hlt. rewrite Hlt.
    rewrite IH by (simpl in Hf; lia). reflexivity.
Qed.

Lemma mt_star_chr f k p r c :
  mt (Star (Chr f)) k (MState p r c) = star_chr f k p r c.
Proof.
  change (mt (Star (Chr f)) k (MState p r c))
    with (star_loop (mt (Chr f)) k (S (length r)) (MState p r c)).
  apply star_loop_chr. lia.
Qed.

Lemma mt_plus_chr f k p r c :
  mt (Plus (Chr f)) k (MState p r c) =
    match r with
    | x :: t => if f x then star_chr f k (S p) t c else None
    | [] => None
    end.
Proof.
  destruct r as [|x t]; [reflexivity|].
  change (mt (Plus (Chr f)) k (MState p (x :: t) c))
    with (if f x
          then star_loop (mt (Chr f)) k (S (length t)) (MState (S p) t c)
          else None).
  destruct (f x); [|reflexivity].
  apply star_loop_chr. lia.
Qed.

Lemma star_chr_greedy f k Q (xs : pystr) :
  forall p t c,
    forallb f xs = true -> stops f t = true ->
    yields Q (k (MState (p + length xs) t c)) ->
    yields Q (star_chr f k p (xs ++ t) c).
Proof.
  induction xs as [|x xs IH]; intros p t c Hxs Ht Hk.
  - simpl in *. rewrite Nat.add_0_r in Hk.
    destruct t as [|y t]; simpl; [exact Hk|].
    simpl in Ht. apply negb_true_iff in Ht. rewrite Ht. exact Hk.
  - simpl in Hxs. apply andb_prop in Hxs. destruct Hxs as [Hx Hxs].
    simpl. rewrite Hx.
    assert (H : yields Q (star_chr f k (S p) (xs ++ t) c)).
    { apply IH; auto. simpl in Hk. rewrite Nat.add_succ_r in Hk. exact Hk. }
    destruct (star_chr f k (S p) (xs ++ t) c); [exact H | destruct H].
Qed.

Lemma plus_chr_greedy f k Q (xs : pystr) p t c :
  xs <> [] -> forallb f xs = true -> stops f t = true ->
  yields Q (k (MState (p + length xs) t c)) ->
  yields Q (mt (Plus (Chr f)) k (MState p (xs ++ t) c)).
Proof.
  intros Hne Hxs Ht Hk. rewrite mt_plus_chr.
  destruct xs as [|x xs]; [congruence|].
  simpl in Hxs. apply andb_prop in Hxs. destruct Hxs as [Hx Hxs].
  simpl. rewrite Hx. apply star_chr_greedy; auto.
  simpl in Hk. rewrite Nat.add_succ_r in Hk. exact Hk.
Qed.

(** When [k] fails at every cut of the run, so does the repetition. *)
Lemma star_chr_none f k (xs : pystr) :
  forall p t c,
    forallb f xs = true -> stops f t = true ->
    (forall ys zs, xs = ys ++ zs -> k (MState (p + length ys) (zs ++ t) c) = None) ->
    star_chr f k p (xs ++ t) c = None.
Proof.
  induction xs as [|x xs IH]; intros p t c Hxs Ht Hk.
  - specialize (Hk [] [] eq_refl). simpl in Hk. rewrite Nat.add_0_r in Hk.
    destruct t as [|y t]; simpl; [exact Hk|].
    simpl in Ht. apply negb_true_iff in Ht. rewrite Ht. exact Hk.
  - simpl in Hxs. apply andb_prop in Hxs. destruct Hxs as [Hx Hxs].
    simpl. rewrite Hx. rewrite IH; auto.
    + specialize (Hk [] (x :: xs) eq_refl). simpl in Hk.
      rewrite Nat.add_0_r in Hk. exact Hk.
    + intros ys zs E. specialize (Hk (x :: ys) zs). simpl in Hk.
      rewrite Nat.add_succ_r in Hk. apply Hk. rewrite E. reflexivity.
Qed.

(** A successful repetition stopped after some run of the class. *)
Lemma star_chr_inv f k :
  forall r p c m,
    star_chr f k p r c = Some m ->
    exists ys zs, r = ys ++ zs /\ forallb f ys = true /\
                  k (MState (p + length ys) zs c) = Some m.
Proof.
  induction r as [|x t IH]; intros p c m H; simpl in H.
  - exists [], []. simpl. rewrite Nat.add_0_r. auto.
  - destruct (f x) eqn:Hx.
    + destruct (star_chr f k (S p) t c) as [m'|] eqn:E.
      * inversion H; subst m'. destruct (IH _ _ _ E) as (ys & zs & -> & Hys & Hk).
        exists (x :: ys), zs. simpl. rewrite Hx, Hys, Nat.add_succ_r. auto.
      * exists [], (x :: t). simpl. rewrite Nat.add_0_r. auto.
    + exists [], (x :: t). simpl. rewrite Nat.add_0_r. auto.
Qed.

Lemma take_drop_while f (s : pystr) : take_while f s ++ drop_while f s = s.
Proof.
  induction s as [|c t IH]; simpl; [reflexivity|].
  destruct (f c); simpl; [rewrite IH|]; reflexivity.
Qed.

Lemma take_while_all f (s : pystr) : forallb f (take_while f s) = true.
Proof.
  induction s as [|c t IH]; simpl; [reflexivity|].
  destruct (f c) eqn:E; simpl; [rewrite E, IH|]; reflexivity.
Qed.

Lemma drop_while_stops f (s : pystr) : stops f (drop_while f s) = true.
Proof.
  induction s as [|c t IH]; simpl; [reflexivity|].
  destruct (f c) eqn:E; simpl; [exact IH | rewrite E; reflexivity].
Qed.

Lemma firstn_consumed {A} (p : nat) (xs t : list A) :
  firstn (p + length xs - p) (xs ++ t) = xs.
Proof.
  replace (p + length xs - p)%nat with (length xs + 0)%nat by lia.
  rewrite firstn_app_2. simpl. apply app_nil_r.
Qed.

(** ** The two patterns of the metadata parts *)

Lemma star_chr_total f k :
  forall r p c,
    k (MState (p + length (take_while f r)) (drop_while f r) c) <> None ->
    star_chr f k p r c = k (MState (p + length (take_while f r)) (drop_while f r) c).
Proof.
  induction r as [|x t IH]; intros p c Hk; simpl in *.
  - rewrite Nat.add_0_r. reflexivity.
  - destruct (f x); simpl in *.
    + rewrite Nat.add_succ_r in *. rewrite (IH (S p) c Hk).
      destruct (k _); [reflexivity | congruence].
    + rewrite Nat.add_0_r. reflexivity.
Qed.

Lemma firstn_take_while f (p : nat) (t : pystr) :
  firstn (p + length (take_while f t) - p) t = take_while f t.
Proof.
  pose proof (firstn_consumed p (take_while f t) (drop_while f t)) as H.
  rewrite take_drop_while in H. exact H.
Qed.

(** A group around a repeated class, matched with nothing after it. *)
Lemma group_plus_chr_accept (i : nat) nm f p r c :
  mt (Group i nm (Plus (Chr f))) accept (MState p r c) =
    match take_while f r with
    | [] => None
    | text => Some (MState (p + length text) (drop_while f r) ((i, text) :: c))
    end.
Proof.
  change (mt (Group i nm (Plus (Chr f))) accept (MState p r c))
    with (mt (Plus (Chr f))
            (fun s' => accept (set_cap i (firstn (pos s' - p) r) s')) (MState p r c)).
  rewrite mt_plus_chr.
  destruct r as [|x t]; [reflexivity|].
  destruct (f x) eqn:Hx.
  - rewrite star_chr_total by discriminate.
    unfold accept, set_cap. cbn [pos rest caps].
    replace (S p + length (take_while f t))%nat
      with (p + length (take_while f (x :: t)))%nat
      by (simpl; rewrite Hx; simpl; lia).
    rewrite firstn_take_while.
    replace (drop_while f t) with (drop_while f (x :: t)) by (simpl; rewrite Hx; reflexivity).
    destruct (take_while f (x :: t)) eqn:E; [simpl in E; rewrite Hx in E; discriminate|].
    reflexivity.
  - simpl. rewrite Hx. reflexivity.
Qed.

Lemma take_while_head_false f x t : f x = false -> take_while f (x :: t) = [].
Proof. intros H. simpl. rewrite H. reflexivity. Qed.

Lemma re_match_distance (value : pystr) :
  option_map (fun m => lookup_cap 1 (caps m)) (re_match DISTANCE_PART value)
    = option_map Some (distance_token value).
Proof.
  unfold re_match, DISTANCE_PART, digits, distance_token.
  change (mt (Opt (Chr (is_char "d")) +++ Group 1 None (Plus (Chr is_digit))) accept ?s)
    with (match mt (Chr (is_char "d")) (mt (Group 1 None (Plus (Chr is_digit))) accept) s with
          | Some m => Some m
          | None => mt (Group 1 None (Plus (Chr is_digit))) accept s
          end).
  destruct value as [|x t].
  - reflexivity.
  - change (mt (Chr (is_char "d")) ?k (MState 0 (x :: t) []))
      with (if is_char "d" x then k (MState 1 t []) else None).
    unfold without_leading, is_char. destruct (Ascii.eqb x "d") eqn:Hx.
    + rewrite !group_plus_chr_accept.
      apply Ascii.eqb_eq in Hx. subst x.
      destruct (take_while is_digit t) as [|y ys] eqn:E; [|reflexivity].
      reflexivity.
    + rewrite group_plus_chr_accept.
      destruct (take_while is_digit (x :: t)); reflexivity.
Qed.

Lemma lookup_cap_head i text c : lookup_cap i ((i, text) :: c) = Some text.
Proof. simpl. rewrite Nat.eqb_refl. reflexivity. Qed.

Lemma re_match_commit (value : pystr) :
  option_map (fun m => lookup_cap 1 (caps m)) (re_match COMMIT_PART value)
    = option_map Some (commit_token value).
Proof.
  unfold re_match, COMMIT_PART, commit_token.
  change (mt (Opt (Chr (is_char "g")) +++ Group 1 None (Plus (Chr is_lower_alnum))) accept ?s)
    with (match mt (Chr (is_char "g")) (mt (Group 1 None (Plus (Chr is_lower_alnum))) accept) s with
          | Some m => Some m
          | None => mt (Group 1 None (Plus (Chr is_lower_alnum))) accept s
          end).
  destruct value as [|x t].
  - reflexivity.
  - change (mt (Chr (is_char "g")) ?k (MState 0 (x :: t) []))
      with (if is_char "g" x then k (MState 1 t []) else None).
    unfold without_leading, is_char. destruct (Ascii.eqb x "g") eqn:Hx.
    + rewrite !group_plus_chr_accept.
      destruct (take_while is_lower_alnum t) as [|y ys] eqn:E.
      * destruct (take_while is_lower_alnum (x :: t)); reflexivity.
      * reflexivity.
    + rewrite group_plus_chr_accept.
      destruct (take_while is_lower_alnum (x :: t)); reflexivity.
Qed.

Lemma match_group1_distance (value : pystr) :
  Version.match_group1 DISTANCE_PART value = Ok (option_map Some (distance_token value)).
Proof.
  unfold Version.match_group1. pose proof (re_match_distance value) as H.
  destruct (re_match DISTANCE_PART value) as [m|]; simpl in H |- *.
  - unfold group_num. simpl has_group. simpl. rewrite H. reflexivity.
  - rewrite <- H. reflexivity.
Qed.

Lemma match_group1_commit (value : pystr) :
  Version.match_group1 COMMIT_PART value = Ok (option_map Some (commit_token value)).
Proof.
  unfold Version.match_group1. pose proof (re_match_commit value) as H.
  destruct (re_match COMMIT_PART value) as [m|]; simpl in H |- *.
  - unfold group_num. simpl has_group. simpl. rewrite H. reflexivity.
  - rewrite <- H. reflexivity.
Qed.

Lemma distance_token_numeric value ds :
  distance_token value = Some ds -> numeric ds = true.
Proof.
  unfold distance_token, nonempty_str.
  pose proof (take_while_all is_digit (without_leading "d" value)) as H.
  destruct (take_while is_digit (without_leading "d" value)) as [|y ys]; [discriminate|].
  intros E. inversion E; subst ds. exact H.
Qed.

(** ** The scan of the metadata parts *)

Lemma str_eqb_eq (a b : pystr) : str_eqb a b = true <-> a = b.
Proof.
  revert b. induction a as [|x a IH]; intros [|y b]; simpl; split; intros H;
    try reflexivity; try discriminate.
  - apply andb_prop in H. destruct H as [Hx Ha].
    apply Ascii.eqb_eq in Hx. apply IH in Ha. congruence.
  - inversion H; subst. rewrite Ascii.eqb_refl. simpl. apply IH. reflexivity.
Qed.

Lemma scan_step_claim (st : Version.slots) (i : nat) (value : pystr) :
  Version.scan_step st i value =
    match claim_of (is_none (Version.s_dirty st)) (is_none (Version.s_distance st))
            (is_none (Version.s_commit st)) value with
    | ClaimDistance n =>
        if opt_within_limit (distance_token value)
        then Ok (after_claim st i (ClaimDistance n))
        else Raise (ValueError ExceedsLimit)
    | c => Ok (after_claim st i c)
    end.
Proof.
  unfold Version.scan_step, claim_of, claim_with.
  destruct st as [d n c pop]; simpl.
  destruct d as [d|]; simpl.
  - destruct n as [n|]; simpl.
    + destruct c as [c|]; simpl; [reflexivity|].
      rewrite match_group1_commit. simpl.
      destruct (commit_token value); reflexivity.
    + rewrite match_group1_distance. simpl.
      destruct (distance_token value) as [ds|] eqn:E; simpl.
      * rewrite (py_int_digits ds (distance_token_numeric _ _ E)).
        destruct (within_limit ds); reflexivity.
      * destruct c as [c|]; simpl; [reflexivity|].
        rewrite match_group1_commit. simpl.
        destruct (commit_token value); reflexivity.
  - destruct (str_eqb value _); [reflexivity|].
    destruct (str_eqb value _); [reflexivity|].
    destruct n as [n|]; simpl.
    + destruct c as [c|]; simpl; [reflexivity|].
      rewrite match_group1_commit. simpl.
      destruct (commit_token value); reflexivity.
    + rewrite match_group1_distance. simpl.
      destruct (distance_token value) as [ds|] eqn:E; simpl.
      * rewrite (py_int_digits ds (distance_token_numeric _ _ E)).
        destruct (within_limit ds); reflexivity.
      * destruct c as [c|]; simpl; [reflexivity|].
        rewrite match_group1_commit. simpl.
        destruct (commit_token value); reflexivity.
Qed.

Lemma claim_of_free (a b c : bool) (part : pystr) :
  match claim_of a b c part with
  | ClaimDirty _ => a = true
  | ClaimDistance _ => b = true
  | ClaimCommit _ => c = true
  | Unclaimed => True
  end.
Proof.
  unfold claim_of, claim_with.
  destruct a; destruct b; destruct c; simpl;
    repeat match goal with
           | |- context [if ?x then _ else _] => destruct x
           | |- context [match ?o with Some _ => _ | None => _ end] => destruct o
           end; auto.
Qed.

(** Once the distance is given, no later part is taken for it. *)
Lemma distance_taken (parts : list pystr) :
  forall a c, distance_digits parts (claims a false c parts) = None.
Proof.
  unfold claims.
  induction parts as [|part parts IH]; intros a c; [reflexivity|].
  cbn [claims_with distance_digits]. fold claim_of.
  pose proof (claim_of_free a false c part) as Hfree.
  destruct (claim_of a false c part); try discriminate Hfree;
    cbn [negb andb]; apply IH.
Qed.

Lemma scan_parts_claims (parts : list pystr) :
  forall st i,
    let cl := claims (is_none (Version.s_dirty st)) (is_none (Version.s_distance st))
                (is_none (Version.s_commit st)) parts in
    Version.scan_parts st i parts =
      if opt_within_limit (distance_digits parts cl)
      then Ok (Version.Slots
                 (or_else (Version.s_dirty st) (claimed_dirty cl))
                 (or_else (Version.s_distance st) (claimed_distance cl))
                 (or_else (Version.s_commit st) (claimed_commit cl))
                 (Version.s_pop st ++ positions i (map is_claimed cl)))
      else Raise (ValueError ExceedsLimit).
Proof.
  unfold claims.
  induction parts as [|part parts IH]; intros st i.
  - simpl. rewrite app_nil_r. destruct st as [[d|] [n|] [c|] pop]; reflexivity.
  - cbn [Version.scan_parts claims_with distance_digits].
    rewrite scan_step_claim. fold claim_of.
    destruct st as [d n c pop].
    cbn [Version.s_dirty Version.s_distance Version.s_commit Version.s_pop].
    pose proof (claim_of_free (is_none d) (is_none n) (is_none c) part) as Hfree.
    destruct (claim_of (is_none d) (is_none n) (is_none c) part) eqn:E;
      [| destruct (opt_within_limit (distance_token part)); [|reflexivity] | |];
      cbn [bind]; rewrite IH;
      cbn [after_claim Version.s_dirty Version.s_distance Version.s_commit Version.s_pop
           is_claimed negb andb claimed_dirty claimed_distance claimed_commit is_none map
           positions];
      rewrite ?andb_true_r, ?andb_false_r, <- ?app_assoc; cbn [app].
    + destruct d; [discriminate Hfree|]. cbn [is_none or_else].
      destruct (opt_within_limit _); reflexivity.
    + destruct n; [discriminate Hfree|]. cbn [is_none or_else].
      rewrite distance_taken. reflexivity.
    + destruct c; [discriminate Hfree|]. cbn [is_none or_else].
      destruct (opt_within_limit _); reflexivity.
    + destruct (opt_within_limit _); reflexivity.
Qed.

Lemma list_pop_cons (x : pystr) (l : list pystr) (i : nat) :
  list_pop (x :: l) (Z.of_nat (S i)) = (r <- list_pop l (Z.of_nat i) ;; Ok (x :: r)).
Proof.
  unfold list_pop, norm_index.
  assert (H1 : (Z.of_nat (S i) <? 0) = false) by (apply Z.ltb_ge; lia).
  assert (H2 : (Z.of_nat i <? 0) = false) by (apply Z.ltb_ge; lia).
  rewrite H1, H2.
  assert (H3 : (0 <=? Z.of_nat (S i)) = true) by (apply Z.leb_le; lia).
  assert (H4 : (0 <=? Z.of_nat i) = true) by (apply Z.leb_le; lia).
  rewrite H3, H4. cbn [andb].
  destruct (Z.ltb_spec (Z.of_nat i) (Z.of_nat (length l)));
    destruct (Z.ltb_spec (Z.of_nat (S i)) (Z.of_nat (length (x :: l))));
    simpl length in *; try lia.
  - rewrite !Nat2Z.id. reflexivity.
  - reflexivity.
Qed.

Lemma pop_all_app (a b : list nat) (l : list pystr) :
  Version.pop_all (a ++ b) l = (r <- Version.pop_all a l ;; Version.pop_all b r).
Proof.
  revert l. induction a as [|i a IH]; intros l; simpl; [reflexivity|].
  destruct (list_pop l (Z.of_nat i)); simpl; [apply IH | reflexivity].
Qed.

Lemma pop_all_shift (idx : list nat) (x : pystr) (l : list pystr) :
  Version.pop_all (map S idx) (x :: l) = (r <- Version.pop_all idx l ;; Ok (x :: r)).
Proof.
  revert l. induction idx as [|i idx IH]; intros l; simpl map; [reflexivity|].
  cbn [Version.pop_all]. rewrite list_pop_cons.
  destruct (list_pop l (Z.of_nat i)) as [r|e]; simpl; [apply IH | reflexivity].
Qed.

Lemma positions_shift (flags : list bool) (i : nat) :
  positions (S i) flags = map S (positions i flags).
Proof.
  revert i. induction flags as [|b flags IH]; intros i; simpl; [reflexivity|].
  destruct b; simpl; rewrite IH; reflexivity.
Qed.

Lemma pop_all_positions (parts : list pystr) :
  forall cl, length cl = length parts ->
    Version.pop_all (rev (positions 0 (map is_claimed cl))) parts = Ok (unclaimed parts cl).
Proof.
  induction parts as [|x parts IH]; intros [|c cl] Hl; simpl in Hl; try lia.
  - reflexivity.
  - simpl map. simpl positions. simpl unclaimed.
    rewrite positions_shift.
    destruct (is_claimed c).
    + simpl rev. rewrite <- map_rev, pop_all_app, pop_all_shift.
      rewrite IH by lia. reflexivity.
    + rewrite <- map_rev, pop_all_shift. rewrite IH by lia. reflexivity.
Qed.

Lemma positions_lower_bound flags :
  forall i j, In j (positions i flags) -> (i <= j)%nat.
Proof.
  induction flags as [|b flags IH]; intros i j H; simpl in H; [destruct H|].
  destruct b; [destruct H as [<-|H]; [lia|]|]; apply IH in H; lia.
Qed.

Lemma sorted_positions flags : forall i, Version.sorted (positions i flags) = positions i flags.
Proof.
  induction flags as [|b flags IH]; intros i; simpl; [reflexivity|].
  destruct b; [|apply IH].
  unfold Version.sorted in *. simpl. rewrite IH.
  destruct (positions (S i) flags) as [|j l] eqn:E; [reflexivity|].
  simpl. assert (Hj : (S i <= j)%nat).
  { apply (positions_lower_bound flags). rewrite E. left. reflexivity. }
  destruct (Nat.leb_spec i j); [reflexivity | lia].
Qed.

Lemma claims_length parts : forall a b c, length (claims a b c parts) = length parts.
Proof.
  unfold claims.
  induction parts as [|p parts IH]; intros a b c; simpl; [reflexivity|].
  rewrite IH. reflexivity.
Qed.

Lemma strip_blank (s : pystr) : str_eqb (str_strip s) [] = blank s.
Proof.
  unfold str_strip, rstrip, blank.
  assert (Hl : forall t, lstrip is_space t = [] <-> forallb is_space t = true).
  { induction t as [|c t IH]; simpl; [tauto|].
    destruct (is_space c); simpl; [exact IH|]. split; discriminate. }
  destruct (forallb is_space s) eqn:E.
  - apply Hl in E. rewrite E. reflexivity.
  - destruct (lstrip is_space s) as [|c t] eqn:E1.
    + apply Hl in E1. congruence.
    + assert (Hc : is_space c = false).
      { clear -E1. induction s as [|x s IH]; simpl in E1; [discriminate|].
        destruct (is_space x) eqn:Hx; [auto|]. inversion E1; subst. exact Hx. }
      destruct (lstrip is_space (rev (c :: t))) as [|y r] eqn:E2.
      * apply Hl in E2. rewrite forallb_forall in E2.
        rewrite (E2 c) in Hc; [discriminate|]. apply in_rev. rewrite rev_involutive.
        left. reflexivity.
      * destruct (rev (y :: r)) eqn:E3; [|reflexivity].
        apply (f_equal (@rev ascii)) in E3. rewrite rev_involutive in E3. discriminate.
Qed.

(** What [Version.parse] builds once the pattern has matched: the digits
    of the distance are read with [int], outside the [try]. *)
Lemma parse_of_match (version : pystr) (pattern : regex) (mp : Matched.t) :
  _match_version_pattern pattern [prefixed version] true = Ok mp ->
  Version.parse version pattern =
    if distance_readable mp then Ok (decomposed mp)
    else Raise (ValueError ExceedsLimit).
Proof.
  intros H. unfold Version.parse. fold (prefixed version). rewrite H.
  unfold distance_readable, decomposed, decomposed_with. fold claims.
  destruct (Matched.tagged_metadata mp) as [[|c m]|] eqn:Em; simpl _blank.
  - reflexivity.
  - pose proof (scan_parts_claims (str_split "." (c :: m))
                  (Version.Slots None None None []) 0) as Hs.
    simpl in Hs. rewrite Hs. clear Hs.
    destruct (opt_within_limit _); [|reflexivity].
    cbn [bind Version.s_pop]. rewrite sorted_positions.
    rewrite pop_all_positions by apply claims_length.
    cbn [bind fst snd Version.s_distance Version.s_commit Version.s_dirty or_else].
    rewrite strip_blank. reflexivity.
  - reflexivity.
Qed.

(** C3, as the code has it. Once the pattern has matched, [Version.parse]
    splits the captured metadata on ["."] and scans the parts once, left to
    right; each part is given at most one of the slots still free: the dirty
    flag for the exact part ["dirty"] (true) or ["clean"] (false), the
    distance for a part that starts, after an optional ["d"], with digits
    (those digits are the distance, what follows them in the part is
    dropped), the commit for a part that starts, after an optional ["g"],
    with digits or lower-case letters (that run is the commit). The digits
    of the distance are read with [int]: when there are more of them than
    [int_max_str_digits], [Version.parse] raises a [ValueError]. Otherwise
    the parts no slot took are joined with ["."] again as
    [tagged_metadata], unset when blank, and a distance no part gave is 0.
    The example of the design holds. *)
Theorem C3_parse_decomposes_metadata :
  forall (version : pystr) (mp : Matched.t),
    _match_version_pattern VERSION_SOURCE_PATTERN [prefixed version] true = Ok mp ->
    let parts := str_split "." (_blank (Matched.tagged_metadata mp) []) in
    let cl := claims true true true parts in
    let remainder := str_join (lit ".") (unclaimed parts cl) in
    Version.parse version VERSION_SOURCE_PATTERN =
      (if opt_within_limit (distance_digits parts cl)
       then Ok (Version.init (Matched.base mp) (Matched.stage_revision mp)
                  (_blank (claimed_distance cl) 0) (claimed_commit cl) (claimed_dirty cl)
                  (if blank remainder then None else Some remainder)
                  (Matched.epoch mp) None None)
       else Raise (ValueError ExceedsLimit)) /\
    Version.parse (lit "0.3.0a3+d7.gb6a9020.dirty") VERSION_SOURCE_PATTERN =
      Ok (Version.Make (lit "0.3.0") (Some (lit "a")) (Some 3) 7 (Some (lit "b6a9020"))
            (Some true) None None None None).
Proof.
  intros version mp H parts cl remainder. split.
  - exact (parse_of_match version VERSION_SOURCE_PATTERN mp H).
  - vm_compute. reflexivity.
Qed.

Lemma C3_parse_decomposes_metadata_witness :
  Version.parse (lit "1.0.0rc1+linux.d7x.clean.gabc-1.x86") VERSION_SOURCE_PATTERN =
    Ok (Version.Make (lit "1.0.0") (Some (lit "rc")) (Some 1) 7 (Some (lit "linux"))
          (Some false) (Some (lit "gabc-1.x86")) None None None).
Proof.
  exact (proj1 (C3_parse_decomposes_metadata (lit "1.0.0rc1+linux.d7x.clean.gabc-1.x86")
                  (Matched.Make (lit "v1.0.0rc1+linux.d7x.clean.gabc-1.x86") (lit "1.0.0")
                     (Some (lit "rc", Some 1)) []
                     (Some (lit "linux.d7x.clean.gabc-1.x86")) None)
                  eq_refl)).
Defined.

(** C3, as stated, fails: a part of upper-case letters is alphanumeric but
    is not taken for the commit, and a part that only starts with digits is
    taken for the distance. *)
Lemma C3_counterexample :
  (exists mp,
      _match_version_pattern VERSION_SOURCE_PATTERN [prefixed (lit "1.0.0+ABC")] true = Ok mp /\
      stated_decomposed mp =
        Version.Make (lit "1.0.0") None None 0 (Some (lit "ABC")) None None None None None /\
      Version.parse (lit "1.0.0+ABC") VERSION_SOURCE_PATTERN =
        Ok (Version.Make (lit "1.0.0") None None 0 None None (Some (lit "ABC")) None None None) /\
      Version.parse (lit "1.0.0+ABC") VERSION_SOURCE_PATTERN <> Ok (stated_decomposed mp)) /\
  (exists mp,
      _match_version_pattern VERSION_SOURCE_PATTERN [prefixed (lit "1.0.0+7x")] true = Ok mp /\
      stated_decomposed mp =
        Version.Make (lit "1.0.0") None None 0 (Some (lit "7x")) None None None None None /\
      Version.parse (lit "1.0.0+7x") VERSION_SOURCE_PATTERN =
        Ok (Version.Make (lit "1.0.0") None None 7 None None None None None None) /\
      Version.parse (lit "1.0.0+7x") VERSION_SOURCE_PATTERN <> Ok (stated_decomposed mp)).
Proof.
  split; eexists; (split; [vm_compute; reflexivity|]);
    (split; [vm_compute; reflexivity|]);
    (split; [vm_compute; reflexivity|]); vm_compute; discriminate.
Qed.

(** ** [Version.parse] always returns *)

Lemma int_or_raises msg text e :
  int_or msg text = Raise e -> exists m, e = ValueError m.
Proof.
  unfold int_or. destruct (py_int text) as [z|e'] eqn:E; [discriminate|].
  destruct (py_int_raises _ _ E) as (m & ->). intros H; inversion H. eauto.
Qed.

Lemma match_one_raises (pattern : regex) (source : pystr) (e : exn) :
  _match_version_pattern pattern [source] true = Raise e -> exists m, e = ValueError m.
Proof.
  unfold _match_version_pattern. simpl firstn. simpl match_loop.
  destruct (re_search pattern source) as [m|].
  - unfold group_name. destruct (groupindex pattern "base") as [i|].
    + destruct (lookup_cap i (caps m)) as [b|]; simpl.
      * destruct (groupdict_get pattern m "stage") as [st|].
        -- destruct (groupdict_get pattern m "revision") as [rv|]; simpl.
           ++ destruct (int_or BadRevision rv) as [r|e'] eqn:Hr; simpl.
              ** destruct (groupdict_get pattern m "epoch") as [ep|]; simpl.
                 --- destruct (int_or BadEpoch ep) as [x|e''] eqn:He; simpl.
                     +++ discriminate.
                     +++ intros H; inversion H; subst. eapply int_or_raises; eauto.
                 --- discriminate.
              ** intros H; inversion H; subst. eapply int_or_raises; eauto.
           ++ destruct (groupdict_get pattern m "epoch") as [ep|]; simpl.
              ** destruct (int_or BadEpoch ep) as [x|e''] eqn:He; simpl.
                 --- discriminate.
                 --- intros H; inversion H; subst. eapply int_or_raises; eauto.
              ** discriminate.
        -- simpl. destruct (groupdict_get pattern m "epoch") as [ep|]; simpl.
           ++ destruct (int_or BadEpoch ep) as [x|e''] eqn:He; simpl.
              ** discriminate.
              ** intros H; inversion H; subst. eapply int_or_raises; eauto.
           ++ discriminate.
      * intros H. inversion H. eauto.
    + simpl. intros H. inversion H. eauto.
  - simpl. intros H. inversion H. eauto.
Qed.

Lemma match_one_no_match (pattern : regex) (source : pystr) :
  re_search pattern source = None ->
  _match_version_pattern pattern [source] true = Raise (ValueError (NoMatchLatest source)).
Proof.
  intros H. unfold _match_version_pattern. simpl. rewrite H. reflexivity.
Qed.

(** C10, as the code has it. [Version.parse] returns a version for every
    string and every pattern but one case: when the pattern matches and the
    part of the metadata taken for the distance has more digits than
    [int_max_str_digits], the [int] of the distance, which is outside the
    [try], raises a [ValueError]. When the pattern does not match the string
    (with its ["v"] in front), the version has the whole string as [base],
    distance 0 and no other field set. *)
Theorem C10_parse_outcome :
  forall (pattern : regex) (version : pystr),
    ((exists v, Version.parse version pattern = Ok v) \/
     Version.parse version pattern = Raise (ValueError ExceedsLimit)) /\
    (Version.parse version pattern = Raise (ValueError ExceedsLimit) <->
     exists mp, _match_version_pattern pattern [prefixed version] true = Ok mp /\
                distance_readable mp = false) /\
    (re_search pattern (prefixed version) = None ->
     Version.parse version pattern =
       Ok (Version.Make version None None 0 None None None None None None)).
Proof.
  intros pattern version.
  assert (Hcases :
    match _match_version_pattern pattern [prefixed version] true with
    | Ok mp => Version.parse version pattern =
                 if distance_readable mp then Ok (decomposed mp)
                 else Raise (ValueError ExceedsLimit)
    | Raise _ => Version.parse version pattern = Ok (Version.of_base version)
    end).
  { destruct (_match_version_pattern pattern [prefixed version] true) as [mp|e] eqn:H.
    - apply parse_of_match. exact H.
    - destruct (match_one_raises _ _ _ H) as (m & ->).
      unfold Version.parse. fold (prefixed version). rewrite H. reflexivity. }
  split; [|split].
  - destruct (_match_version_pattern pattern [prefixed version] true) as [mp|e].
    + rewrite Hcases. destruct (distance_readable mp); [left; eauto | right; reflexivity].
    + left. eauto.
  - destruct (_match_version_pattern pattern [prefixed version] true) as [mp|e].
    + rewrite Hcases. destruct (distance_readable mp) eqn:Hd; split.
      * discriminate.
      * intros (mp' & Hmp & Hr). inversion Hmp; subst mp'. congruence.
      * intros _. exists mp. auto.
      * reflexivity.
    + rewrite Hcases. split; [discriminate|]. intros (mp & Hmp & _). discriminate Hmp.
  - intros Hs. unfold Version.parse. fold (prefixed version).
    rewrite (match_one_no_match _ _ Hs). reflexivity.
Qed.

(** C10, as stated, fails: [Version.parse] is not total. On a version
    whose metadata is a distance of 4301 digits the default pattern matches
    and the [int] of the distance raises. *)
Lemma C10_counterexample :
  ~ (forall (pattern : regex) (version : pystr),
        exists v, Version.parse version pattern = Ok v).
Proof.
  intros H.
  destruct (H VERSION_SOURCE_PATTERN (lit "1.0.0+" ++ repeat "1"%char 4301)) as (v & Hv).
  vm_compute in Hv. discriminate Hv.
Qed.

(** ** [check_version] for SemVer *)

Lemma split_max1_head f (s : pystr) :
  exists r, split_by f (Some 1%nat) s = take_while (fun c => negb (f c)) s :: r.
Proof.
  induction s as [|c t IH]; simpl.
  - eexists; reflexivity.
  - destruct (f c); simpl.
    + eexists; reflexivity.
    + destruct IH as (r & ->). eexists; reflexivity.
Qed.

Lemma getitem_head {A} (x : A) (l : list A) : getitem (x :: l) 0 = Ok x.
Proof.
  unfold getitem.
  assert (H : norm_index (length (x :: l)) 0 = Some 0%nat).
  { apply norm_index_spec. left. simpl length. lia. }
  rewrite H. reflexivity.
Qed.

Lemma re_split_chr f (s : pystr) :
  forall fuel p cur,
    (length s < fuel)%nat ->
    re_split_from (Chr f) fuel p cur s =
      match split_by f None s with
      | h :: r => (rev cur ++ h) :: r
      | [] => []
      end.
Proof.
  induction s as [|c t IH]; intros fuel p cur Hf;
    (destruct fuel as [|fuel]; [simpl in Hf; lia|]).
  - simpl. rewrite app_nil_r. reflexivity.
  - simpl in Hf.
    change (re_split_from (Chr f) (S fuel) p cur (c :: t))
      with (match (if f c then accept (MState (S p) t []) else None) with
            | Some m =>
                if Nat.ltb p (pos m)
                then rev cur :: re_split_from (Chr f) fuel (pos m) [] (rest m)
                else re_split_from (Chr f) fuel (S p) (c :: cur) t
            | None => re_split_from (Chr f) fuel (S p) (c :: cur) t
            end).
    simpl split_by. destruct (f c).
    + unfold accept. cbn [pos rest].
      assert (Hlt : Nat.ltb p (S p) = true) by (apply Nat.ltb_lt; lia).
      rewrite Hlt. rewrite IH by lia.
      destruct (split_by f None t) as [|h r] eqn:E.
      * exfalso. exact (split_by_not_nil _ _ _ E).
      * rewrite app_nil_r. reflexivity.
    + rewrite IH by lia.
      destruct (split_by f None t) as [|h r] eqn:E.
      * exfalso. exact (split_by_not_nil _ _ _ E).
      * simpl rev. rewrite <- app_assoc. reflexivity.
Qed.

Lemma re_split_dot_or_dash (s : pystr) :
  re_split DOT_OR_DASH s = split_by is_dot_dash None s.
Proof.
  unfold re_split, DOT_OR_DASH. rewrite re_split_chr by lia.
  destruct (split_by is_dot_dash None s); reflexivity.
Qed.

(** A pattern that starts with [^] can only match at the start. *)
Lemma search_from_bol (r : regex) (s : pystr) :
  forall p, (0 < p)%nat -> search_from (Bol +++ r) p s = None.
Proof.
  induction s as [|c t IH]; intros p Hp; simpl;
    (destruct (Nat.eqb_spec p 0); [lia|]); [reflexivity|].
  apply IH. lia.
Qed.

Lemma re_search_bol (r : regex) (s : pystr) :
  re_search (Bol +++ r) s = mt r accept (MState 0 s []).
Proof.
  unfold re_search. destruct s as [|c t]; simpl.
  - destruct (mt r accept _); reflexivity.
  - destruct (mt r accept _); [reflexivity|]. apply search_from_bol. lia.
Qed.

Lemma eol_accepts p (zs : pystr) c m :
  mt Eol accept (MState p zs c) = Some m -> zs = [] \/ zs = ["010"%char].
Proof.
  simpl. destruct zs as [|x [|y zs]]; [auto| |discriminate].
  destruct (N.eqb_spec (code x) 10) as [E|E]; [|discriminate].
  intros _. right. f_equal.
  unfold code in E. apply (f_equal ascii_of_N) in E. rewrite ascii_N_embedding in E.
  exact E.
Qed.

Lemma newline_not_digit : is_digit "010"%char = false.
Proof. reflexivity. Qed.

Lemma leading_zero_matches (seg : pystr) :
  matches LEADING_ZERO seg = true <-> leading_zero_number seg.
Proof.
  unfold matches, LEADING_ZERO. rewrite re_search_bol.
  change (mt (Chr (is_char "0") +++ Plus (Chr is_digit) +++ Eol) accept (MState 0 seg []))
    with (match seg with
          | c :: t =>
              if is_char "0" c
              then mt (Plus (Chr is_digit)) (mt Eol accept) (MState 1 t [])
              else None
          | [] => None
          end).
  split.
  - destruct seg as [|c t]; [discriminate|].
    unfold is_char. destruct (Ascii.eqb c "0") eqn:Hc; [|discriminate].
    apply Ascii.eqb_eq in Hc. subst c.
    rewrite mt_plus_chr. destruct t as [|x t]; [discriminate|].
    destruct (is_digit x) eqn:Hx; [|discriminate].
    destruct (star_chr is_digit (mt Eol accept) 2 t []) as [m|] eqn:E; [|discriminate].
    intros _. destruct (star_chr_inv _ _ _ _ _ _ E) as (ys & zs & -> & Hys & Hk).
    exists (x :: ys). split; [simpl; rewrite Hx, Hys; reflexivity|].
    destruct (eol_accepts _ _ _ _ Hk) as [->| ->]; [left|right].
    + rewrite app_nil_r. reflexivity.
    + reflexivity.
  - intros (ds & Hnum & Hseg).
    apply numeric_digits in Hnum. destruct Hnum as [Hne Hd].
    assert (Hgo : forall zs, stops is_digit zs = true ->
                   mt Eol accept (MState (1 + length ds) zs []) <> None ->
                   is_some (mt (Plus (Chr is_digit)) (mt Eol accept)
                              (MState 1 (ds ++ zs) [])) = true).
    { intros zs Hz Hk.
      pose proof (plus_chr_greedy is_digit (mt Eol accept) (fun _ => True) ds 1 zs []
                    Hne Hd Hz) as H.
      destruct (mt Eol accept (MState (1 + length ds) zs [])); [|congruence].
      specialize (H I). destruct (mt (Plus (Chr is_digit)) _ _); [reflexivity|destruct H]. }
    destruct Hseg as [->| ->]; unfold is_char; rewrite Ascii.eqb_refl.
    + rewrite <- (app_nil_r ds). apply Hgo; [reflexivity | discriminate].
    + apply Hgo; [reflexivity | discriminate].
Qed.

Lemma check_version_semver (version : pystr) :
  check_version version SemVer =
    match re_search _VALID_SEMVER version with
    | None => Raise (ValueError (NotConforming version SemVer))
    | Some _ =>
        if existsb (matches LEADING_ZERO) (split_by is_dot_dash None (before_plus version))
        then Raise (ValueError (NotConforming version SemVer))
        else Ok tt
    end.
Proof.
  unfold check_version. simpl style_pattern.
  destruct (re_search _VALID_SEMVER version); [|reflexivity].
  simpl Style_eqb. cbv iota. unfold str_split_max.
  destruct (split_max1_head (is_char "+") version) as (r & ->).
  rewrite getitem_head. cbn [bind]. rewrite re_split_dot_or_dash.
  reflexivity.
Qed.

(** C6. [check_version] for SemVer fails exactly when the string does not
    match the SemVer grammar or, once everything before the first ["+"] is
    split on ["."] and ["-"], some segment matches [^0[0-9]+$], that is, is a
    ["0"] followed by digits. ["1.2.3-01"] fails and ["1.2.3-1"] passes. *)
Theorem C6_semver_leading_zero :
  forall version : pystr,
    (check_version version SemVer = Raise (ValueError (NotConforming version SemVer)) <->
     re_search _VALID_SEMVER version = None \/ has_leading_zero version) /\
    (check_version version SemVer = Ok tt <->
     ~ (re_search _VALID_SEMVER version = None \/ has_leading_zero version)) /\
    (forall seg, matches LEADING_ZERO seg = true <-> leading_zero_number seg) /\
    check_version (lit "1.2.3-01") SemVer
      = Raise (ValueError (NotConforming (lit "1.2.3-01") SemVer)) /\
    check_version (lit "1.2.3-1") SemVer = Ok tt.
Proof.
  intros version.
  assert (Hex : existsb (matches LEADING_ZERO)
                  (split_by is_dot_dash None (before_plus version)) = true
                <-> has_leading_zero version).
  { unfold has_leading_zero. rewrite existsb_exists. tauto. }
  rewrite check_version_semver.
  split; [|split; [|split; [exact leading_zero_matches | split; reflexivity]]].
  - destruct (re_search _VALID_SEMVER version) as [m|].
    + destruct (existsb _ _) eqn:E.
      * split; [intros _; right; apply Hex; reflexivity | reflexivity].
      * split; [discriminate|]. intros [H|H]; [discriminate|].
        apply Hex in H. discriminate.
    + split; [auto | reflexivity].
  - destruct (re_search _VALID_SEMVER version) as [m|].
    + destruct (existsb _ _) eqn:E.
      * split; [discriminate|]. intros H. exfalso. apply H. right. apply Hex. reflexivity.
      * split; [|reflexivity]. intros _ [H|H]; [discriminate|].
        apply Hex in H. discriminate.
    + split; [discriminate|]. intros H. exfalso. apply H. left. reflexivity.
Qed.

(** ** The matcher, one construct at a time *)

Lemma mt_seq a b k s : mt (a +++ b) k s = mt a (mt b k) s.
Proof. reflexivity. Qed.

Lemma mt_chr f k p x t c :
  mt (Chr f) k (MState p (x :: t) c) = if f x then k (MState (S p) t c) else None.
Proof. reflexivity. Qed.

Lemma mt_chr_nil f k p c : mt (Chr f) k (MState p [] c) = None.
Proof. reflexivity. Qed.

Lemma mt_opt a k s :
  mt (Opt a) k s = match mt a k s with Some m => Some m | None => k s end.
Proof. reflexivity. Qed.

Lemma mt_alt a b k s :
  mt (Alt a b) k s = match mt a k s with Some m => Some m | None => mt b k s end.
Proof. reflexivity. Qed.

Lemma mt_group i nm a k s :
  mt (Group i nm a) k s =
    mt a (fun s' => k (set_cap i (firstn (pos s' - pos s) (rest s)) s')) s.
Proof. reflexivity. Qed.

Lemma mt_star a k s :
  mt (Star a) k s = star_loop (mt a) k (S (length (rest s))) s.
Proof. reflexivity. Qed.

Lemma mt_bol k r c : mt Bol k (MState 0 r c) = k (MState 0 r c).
Proof. reflexivity. Qed.

Lemma mt_eol_nil k p c : mt Eol k (MState p [] c) = k (MState p [] c).
Proof. reflexivity. Qed.

Lemma star_loop_S step k fuel s :
  star_loop step k (S fuel) s =
    match step (fun s' =>
                  if Nat.ltb (length (rest s')) (length (rest s))
                  then star_loop step k fuel s' else None) s with
    | Some m => Some m
    | None => k s
    end.
Proof. reflexivity. Qed.

Lemma yields_opt_taken a k s Q : yields Q (mt a k s) -> yields Q (mt (Opt a) k s).
Proof. rewrite mt_opt. destruct (mt a k s); [auto | intros []]. Qed.

Lemma yields_opt_skipped a k s Q :
  mt a k s = None -> yields Q (k s) -> yields Q (mt (Opt a) k s).
Proof. intros H. rewrite mt_opt, H. auto. Qed.

Lemma yields_alt_left a b k s Q : yields Q (mt a k s) -> yields Q (mt (Alt a b) k s).
Proof. rewrite mt_alt. destruct (mt a k s); [auto | intros []]. Qed.

Lemma yields_alt_right a b k s Q :
  mt a k s = None -> yields Q (mt b k s) -> yields Q (mt (Alt a b) k s).
Proof. intros H. rewrite mt_alt, H. auto. Qed.

Lemma yields_some Q o : yields Q o -> exists m, o = Some m /\ Q m.
Proof. destruct o as [m|]; [eauto | intros []]. Qed.

(** ** Dotted numbers: [\d+(\.\d+)*] *)

Lemma agree_but_refl g c : agree_but g c c.
Proof. intros i _. reflexivity. Qed.

Lemma agree_but_drop g x c c' : agree_but g ((g, x) :: c) c' -> agree_but g c c'.
Proof.
  intros H i Hi. rewrite (H i Hi). simpl.
  destruct (Nat.eqb_spec i g); [congruence | reflexivity].
Qed.

Lemma dotted_tail_stops_digit groups t :
  base_stops t = true -> stops is_digit (dotted_tail groups ++ t) = true.
Proof.
  destruct groups as [|g groups]; simpl.
  - destruct t as [|c t]; simpl; [reflexivity|].
    intros H. apply andb_prop in H. tauto.
  - reflexivity.
Qed.

(** One more round of [(\.\d+)] fails where the base stops. *)
Lemma dot_digits_fails g nm k p t c :
  base_stops t = true ->
  mt (Group g nm (Chr (is_char ".") +++ digits)) k (MState p t c) = None.
Proof.
  intros H. rewrite mt_group, mt_seq.
  destruct t as [|x t]; [reflexivity|].
  rewrite mt_chr. destruct (is_char "." x) eqn:Hx; [|reflexivity].
  unfold digits. rewrite mt_plus_chr.
  simpl in H. rewrite Hx in H. simpl in H.
  apply andb_prop in H. destruct H as [_ H].
  destruct t as [|y t]; [reflexivity|].
  simpl in H. apply negb_true_iff in H. rewrite H. reflexivity.
Qed.

Lemma star_dotted g nm k Q (groups : list pystr) :
  forall p c fuel t,
    forallb numeric groups = true ->
    base_stops t = true ->
    (length (dotted_tail groups ++ t) < fuel)%nat ->
    (forall c', agree_but g c c' ->
                yields Q (k (MState (p + length (dotted_tail groups)) t c'))) ->
    yields Q (star_loop (mt (Group g nm (Chr (is_char ".") +++ digits))) k fuel
                (MState p (dotted_tail groups ++ t) c)).
Proof.
  induction groups as [|g1 groups IH]; intros p c fuel t Hnum Ht Hfuel Hk;
    (destruct fuel as [|fuel]; [simpl in Hfuel; lia|]); rewrite star_loop_S.
  - simpl app. rewrite dot_digits_fails by exact Ht.
    specialize (Hk c (agree_but_refl g c)). simpl in Hk.
    rewrite Nat.add_0_r in Hk. exact Hk.
  - simpl in Hnum. apply andb_prop in Hnum. destruct Hnum as [Hg1 Hnum].
    apply numeric_digits in Hg1. destruct Hg1 as [Hne Hd].
    change (dotted_tail (g1 :: groups) ++ t)
      with ("."%char :: (g1 ++ dotted_tail groups) ++ t) in *.
    rewrite <- app_assoc in *.
    match goal with
    | |- yields Q (match ?o with Some m => Some m | None => _ end) =>
        assert (Hstep : yields Q o); [|destruct o; [exact Hstep | destruct Hstep]]
    end.
    rewrite mt_group, mt_seq, mt_chr. cbn [is_char Ascii.eqb]. 
    change (is_char "." "."%char) with true. cbv iota.
    unfold digits. apply plus_chr_greedy;
      [exact Hne | exact Hd | apply dotted_tail_stops_digit; exact Ht |].
    cbn [pos rest caps set_cap].
    assert (Hlt : Nat.ltb (length (dotted_tail groups ++ t))
                    (length ("."%char :: g1 ++ dotted_tail groups ++ t)) = true).
    { apply Nat.ltb_lt. simpl. rewrite !length_app. lia. }
    rewrite Hlt.
    apply IH; [exact Hnum | exact Ht | |].
    + simpl in Hfuel. rewrite !length_app in Hfuel. rewrite length_app. lia.
    + intros c' Hc'. apply agree_but_drop in Hc'. cbn [pos rest caps] in *.
      specialize (Hk c' Hc').
      replace (S p + length g1 + length (dotted_tail groups))%nat
        with (p + length ("."%char :: g1 ++ dotted_tail groups))%nat
        by (simpl; rewrite length_app; lia).
      exact Hk.
Qed.

Lemma join_dotted (g1 : pystr) (groups : list pystr) :
  str_join (lit ".") (g1 :: groups) = g1 ++ dotted_tail groups.
Proof.
  revert g1. induction groups as [|g2 groups IH]; intros g1.
  - simpl. rewrite app_nil_r. reflexivity.
  - change (str_join (lit ".") (g1 :: g2 :: groups))
      with (g1 ++ "."%char :: str_join (lit ".") (g2 :: groups)).
    rewrite IH. reflexivity.
Qed.

(** A dotted number is matched whole when the match can go on after it. *)
Lemma dotted_greedy g nm k Q (g1 : pystr) (groups : list pystr) p c t :
  forallb numeric (g1 :: groups) = true ->
  base_stops t = true ->
  (forall c', agree_but g c c' ->
              yields Q (k (MState (p + length (str_join (lit ".") (g1 :: groups))) t c'))) ->
  yields Q (mt (digits +++ Star (Group g nm (Chr (is_char ".") +++ digits))) k
              (MState p (str_join (lit ".") (g1 :: groups) ++ t) c)).
Proof.
  intros Hnum Ht Hk. rewrite join_dotted in *. rewrite <- app_assoc.
  simpl in Hnum. apply andb_prop in Hnum. destruct Hnum as [Hg1 Hnum].
  apply numeric_digits in Hg1. destruct Hg1 as [Hne Hd].
  rewrite mt_seq. unfold digits at 1.
  apply plus_chr_greedy;
    [exact Hne | exact Hd | apply dotted_tail_stops_digit; exact Ht |].
  rewrite mt_star. cbn [rest].
  apply star_dotted; [exact Hnum | exact Ht | lia |].
  intros c' Hc'. specialize (Hk c' Hc').
  rewrite length_app in Hk. rewrite Nat.add_assoc in Hk. exact Hk.
Qed.

(** ** What [_VALID_PEP440] accepts *)

Lemma digit_not_bang c : is_digit c = true -> is_char "!" c = false.
Proof. by_cases_on_char c. Qed.

(** Digits that no ["!"] follows: a continuation that needs the ["!"]
    fails after every run of them. *)
Lemma digits_without_bang (K : cont) (ds t : pystr) p c :
  forallb is_digit ds = true ->
  stops is_digit t = true -> stops (is_char "!") t = true ->
  (forall s, stops (is_char "!") (rest s) = true -> K s = None) ->
  mt digits K (MState p (ds ++ t) c) = None.
Proof.
  intros Hd Ht Hb HK. unfold digits. rewrite mt_plus_chr.
  destruct ds as [|x xs].
  - simpl. destruct t as [|y t]; [reflexivity|].
    simpl in Ht. apply negb_true_iff in Ht. rewrite Ht. reflexivity.
  - simpl in Hd. apply andb_prop in Hd. destruct Hd as [Hx Hxs].
    cbn [app]. rewrite Hx.
    apply star_chr_none; [exact Hxs | exact Ht |].
    intros ys zs E. apply HK. cbn [rest].
    destruct zs as [|z zs]; [exact Hb|].
    simpl. rewrite digit_not_bang; [reflexivity|].
    rewrite forallb_forall in Hxs. apply Hxs. rewrite E.
    apply in_or_app. right. left. reflexivity.
Qed.

Lemma needs_bang (k : cont) (s : mstate) :
  stops (is_char "!") (rest s) = true -> mt (Chr (is_char "!")) k s = None.
Proof.
  destruct s as [p [|x t] c]; [reflexivity|].
  simpl stops. intros H. apply negb_true_iff in H.
  rewrite mt_chr, H. reflexivity.
Qed.

Ltac hit_char :=
  rewrite ?mt_seq;
  match goal with
  | |- context [mt (Chr ?f) ?k (MState ?p (?x :: ?t) ?c)] =>
      rewrite (mt_chr f k p x t c);
      let b := eval vm_compute in (f x) in
      change (f x) with b; cbv iota
  end.

Ltac spell := unfold word, lit; cbn [list_ascii_of_string app].

Lemma pep440_post_stops_digit post dev : stops is_digit (pep440_post post dev) = true.
Proof. destruct post; destruct dev; reflexivity. Qed.

Lemma pep440_dev_stops_digit dev : stops is_digit (pep440_dev dev) = true.
Proof. destruct dev; reflexivity. Qed.

Lemma pep440_tail_stops pre post dev :
  match pre with
  | Some (label, ds) => In label pep440_labels
  | None => True
  end ->
  base_stops (pep440_tail pre post dev) = true /\
  stops (is_char "!") (pep440_tail pre post dev) = true.
Proof.
  destruct pre as [[label ds]|]; simpl.
  - intros [<-|[<-|[<-|[]]]]; split; reflexivity.
  - intros _. destruct post; destruct dev; split; reflexivity.
Qed.

(** [(\.dev\d+)?] *)
Lemma pep440_dev_part (k : cont) Q (dev : option pystr) i p c :
  opt_numeric dev = true ->
  (forall q c', yields Q (k (MState q [] c'))) ->
  yields Q (mt (Opt (Group i None (word (lit ".dev") +++ digits))) k
              (MState p (pep440_dev dev) c)).
Proof.
  intros Hdev Hk.
  destruct dev as [ds|]; cbn [pep440_dev].
  - apply yields_opt_taken. rewrite mt_group. spell.
    do 4 hit_char. cbn [pos rest].
    simpl in Hdev. apply numeric_digits in Hdev. destruct Hdev as [Hne Hd].
    rewrite <- (app_nil_r ds). unfold digits.
    apply plus_chr_greedy; [exact Hne | exact Hd | reflexivity |].
    apply Hk.
  - apply yields_opt_skipped; [reflexivity | apply Hk].
Qed.

(** [(\.post\d+)?] *)
Lemma pep440_post_part (k : cont) Q (post dev : option pystr) i p c :
  opt_numeric post = true ->
  (forall q c', yields Q (k (MState q (pep440_dev dev) c'))) ->
  yields Q (mt (Opt (Group i None (word (lit ".post") +++ digits))) k
              (MState p (pep440_post post dev) c)).
Proof.
  intros Hpost Hk.
  destruct post as [ds|]; cbn [pep440_post].
  - apply yields_opt_taken. rewrite mt_group. spell.
    do 5 hit_char. cbn [pos rest].
    simpl in Hpost. apply numeric_digits in Hpost. destruct Hpost as [Hne Hd].
    unfold digits.
    apply plus_chr_greedy;
      [exact Hne | exact Hd | apply pep440_dev_stops_digit |].
    apply Hk.
  - apply yields_opt_skipped; [destruct dev; reflexivity | apply Hk].
Qed.

(** [((a|b|rc)\d+)?] *)
Lemma pep440_stage_part (k : cont) Q (pre : option (pystr * pystr))
  (post dev : option pystr) i j p c :
  match pre with
  | Some (label, ds) => In label pep440_labels /\ numeric ds = true
  | None => True
  end ->
  (forall q c', yields Q (k (MState q (pep440_post post dev) c'))) ->
  yields Q (mt (Opt (Group i None
                  (Group j None
                     (Alt (word (lit "a")) (Alt (word (lit "b")) (word (lit "rc")))) +++
                   digits))) k
              (MState p (pep440_tail pre post dev) c)).
Proof.
  intros Hpre Hk.
  destruct pre as [[label ds]|]; cbn [pep440_tail].
  - destruct Hpre as [Hl Hnum].
    apply numeric_digits in Hnum. destruct Hnum as [Hne Hd].
    apply yields_opt_taken. rewrite mt_group, mt_seq, mt_group. spell.
    destruct Hl as [<-|[<-|[<-|[]]]]; spell.
    + apply yields_alt_left. hit_char. cbn [pos rest set_cap caps]. unfold digits.
      apply plus_chr_greedy;
        [exact Hne | exact Hd | apply pep440_post_stops_digit |].
      apply Hk.
    + apply yields_alt_right; [reflexivity|].
      apply yields_alt_left. hit_char. cbn [pos rest set_cap caps]. unfold digits.
      apply plus_chr_greedy;
        [exact Hne | exact Hd | apply pep440_post_stops_digit |].
      apply Hk.
    + apply yields_alt_right; [reflexivity|].
      apply yields_alt_right; [reflexivity|].
      do 2 hit_char. cbn [pos rest set_cap caps]. unfold digits.
      apply plus_chr_greedy;
        [exact Hne | exact Hd | apply pep440_post_stops_digit |].
      apply Hk.
  - apply yields_opt_skipped; [destruct post; destruct dev; reflexivity | apply Hk].
Qed.

(** A release, with an optional stage, post-release and development number,
    is a PEP 440 version. *)
Lemma pep440_accepts (g1 : pystr) (groups : list pystr) (pre : option (pystr * pystr))
  (post dev : option pystr) :
  forallb numeric (g1 :: groups) = true ->
  match pre with
  | Some (label, ds) => In label pep440_labels /\ numeric ds = true
  | None => True
  end ->
  opt_numeric post = true -> opt_numeric dev = true ->
  matches _VALID_PEP440 (str_join (lit ".") (g1 :: groups) ++ pep440_tail pre post dev) = true.
Proof.
  intros Hnum Hpre Hpost Hdev.
  assert (Hstop : base_stops (pep440_tail pre post dev) = true /\
                  stops (is_char "!") (pep440_tail pre post dev) = true).
  { apply pep440_tail_stops. destruct pre as [[label ds]|]; tauto. }
  destruct Hstop as [Hbs Hbang].
  unfold matches, _VALID_PEP440. rewrite re_search_bol.
  match goal with
  | |- is_some ?o = true =>
      assert (H : yields (fun _ => True) o); [|destruct o; [reflexivity | destruct H]]
  end.
  rewrite mt_seq.
  apply yields_opt_skipped.
  { rewrite mt_group, mt_seq, join_dotted, <- app_assoc.
    pose proof Hnum as Hnum'. simpl in Hnum'. apply andb_prop in Hnum'.
    destruct Hnum' as [Hg1 _]. apply numeric_digits in Hg1.
    apply digits_without_bang; [tauto | | |].
    - apply dotted_tail_stops_digit. exact Hbs.
    - destruct groups; [exact Hbang | reflexivity].
    - intros s Hs. apply needs_bang. exact Hs. }
  change (mt (digits +++ Star (Group 2 None (Chr (is_char ".") +++ digits)) +++ ?R) accept ?s)
    with (mt (digits +++ Star (Group 2 None (Chr (is_char ".") +++ digits))) (mt R accept) s).
  apply dotted_greedy; [exact Hnum | exact Hbs |].
  intros c' _. rewrite mt_seq.
  apply pep440_stage_part; [exact Hpre|].
  intros q c''. rewrite mt_seq.
  apply pep440_post_part; [exact Hpost|].
  intros q' c3. rewrite mt_seq.
  apply pep440_dev_part; [exact Hdev|].
  intros q'' c4. exact I.
Qed.

(** ** [serialize_pep440] on well-formed input *)

Lemma dotted_numeric_groups (base : pystr) :
  dotted_numeric base = true ->
  exists g1 groups, base = str_join (lit ".") (g1 :: groups) /\
                    forallb numeric (g1 :: groups) = true.
Proof.
  unfold dotted_numeric. intros H.
  pose proof (join_split "." base) as Hj.
  destruct (str_split "." base) as [|g1 groups] eqn:E.
  - exfalso. exact (split_by_not_nil _ _ _ E).
  - exists g1, groups. split; [symmetry; exact Hj | exact H].
Qed.

Lemma check_version_pep440 (s : pystr) :
  matches _VALID_PEP440 s = true -> check_version s Pep440 = Ok tt.
Proof.
  unfold matches, check_version. simpl style_pattern.
  destruct (re_search _VALID_PEP440 s); [reflexivity | discriminate].
Qed.

Lemma str_eqb_sym (a b : pystr) : str_eqb a b = str_eqb b a.
Proof.
  revert b. induction a as [|x a IH]; intros [|y b]; simpl; try reflexivity.
  rewrite IH, Ascii.eqb_sym. reflexivity.
Qed.

Lemma alias_lookup (stage : pystr) :
  dict_get alternative_stages (str_lower stage) (str_lower stage) = pep440_label stage.
Proof.
  unfold pep440_label, alternative_stages. cbn [dict_get].
  rewrite !(str_eqb_sym (str_lower stage)).
  repeat match goal with
         | |- context [str_eqb ?a ?b] => destruct (str_eqb a b); cbn [orb]; try reflexivity
         end.
Qed.

Lemma opt_str_numeric (o : option Z) : opt_nonneg o = true -> opt_numeric (opt_str o) = true.
Proof.
  destruct o as [z|]; simpl; [|reflexivity].
  intros H. apply str_of_int_numeric. apply Z.leb_le. exact H.
Qed.

(** [str] of the items of a list: all of them, or the error of a number
    that cannot be written. *)
Lemma map_py_str_atoms (l : list atom) :
  map_result py_str l =
    if forallb printable_atom l then Ok (map atom_text l)
    else Raise (ValueError ExceedsLimit).
Proof.
  induction l as [|x l IH]; [reflexivity|].
  cbn [map_result forallb map]. rewrite IH.
  destruct x as [t|z]; cbn [py_str printable_atom atom_text bind andb].
  - destruct (forallb printable_atom l); reflexivity.
  - unfold py_str_int. destruct (printable z); cbn [bind andb]; [|reflexivity].
    destruct (forallb printable_atom l); reflexivity.
Qed.

Lemma join_str_spec (out : list atom) :
  join_str out =
    if forallb printable_atom out then Ok (concat (map atom_text out))
    else Raise (ValueError ExceedsLimit).
Proof.
  unfold join_str. rewrite map_py_str_atoms.
  destruct (forallb printable_atom out); reflexivity.
Qed.

Lemma join_atoms_spec (sep : pystr) (l : list atom) :
  join_atoms sep l =
    if forallb printable_atom l then Ok (str_join sep (map atom_text l))
    else Raise (ValueError ExceedsLimit).
Proof.
  unfold join_atoms. rewrite map_py_str_atoms.
  destruct (forallb printable_atom l); reflexivity.
Qed.

Lemma printable_strs (l : list pystr) : forallb printable_atom (map AStr l) = true.
Proof. induction l as [|x l IH]; [reflexivity | exact IH]. Qed.

Lemma atom_text_strs (l : list pystr) : map atom_text (map AStr l) = l.
Proof. induction l as [|x l IH]; [reflexivity|]. simpl. rewrite IH. reflexivity. Qed.

Lemma extend_joined_none (mark sep : pystr) (l : option (list atom)) :
  nonempty l = None -> extend_joined mark sep l = Ok [].
Proof. intros H. unfold extend_joined. rewrite H. reflexivity. Qed.

(** What [extend_joined] adds for a list of strings. *)
Lemma extend_joined_strs (mark sep : pystr) (l : list pystr) :
  extend_joined mark sep (Some (map AStr l)) = Ok (joined_part mark sep l).
Proof.
  destruct l as [|x l]; [reflexivity|].
  unfold extend_joined, joined_part. cbn [map nonempty].
  change (AStr x :: map AStr l) with (map AStr (x :: l)).
  rewrite join_atoms_spec, printable_strs, atom_text_strs. reflexivity.
Qed.

Lemma printable_joined (mark sep : pystr) (l : list pystr) :
  forallb printable_atom (joined_part mark sep l) = true.
Proof. destruct l; reflexivity. Qed.

Lemma joined_text (mark sep : pystr) (l : list pystr) :
  concat (map atom_text (joined_part mark sep l)) =
    match l with
    | [] => []
    | _ => mark ++ str_join sep l
    end.
Proof. destruct l; [reflexivity|]. cbn [joined_part map concat atom_text]. rewrite app_nil_r. reflexivity. Qed.

(** [serialize_pep440] with strings for metadata: the numbers are
    written, or one of them cannot be. *)
Lemma serialize_pep440_strs (base : pystr) (stage : option pystr)
  (revision post dev epoch : option Z) (meta : list pystr) :
  serialize_pep440 base stage revision post dev epoch (Some (map AStr meta)) =
    let out :=
      opt_atoms epoch (fun e => [AInt e; AStr (lit "!")]) ++
      [AStr base] ++
      opt_atoms stage (fun st =>
        [AStr (dict_get alternative_stages (str_lower st) (str_lower st));
         match revision with
         | None => AInt 0
         | Some r => AInt r
         end]) ++
      opt_atoms post (fun p => [AStr (lit ".post"); AInt p]) ++
      opt_atoms dev (fun d => [AStr (lit ".dev"); AInt d]) ++
      joined_part (lit "+") (lit ".") meta in
    if forallb printable_atom out
    then check_version (concat (map atom_text out)) Pep440 ;;;
         Ok (concat (map atom_text out))
    else Raise (ValueError ExceedsLimit).
Proof.
  unfold serialize_pep440. rewrite extend_joined_strs. cbn [bind].
  rewrite join_str_spec. cbv zeta.
  match goal with
  | |- context [forallb printable_atom ?out] => destruct (forallb printable_atom out)
  end; reflexivity.
Qed.

(** [serialize_semver] and [serialize_pvp] with strings only: nothing to
    write can fail. *)
Lemma serialize_semver_strs (base : pystr) (pre meta : list pystr) :
  serialize_semver base (Some (map AStr pre)) (Some (map AStr meta)) =
    let text := concat (map atom_text ([AStr base] ++ joined_part (lit "-") (lit ".") pre ++
                                       joined_part (lit "+") (lit ".") meta)) in
    check_version text SemVer ;;; Ok text.
Proof.
  unfold serialize_semver. rewrite !extend_joined_strs. cbn [bind].
  rewrite join_str_spec.
  assert (H : forallb printable_atom
                ([AStr base] ++ joined_part (lit "-") (lit ".") pre ++
                 joined_part (lit "+") (lit ".") meta) = true).
  { rewrite !forallb_app, !printable_joined. reflexivity. }
  rewrite H. reflexivity.
Qed.

Lemma serialize_pvp_strs (base : pystr) (meta : list pystr) :
  serialize_pvp base (Some (map AStr meta)) =
    let text := concat (map atom_text ([AStr base] ++ joined_part (lit "-") (lit "-") meta)) in
    check_version text Pvp ;;; Ok text.
Proof.
  unfold serialize_pvp. rewrite extend_joined_strs. cbn [bind].
  rewrite join_str_spec.
  assert (H : forallb printable_atom
                ([AStr base] ++ joined_part (lit "-") (lit "-") meta) = true).
  { rewrite forallb_app, printable_joined. reflexivity. }
  rewrite H. reflexivity.
Qed.

(** A serializer fails with a [ValueError] only. *)
Lemma check_version_raises version style e :
  check_version version style = Raise e -> exists m, e = ValueError m.
Proof.
  unfold check_version. destruct (re_search _ version); [|intros H; inversion H; eauto].
  destruct (Style_eqb style SemVer); [|discriminate].
  destruct (getitem _ 0) as [h|e'] eqn:E; cbn [bind].
  - destruct (existsb _ _); intros H; inversion H. eauto.
  - unfold str_split_max in E. destruct (split_max1_head (is_char "+") version) as (r & Hr).
    rewrite Hr, getitem_head in E. discriminate E.
Qed.

Lemma opt_printable_blank (o : option Z) :
  opt_printable o = true -> printable (_blank o 0) = true.
Proof. destruct o; simpl; [auto | intros _; exact printable_zero]. Qed.

(** The string [serialize_pep440] builds, without epoch and metadata, when
    its numbers can be written. *)
Lemma serialize_pep440_plain (base : pystr) (stage : option pystr)
  (revision post dev : option Z) (metadata : option (list atom)) :
  dotted_numeric base = true ->
  match stage with
  | Some st => In (pep440_label st) pep440_labels /\ opt_nonneg revision = true /\
               opt_printable revision = true
  | None => True
  end ->
  opt_nonneg post = true -> opt_nonneg dev = true ->
  opt_printable post = true -> opt_printable dev = true ->
  nonempty metadata = None ->
  serialize_pep440 base stage revision post dev None metadata =
    Ok (base ++
        pep440_tail
          (option_map (fun st => (pep440_label st, str_of_int (_blank revision 0))) stage)
          (opt_str post) (opt_str dev)).
Proof.
  intros Hbase Hstage Hpost Hdev Hppost Hpdev Hmeta.
  unfold serialize_pep440. rewrite (extend_joined_none _ _ _ Hmeta). cbn [bind].
  rewrite join_str_spec.
  match goal with
  | |- context [forallb printable_atom ?out] =>
      assert (Hpr : forallb printable_atom out = true)
  end.
  { assert (Hrev : stage <> None -> opt_printable revision = true).
    { destruct stage; [intros _; tauto | congruence]. }
    destruct stage as [st|]; destruct post as [p|]; destruct dev as [d|];
      try (specialize (Hrev ltac:(discriminate)));
      try (destruct revision as [r|]);
      cbn [opt_atoms app forallb printable_atom andb opt_printable] in *;
      rewrite ?Hppost, ?Hpdev, ?Hrev, ?printable_zero; reflexivity. }
  rewrite Hpr. cbn [bind].
  match goal with
  | |- (check_version ?s Pep440 ;;; Ok ?s) = Ok ?t =>
      assert (Hs : s = t)
  end.
  { cbn [opt_atoms app].
    destruct stage as [st|]; destruct post as [p|]; destruct dev as [d|];
      cbn [opt_atoms app map concat atom_text option_map pep440_tail pep440_post pep440_dev
           opt_str];
      rewrite ?alias_lookup, ?app_nil_r, <- ?app_assoc;
      try (destruct revision; reflexivity); reflexivity. }
  rewrite Hs.
  destruct (dotted_numeric_groups base Hbase) as (g1 & groups & -> & Hnum).
  rewrite check_version_pep440; [reflexivity|].
  apply pep440_accepts; [exact Hnum | | apply opt_str_numeric; exact Hpost
                         | apply opt_str_numeric; exact Hdev].
  destruct stage as [st|]; simpl; [|exact I].
  destruct Hstage as (Hl & Hr & _). split; [exact Hl|].
  apply str_of_int_numeric.
  destruct revision as [r|]; simpl in *; [apply Z.leb_le; exact Hr | lia].
Qed.





(** ** [Version.serialize] for PEP 440 with a distance *)

Lemma serialize_pep440_checked base stage revision post dev epoch metadata :
  (out <- serialize_pep440 base stage revision post dev epoch metadata ;;
   check_version out Pep440 ;;; Ok out)
  = serialize_pep440 base stage revision post dev epoch metadata.
Proof.
  unfold serialize_pep440.
  destruct (extend_joined (lit "+") (lit ".") metadata) as [meta|e]; [|reflexivity].
  cbn [bind].
  match goal with
  | |- context [join_str ?out] => destruct (join_str out) as [serialized|e]; [|reflexivity]
  end.
  cbn [bind].
  destruct (check_version serialized Pep440) as [[]|e] eqn:E; cbn [bind];
    [rewrite E|]; reflexivity.
Qed.

Lemma stage_is_exclusive (stage : option pystr) :
  stage_is (lit "post") stage = true -> stage_is (lit "dev") stage = false.
Proof.
  destruct stage as [st|]; simpl; [|discriminate].
  intros H. apply str_eqb_eq in H. subst st. reflexivity.
Qed.

(** The parts [Version.serialize] writes for the stage and the revision,
    when the revision can be written. *)
Lemma stage_parts_written (stage : option pystr) (revision : option Z) :
  stage = None \/ opt_printable revision = true ->
  match stage with
  | Some st =>
      match revision with
      | Some r => text <- py_str_int r ;; Ok [st; text]
      | None => Ok [st]
      end
  | None => Ok []
  end =
  Ok (match stage with
      | Some st => st :: match revision with
                         | Some r => [str_of_int r]
                         | None => []
                         end
      | None => []
      end).
Proof.
  intros H. destruct stage as [st|]; [|reflexivity].
  destruct revision as [r|]; [|reflexivity].
  destruct H as [H|H]; [discriminate H|]. cbn [opt_printable] in H.
  rewrite (py_str_int_printable r H). reflexivity.
Qed.

(** The call of [serialize_pep440] that [Version.serialize] makes. *)
Lemma serialize_with_distance (v : Version.t) (metadata : option bool) (dirty tagged : bool) :
  Version.distance v > 0 ->
  printable (Version.distance v) = true ->
  Version.stage v = None \/ opt_printable (Version.revision v) = true ->
  exists meta : list pystr,
    (Version.commit v = None -> metadata = None -> dirty = false -> tagged = false ->
     meta = []) /\
    Version.serialize v metadata dirty None (Some Pep440) false tagged =
      serialize_pep440 (Version.base v) (pep440_stage (Version.stage v))
        (Version.revision v)
        (fst (pep440_post_dev (Version.stage v) (Version.revision v) (Version.distance v)))
        (snd (pep440_post_dev (Version.stage v) (Version.revision v) (Version.distance v)))
        (Version.epoch v) (Some (map AStr meta)).
Proof.
  intros Hd Hpd Hpr. apply Z.gt_lt, Z.gtb_lt in Hd.
  unfold Version.serialize. rewrite Hd. cbn [andb bind fst snd _blank].
  rewrite (stage_parts_written _ _ Hpr), (py_str_int_printable _ Hpd). cbn [bind].
  eexists. split; [|rewrite serialize_pep440_checked; f_equal].
  - intros Hc -> -> ->. rewrite Hc.
    destruct (Version.tagged_metadata v) as [[|x m]|]; reflexivity.
  - unfold pep440_post_dev, stage_is.
    destruct (Version.stage v) as [st|]; [|reflexivity].
    destruct (str_eqb st (lit "post")) eqn:E1.
    + apply str_eqb_eq in E1. subst st.
      destruct (Version.revision v); reflexivity.
    + destruct (str_eqb st (lit "dev")); destruct (Version.revision v); reflexivity.
  - unfold pep440_post_dev, stage_is.
    destruct (Version.stage v) as [st|]; [|reflexivity].
    destruct (str_eqb st (lit "post")) eqn:E1.
    + apply str_eqb_eq in E1. subst st.
      destruct (Version.revision v); reflexivity.
    + destruct (str_eqb st (lit "dev")); destruct (Version.revision v); reflexivity.
Qed.

(** A distance [str] cannot write makes [Version.serialize] raise, in
    every style. *)
Lemma serialize_unwritten_distance (v : Version.t) (metadata : option bool)
  (dirty tagged : bool) (style : option Style) :
  Version.distance v > 0 ->
  printable (Version.distance v) = false ->
  Version.serialize v metadata dirty None style false tagged
    = Raise (ValueError ExceedsLimit).
Proof.
  intros Hd Hpd. apply Z.gt_lt, Z.gtb_lt in Hd.
  unfold Version.serialize. rewrite Hd. cbn [andb bind fst snd].
  unfold py_str_int at 2. rewrite Hpd.
  destruct (Version.stage v) as [st|]; [|reflexivity].
  destruct (Version.revision v) as [r|]; [|reflexivity].
  unfold py_str_int. destruct (printable r); reflexivity.
Qed.

Lemma post_dev_nonneg (stage : option pystr) (revision : option Z) (d : Z) :
  d > 0 ->
  stage = None \/ opt_nonneg revision = true ->
  opt_nonneg (fst (pep440_post_dev stage revision d)) = true /\
  opt_nonneg (snd (pep440_post_dev stage revision d)) = true.
Proof.
  intros Hd [->|Hr].
  - unfold pep440_post_dev. simpl. split; [apply Z.leb_le; lia | reflexivity].
  - unfold pep440_post_dev.
    destruct (stage_is (lit "post") stage); destruct (stage_is (lit "dev") stage);
      destruct revision as [r|]; cbn [fst snd opt_nonneg _blank] in *;
      try apply Z.leb_le in Hr; split; try reflexivity; apply Z.leb_le; lia.
Qed.

Lemma post_dev_printable (stage : option pystr) (revision : option Z) (d : Z) :
  printable d = true ->
  stage = None \/ opt_printable revision = true ->
  opt_printable (snd (pep440_post_dev stage revision d)) = true ->
  opt_printable (fst (pep440_post_dev stage revision d)) = true.
Proof.
  intros Hd Hr _. unfold pep440_post_dev.
  assert (Hs : stage = None -> stage_is (lit "post") stage = false /\
                                stage_is (lit "dev") stage = false)
    by (intros ->; split; reflexivity).
  destruct (stage_is (lit "post") stage) eqn:E1;
    destruct (stage_is (lit "dev") stage) eqn:E2;
    destruct revision as [r|]; cbn [fst snd opt_printable]; try exact Hd; try reflexivity;
    destruct Hr as [Hr|Hr]; try exact Hr; destruct (Hs Hr); discriminate.
Qed.

(** The string [Version.serialize] gives for PEP 440, for a version with a
    distance, no commit and no epoch, all of whose numbers can be
    written. *)
Lemma serialize_distance_string (v : Version.t) :
  Version.distance v > 0 ->
  Version.commit v = None -> Version.epoch v = None ->
  dotted_numeric (Version.base v) = true ->
  match pep440_stage (Version.stage v) with
  | Some st => In (pep440_label st) pep440_labels
  | None => True
  end ->
  Version.stage v = None \/ opt_nonneg (Version.revision v) = true ->
  printable (Version.distance v) = true ->
  Version.stage v = None \/ opt_printable (Version.revision v) = true ->
  let pd := pep440_post_dev (Version.stage v) (Version.revision v) (Version.distance v) in
  opt_printable (snd pd) = true ->
  Version.serialize v None false None (Some Pep440) false false =
    Ok (Version.base v ++
        pep440_tail
          (option_map (fun st => (pep440_label st, str_of_int (_blank (Version.revision v) 0)))
             (pep440_stage (Version.stage v)))
          (opt_str (fst pd)) (opt_str (snd pd))).
Proof.
  intros Hd Hc He Hb Hst Hr Hpd Hpr pd Hsnd.
  destruct (serialize_with_distance v None false false Hd Hpd Hpr) as (meta & Hmeta & ->).
  rewrite (Hmeta Hc eq_refl eq_refl eq_refl), He.
  destruct (post_dev_nonneg _ _ _ Hd Hr) as [Hp Hv].
  pose proof (post_dev_printable _ _ _ Hpd Hpr Hsnd) as Hfst.
  apply serialize_pep440_plain; try assumption; try reflexivity.
  destruct (pep440_stage (Version.stage v)) eqn:E; [|exact I].
  split; [assumption|].
  split.
  - destruct Hr as [Hr|Hr]; [|exact Hr]. rewrite Hr in E. discriminate E.
  - destruct Hpr as [Hpr|Hpr]; [|exact Hpr]. rewrite Hpr in E. discriminate E.
Qed.

(** C4, as the code has it. In PEP 440 style, without bump and with a
    distance above 0 that [str] can write (of at most [int_max_str_digits]
    digits, like the revision of a staged version), [Version.serialize]
    calls [serialize_pep440] with post = distance and dev = 0 when the
    version has neither a post-release nor a development number of its own
    (a ["post"] or ["dev"] stage that carries a revision), and otherwise
    with the distance added to the development number. Without commit and
    epoch the text is the base followed by [.postN.dev0], [.postR.devN] or
    [.dev(R+N)], and [Version("1.0.0", distance=3)] gives
    ["1.0.0.post3.dev0"]. A distance of more digits makes
    [Version.serialize] raise a [ValueError]. *)
Theorem C4_pep440_distance :
  forall v : Version.t,
    Version.distance v > 0 ->
    printable (Version.distance v) = true ->
    Version.stage v = None \/ opt_printable (Version.revision v) = true ->
    let d := Version.distance v in
    let pd := pep440_post_dev (Version.stage v) (Version.revision v) d in
    (forall metadata dirty tagged, exists meta,
        Version.serialize v metadata dirty None (Some Pep440) false tagged =
          serialize_pep440 (Version.base v) (pep440_stage (Version.stage v))
            (Version.revision v) (fst pd) (snd pd) (Version.epoch v)
            (Some (map AStr meta))) /\
    ((Version.revision v = None \/
      (stage_is (lit "post") (Version.stage v) = false /\
       stage_is (lit "dev") (Version.stage v) = false)) ->
     pd = (Some d, Some 0)) /\
    (forall r, stage_is (lit "post") (Version.stage v) = true ->
               Version.revision v = Some r -> pd = (Some r, Some d)) /\
    (forall r, stage_is (lit "dev") (Version.stage v) = true ->
               Version.revision v = Some r -> pd = (None, Some (r + d))) /\
    (Version.commit v = None -> Version.epoch v = None ->
     dotted_numeric (Version.base v) = true ->
     (Version.stage v = None ->
      Version.serialize v None false None (Some Pep440) false false =
        Ok (Version.base v ++ lit ".post" ++ str_of_int d ++ lit ".dev0")) /\
     (forall r, Version.stage v = Some (lit "post") -> Version.revision v = Some r ->
                0 <= r ->
      Version.serialize v None false None (Some Pep440) false false =
        Ok (Version.base v ++ lit ".post" ++ str_of_int r ++ lit ".dev" ++ str_of_int d)) /\
     (forall r, Version.stage v = Some (lit "dev") -> Version.revision v = Some r ->
                0 <= r -> printable (r + d) = true ->
      Version.serialize v None false None (Some Pep440) false false =
        Ok (Version.base v ++ lit ".dev" ++ str_of_int (r + d)))) /\
    (forall (v' : Version.t) metadata dirty tagged style,
        Version.distance v' > 0 -> printable (Version.distance v') = false ->
        Version.serialize v' metadata dirty None style false tagged
          = Raise (ValueError ExceedsLimit)) /\
    Version.serialize (Version.init (lit "1.0.0") None 3 None None None None None None)
      None false None (Some Pep440) false false = Ok (lit "1.0.0.post3.dev0").
Proof.
  intros v Hd Hpd Hpr d pd.
  split; [|split; [|split; [|split; [|split; [|split]]]]].
  - intros metadata dirty tagged.
    destruct (serialize_with_distance v metadata dirty tagged Hd Hpd Hpr) as (meta & _ & H).
    exists meta. exact H.
  - unfold pd, pep440_post_dev. intros [->|[-> ->]]; [|reflexivity].
    destruct (stage_is _ _); destruct (stage_is _ _); reflexivity.
  - intros r Hp Hr. unfold pd, pep440_post_dev.
    rewrite Hp, (stage_is_exclusive _ Hp), Hr. reflexivity.
  - intros r Hp Hr. unfold pd, pep440_post_dev. rewrite Hp, Hr.
    destruct (stage_is (lit "post") (Version.stage v)) eqn:E;
      [rewrite (stage_is_exclusive _ E) in Hp; discriminate | reflexivity].
  - intros Hc He Hb. split; [|split].
    + intros Hs.
      rewrite (serialize_distance_string v Hd Hc He Hb);
        [| rewrite Hs; exact I | left; exact Hs | exact Hpd | exact Hpr
         | rewrite Hs; reflexivity].
      rewrite Hs. reflexivity.
    + intros r Hs Hr Hr0.
      rewrite (serialize_distance_string v Hd Hc He Hb);
        [| rewrite Hs; exact I | right; rewrite Hr; apply Z.leb_le; exact Hr0
         | exact Hpd | exact Hpr | rewrite Hs, Hr; exact Hpd].
      rewrite Hs, Hr. reflexivity.
    + intros r Hs Hr Hr0 Hsum.
      rewrite (serialize_distance_string v Hd Hc He Hb);
        [| rewrite Hs; exact I | right; rewrite Hr; apply Z.leb_le; exact Hr0
         | exact Hpd | exact Hpr | rewrite Hs, Hr; exact Hsum].
      rewrite Hs, Hr. reflexivity.
  - intros v' metadata dirty tagged style Hd' Hp'.
    exact (serialize_unwritten_distance v' metadata dirty tagged style Hd' Hp').
  - vm_compute. reflexivity.
Qed.

Lemma C4_pep440_distance_witness :
  Version.serialize
    (Version.init (lit "2.5") (Some (lit "dev", Some 4)) 3 None None None None None None)
    None false None (Some Pep440) false false = Ok (lit "2.5.dev7").
Proof.
  pose (v := Version.init (lit "2.5") (Some (lit "dev", Some 4)) 3 None None None None
               None None).
  destruct (C4_pep440_distance v eq_refl eq_refl (or_intror eq_refl))
    as (_ & _ & _ & _ & H & _).
  destruct (H eq_refl eq_refl eq_refl) as (_ & _ & Hdev).
  exact (Hdev 4 eq_refl eq_refl ltac:(discriminate) eq_refl).
Defined.

(** ** What [VERSION_SOURCE_PATTERN] finds in a well-formed version string *)

Lemma alpha_not_sep c : is_alpha c = true -> is_sep c = false.
Proof. by_cases_on_char c. Qed.

Lemma alpha_not_digit c : is_alpha c = true -> is_digit c = false.
Proof. by_cases_on_char c. Qed.

Lemma alpha_not_dot c : is_alpha c = true -> is_char "." c = false.
Proof. by_cases_on_char c. Qed.

Lemma alpha_not_bang c : is_alpha c = true -> is_char "!" c = false.
Proof. by_cases_on_char c. Qed.

Lemma sep_not_alpha c : is_sep c = true -> is_alpha c = false.
Proof. by_cases_on_char c. Qed.

Lemma sep_not_digit c : is_sep c = true -> is_digit c = false.
Proof. by_cases_on_char c. Qed.

Lemma sep_not_bang c : is_sep c = true -> is_char "!" c = false.
Proof. by_cases_on_char c. Qed.

Lemma digit_not_sep c : is_digit c = true -> is_sep c = false.
Proof. by_cases_on_char c. Qed.

Lemma digit_not_alpha c : is_digit c = true -> is_alpha c = false.
Proof. by_cases_on_char c. Qed.

Lemma letters_alpha l : letters l = true -> l <> [] /\ forallb is_alpha l = true.
Proof.
  destruct l as [|c t]; simpl; [discriminate|]. intros H. split; [discriminate | exact H].
Qed.

Lemma plus_chr_to_end f k Q (xs : pystr) p c :
  xs <> [] -> forallb f xs = true ->
  yields Q (k (MState (p + length xs) [] c)) ->
  yields Q (mt (Plus (Chr f)) k (MState p xs c)).
Proof.
  intros Hne Hxs Hk.
  pose proof (plus_chr_greedy f k Q xs p [] c Hne Hxs eq_refl Hk) as H.
  rewrite app_nil_r in H. exact H.
Qed.

Lemma firstn_consumed_end {A} (p : nat) (xs : list A) :
  firstn (p + length xs - p) xs = xs.
Proof.
  pose proof (firstn_consumed p xs []) as H. rewrite app_nil_r in H. exact H.
Qed.

Lemma lookup_cap_other i j text c : i <> j -> lookup_cap i ((j, text) :: c) = lookup_cap i c.
Proof. intros H. simpl. destruct (Nat.eqb_spec i j); [congruence | reflexivity]. Qed.

(** [[-._]?(\d+)?] at the end of the string *)
Lemma vsp_rev_part (k : cont) Q nm (rev : option (option ascii * pystr)) p c :
  rev_ok rev = true ->
  (forall q c',
      lookup_cap 8 c' = match rev with
                        | Some (_, ds) => Some ds
                        | None => lookup_cap 8 c
                        end ->
      (forall i, i <> 8%nat -> lookup_cap i c' = lookup_cap i c) ->
      yields Q (k (MState q [] c'))) ->
  yields Q (mt (Opt (Chr is_sep) +++ Opt (Group 8 nm digits)) k (MState p (rev_text rev) c)).
Proof.
  intros Hok Hk. rewrite mt_seq.
  destruct rev as [[sep ds]|]; cbn [rev_text].
  - simpl in Hok. apply andb_prop in Hok. destruct Hok as [Hsep Hnum].
    apply numeric_digits in Hnum. destruct Hnum as [Hne Hd].
    assert (Hdigits : forall p',
               yields Q (mt (Opt (Group 8 nm digits)) k (MState p' ds c))).
    { intros p'. apply yields_opt_taken. rewrite mt_group. unfold digits.
      apply plus_chr_to_end; [exact Hne | exact Hd |].
      cbn [set_cap pos rest caps]. rewrite firstn_consumed_end.
      apply Hk; [apply lookup_cap_head | intros i Hi; apply lookup_cap_other; exact Hi]. }
    destruct sep as [x|]; cbn [sep_text app].
    + apply yields_opt_taken. rewrite mt_chr. simpl in Hsep. rewrite Hsep. apply Hdigits.
    + apply yields_opt_skipped; [|apply Hdigits].
      destruct ds as [|d ds]; [congruence|].
      simpl in Hd. apply andb_prop in Hd. destruct Hd as [Hd0 _].
      rewrite mt_chr, (digit_not_sep d Hd0). reflexivity.
  - cbn [sep_text app]. apply (Hk p c); [reflexivity | reflexivity].
Qed.

Lemma rev_text_stops_alpha rev : rev_ok rev = true -> stops is_alpha (rev_text rev) = true.
Proof.
  destruct rev as [[[x|] ds]|]; simpl; intros H; try reflexivity.
  - apply andb_prop in H. destruct H as [H _]. rewrite (sep_not_alpha x H). reflexivity.
  - apply numeric_digits in H. destruct H as [Hne Hd].
    destruct ds as [|d ds]; [congruence|].
    simpl in Hd. apply andb_prop in Hd. destruct Hd as [Hd0 _].
    simpl. rewrite (digit_not_alpha d Hd0). reflexivity.
Qed.

(** [([-._]?(([a-zA-Z]+)[-._]?(\d+)?))?] at the end of the string *)
Lemma vsp_stage_part (k : cont) Q
  (st : option (option ascii * pystr * option (option ascii * pystr))) p c :
  stage_ok st = true ->
  (forall q c',
      lookup_cap 7 c' = match st with
                        | Some (_, l, _) => Some l
                        | None => lookup_cap 7 c
                        end ->
      lookup_cap 8 c' = match st with
                        | Some (_, _, Some (_, ds)) => Some ds
                        | _ => lookup_cap 8 c
                        end ->
      (forall i, i <> 5%nat -> i <> 6%nat -> i <> 7%nat -> i <> 8%nat ->
                 lookup_cap i c' = lookup_cap i c) ->
      yields Q (k (MState q [] c'))) ->
  yields Q
    (mt (Opt (Group 5 None
           (Opt (Chr is_sep) +++
            Group 6 None
              (Group 7 (Some "stage"%string) (Plus (Chr is_alpha)) +++
               Opt (Chr is_sep) +++
               Opt (Group 8 (Some "revision"%string) digits))))) k
       (MState p (stage_text st) c)).
Proof.
  intros Hok Hk.
  destruct st as [[[sep l] rev]|]; cbn [stage_text].
  - simpl in Hok. apply andb_prop in Hok. destruct Hok as [Hok Hrev].
    apply andb_prop in Hok. destruct Hok as [Hsep Hl].
    apply letters_alpha in Hl. destruct Hl as [Hne Hal].
    apply yields_opt_taken. rewrite mt_group, mt_seq.
    assert (Hletters : forall p' k',
               (forall q c',
                   lookup_cap 7 c' = Some l ->
                   lookup_cap 8 c' = match rev with
                                     | Some (_, ds) => Some ds
                                     | None => lookup_cap 8 c
                                     end ->
                   (forall i, i <> 6%nat -> i <> 7%nat -> i <> 8%nat ->
                              lookup_cap i c' = lookup_cap i c) ->
                   yields Q (k' (MState q [] c'))) ->
               yields Q
                 (mt (Group 6 None
                        (Group 7 (Some "stage"%string) (Plus (Chr is_alpha)) +++
                         Opt (Chr is_sep) +++
                         Opt (Group 8 (Some "revision"%string) digits))) k'
                    (MState p' (l ++ rev_text rev) c))).
    { intros p' k' Hk'. rewrite mt_group, mt_seq, mt_group.
      apply plus_chr_greedy;
        [exact Hne | exact Hal | apply rev_text_stops_alpha; exact Hrev |].
      cbn [set_cap pos rest caps]. rewrite firstn_consumed.
      apply vsp_rev_part; [exact Hrev|].
      intros q c' H8 Hother. cbn [set_cap pos rest caps].
      apply Hk'; cbn [pos rest caps] in *.
      - rewrite lookup_cap_other by discriminate.
        rewrite Hother by discriminate. apply lookup_cap_head.
      - rewrite lookup_cap_other by discriminate. rewrite H8.
        destruct rev as [[? ?]|]; [reflexivity|].
        apply lookup_cap_other. discriminate.
      - intros i H6 H7 H8'. rewrite lookup_cap_other by exact H6.
        rewrite Hother by exact H8'. apply lookup_cap_other. exact H7. }
    assert (Hdone : forall q c',
               lookup_cap 7 c' = Some l ->
               lookup_cap 8 c' = match rev with
                                 | Some (_, ds) => Some ds
                                 | None => lookup_cap 8 c
                                 end ->
               (forall i, i <> 6%nat -> i <> 7%nat -> i <> 8%nat ->
                          lookup_cap i c' = lookup_cap i c) ->
               forall text,
                 yields Q (k (MState q [] ((5%nat, text) :: c')))).
    { intros q c' H7 H8 Hother text. apply Hk.
      - rewrite lookup_cap_other by discriminate. exact H7.
      - rewrite lookup_cap_other by discriminate. rewrite H8.
        destruct rev as [[? ?]|]; reflexivity.
      - intros i H5 H6 H7' H8'. rewrite lookup_cap_other by exact H5.
        apply Hother; assumption. }
    destruct sep as [x|]; cbn [sep_text app].
    + apply yields_opt_taken. rewrite mt_chr. simpl in Hsep. rewrite Hsep.
      apply Hletters. intros q c' H7 H8 Hother. cbn [set_cap pos rest caps].
      apply Hdone; assumption.
    + apply yields_opt_skipped.
      * destruct l as [|a l]; [congruence|].
        simpl in Hal. apply andb_prop in Hal. destruct Hal as [Ha _].
        cbn [app]. rewrite mt_chr, (alpha_not_sep a Ha). reflexivity.
      * apply Hletters. intros q c' H7 H8 Hother. cbn [set_cap pos rest caps].
        apply Hdone; assumption.
  - apply yields_opt_skipped; [reflexivity|].
    apply Hk; reflexivity.
Qed.

Lemma stage_text_stops st :
  stage_ok st = true ->
  base_stops (stage_text st) = true /\ stops (is_char "!") (stage_text st) = true.
Proof.
  destruct st as [[[sep l] rev]|]; [|split; reflexivity].
  simpl. intros H. apply andb_prop in H. destruct H as [H _].
  apply andb_prop in H. destruct H as [Hsep Hl].
  apply letters_alpha in Hl. destruct Hl as [Hne Hal].
  destruct l as [|a l]; [congruence|].
  simpl in Hal. apply andb_prop in Hal. destruct Hal as [Ha _].
  destruct sep as [x|]; simpl.
  - simpl in Hsep. rewrite (sep_not_digit x Hsep), (sep_not_bang x Hsep),
      (alpha_not_digit a Ha). simpl. rewrite orb_true_r. split; reflexivity.
  - rewrite (alpha_not_digit a Ha), (alpha_not_dot a Ha), (alpha_not_bang a Ha).
    split; reflexivity.
Qed.

Lemma vsp_from_base (e : option pystr) (g1 : pystr) (groups : list pystr) st p c0 R :
  forallb numeric (g1 :: groups) = true -> stage_ok st = true ->
  lookup_cap 2 c0 = e -> lookup_cap 3 c0 = None -> lookup_cap 7 c0 = None ->
  lookup_cap 8 c0 = None -> lookup_cap 10 c0 = None ->
  R = (Group 3 (Some "base"%string)
         (digits +++ Star (Group 4 None (Chr (is_char ".") +++ digits))) +++
       Opt (Group 5 None
         (Opt (Chr is_sep) +++
          Group 6 None
            (Group 7 (Some "stage"%string) (Plus (Chr is_alpha)) +++
             Opt (Chr is_sep) +++
             Opt (Group 8 (Some "revision"%string) digits)))) +++
       Opt (Group 9 None
         (Chr (is_char "+") +++
          Group 10 (Some "tagged_metadata"%string) (Plus (Chr is_not_newline)))) +++
       Eol) ->
  yields (found e (str_join (lit ".") (g1 :: groups)) st)
    (mt R accept (MState p (str_join (lit ".") (g1 :: groups) ++ stage_text st) c0)).
Proof.
  intros Hnum Hst H2 H3 H7 H8 H10 ->.
  destruct (stage_text_stops st Hst) as [Hbs _].
  rewrite mt_seq, mt_group.
  apply dotted_greedy; [exact Hnum | exact Hbs |].
  intros c' Hagree. cbn [set_cap pos rest caps]. rewrite firstn_consumed.
  rewrite mt_seq. apply vsp_stage_part; [exact Hst|].
  intros q c'' H7' H8' Hother.
  change (found e (str_join (lit ".") (g1 :: groups)) st (MState q [] c'')).
  unfold found. cbn [caps].
  repeat split.
  - rewrite Hother by discriminate. rewrite lookup_cap_other by discriminate.
    rewrite Hagree by discriminate. exact H2.
  - rewrite Hother by discriminate. apply lookup_cap_head.
  - rewrite H7'. destruct st as [[[? ?] ?]|]; [reflexivity|].
    rewrite lookup_cap_other by discriminate. rewrite Hagree by discriminate. exact H7.
  - rewrite H8'. destruct st as [[[? ?] [[? ?]|]]|]; try reflexivity;
      rewrite lookup_cap_other by discriminate; rewrite Hagree by discriminate; exact H8.
  - rewrite Hother by discriminate. rewrite lookup_cap_other by discriminate.
    rewrite Hagree by discriminate. exact H10.
Qed.

Lemma vsp_found (e : option pystr) (g1 : pystr) (groups : list pystr) st :
  opt_numeric e = true ->
  forallb numeric (g1 :: groups) = true -> stage_ok st = true ->
  yields (found e (str_join (lit ".") (g1 :: groups)) st)
    (re_search VERSION_SOURCE_PATTERN
       ("v"%char :: epoch_text e ++ str_join (lit ".") (g1 :: groups) ++ stage_text st)).
Proof.
  intros He Hnum Hst.
  unfold VERSION_SOURCE_PATTERN. rewrite re_search_bol.
  hit_char. rewrite mt_seq.
  destruct e as [ds|]; cbn [epoch_text].
  - simpl in He. apply numeric_digits in He. destruct He as [Hne Hd].
    rewrite <- app_assoc. cbn [app].
    apply yields_opt_taken. rewrite mt_group, mt_seq, mt_group. unfold digits at 1.
    apply plus_chr_greedy; [exact Hne | exact Hd | reflexivity |].
    cbn [set_cap pos rest caps]. rewrite firstn_consumed.
    unfold set_cap at 2. cbn [pos rest caps].
    hit_char. unfold set_cap. cbn [pos rest caps].
    eapply vsp_from_base; try eassumption; reflexivity.
  - cbn [app].
    apply yields_opt_skipped.
    + rewrite mt_group, mt_seq, mt_group, join_dotted, <- app_assoc.
      pose proof Hnum as Hnum'. simpl in Hnum'. apply andb_prop in Hnum'.
      destruct Hnum' as [Hg1 _]. apply numeric_digits in Hg1.
      destruct (stage_text_stops st Hst) as [Hbs Hbang].
      apply digits_without_bang; [tauto | | |].
      * apply dotted_tail_stops_digit. exact Hbs.
      * destruct groups; [exact Hbang | reflexivity].
      * intros s Hs. apply needs_bang. exact Hs.
    + eapply vsp_from_base; try eassumption; reflexivity.
Qed.

Lemma vsp_groupindex :
  groupindex VERSION_SOURCE_PATTERN "epoch" = Some 2%nat /\
  groupindex VERSION_SOURCE_PATTERN "base" = Some 3%nat /\
  groupindex VERSION_SOURCE_PATTERN "stage" = Some 7%nat /\
  groupindex VERSION_SOURCE_PATTERN "revision" = Some 8%nat /\
  groupindex VERSION_SOURCE_PATTERN "tagged_metadata" = Some 10%nat.
Proof. repeat split. Qed.

Lemma int_or_numeric msg (ds : pystr) :
  numeric ds = true -> within_limit ds = true -> int_or msg ds = Ok (digits_value ds).
Proof. intros H Hl. unfold int_or. rewrite (py_int_numeric ds H Hl). reflexivity. Qed.

(** Digits beyond the limit are reported as a number that is not valid. *)
Lemma int_or_too_long msg (ds : pystr) :
  numeric ds = true -> within_limit ds = false ->
  int_or msg ds = Raise (ValueError (msg ds)).
Proof. intros H Hl. unfold int_or. rewrite (py_int_too_long ds H Hl). reflexivity. Qed.

Lemma match_found (source : pystr) (m : mstate) (e : option pystr) (base : pystr) st :
  re_search VERSION_SOURCE_PATTERN source = Some m ->
  found e base st m ->
  opt_numeric e = true -> stage_ok st = true ->
  opt_within_limit e = true -> rev_within st = true ->
  _match_version_pattern VERSION_SOURCE_PATTERN [source] true =
    Ok (Matched.Make source base (stage_value st) [] None (option_map digits_value e)).
Proof.
  intros Hs (H2 & H3 & H7 & H8 & H10) He Hst Hle Hlr.
  destruct vsp_groupindex as (G2 & G3 & G7 & G8 & G10).
  unfold _match_version_pattern. cbn [firstn match_loop].
  rewrite Hs. unfold group_name. rewrite G3, H3.
  cbn [bind l_match l_base l_source l_newer].
  unfold groupdict_get. rewrite G2, G7, G8, G10, H2, H7, H8, H10.
  destruct st as [[[sep l] [[sep2 ds]|]]|]; cbn [stage_value].
  - simpl in Hst. apply andb_prop in Hst. destruct Hst as [_ Hst].
    apply andb_prop in Hst. destruct Hst as [_ Hds].
    rewrite (int_or_numeric BadRevision ds Hds Hlr). cbn [bind].
    destruct e as [eds|]; cbn [option_map bind]; [|reflexivity].
    rewrite (int_or_numeric BadEpoch eds He Hle). reflexivity.
  - cbn [bind]. destruct e as [eds|]; cbn [option_map bind]; [|reflexivity].
    rewrite (int_or_numeric BadEpoch eds He Hle). reflexivity.
  - cbn [bind]. destruct e as [eds|]; cbn [option_map bind]; [|reflexivity].
    rewrite (int_or_numeric BadEpoch eds He Hle). reflexivity.
Qed.

Lemma digit_not_v c : is_digit c = true -> Ascii.eqb "v" c = false.
Proof. by_cases_on_char c. Qed.

Lemma numeric_not_prefixed (ds t : pystr) :
  numeric ds = true -> prefixed (ds ++ t) = "v"%char :: ds ++ t.
Proof.
  intros H. apply numeric_digits in H. destruct H as [Hne Hd].
  destruct ds as [|d ds]; [congruence|].
  simpl in Hd. apply andb_prop in Hd. destruct Hd as [Hd0 _].
  unfold prefixed. cbn [app lit list_ascii_of_string startswith].
  rewrite (digit_not_v d Hd0). reflexivity.
Qed.

(** What [Version.parse] reads from [epoch! base stage revision]. *)
Lemma parse_found (e : option pystr) (base : pystr)
  (st : option (option ascii * pystr * option (option ascii * pystr))) :
  opt_numeric e = true -> dotted_numeric base = true -> stage_ok st = true ->
  opt_within_limit e = true -> rev_within st = true ->
  Version.parse (epoch_text e ++ base ++ stage_text st) VERSION_SOURCE_PATTERN =
    Ok (Version.init base (stage_value st) 0 None None None (option_map digits_value e)
          None None).
Proof.
  intros He Hb Hst Hle Hlr.
  destruct (dotted_numeric_groups base Hb) as (g1 & groups & -> & Hnum).
  pose proof (vsp_found e g1 groups st He Hnum Hst) as Hf.
  apply yields_some in Hf. destruct Hf as (m & Hs & Hfound).
  assert (Hp : prefixed (epoch_text e ++ str_join (lit ".") (g1 :: groups) ++ stage_text st)
               = "v"%char :: epoch_text e ++ str_join (lit ".") (g1 :: groups)
                   ++ stage_text st).
  { destruct e as [eds|]; cbn [epoch_text].
    - rewrite <- app_assoc. apply numeric_not_prefixed. exact He.
    - cbn [app]. rewrite join_dotted, <- app_assoc. apply numeric_not_prefixed.
      simpl in Hnum. apply andb_prop in Hnum. tauto. }
  rewrite (parse_of_match _ _ _
             (eq_trans (f_equal (fun s => _match_version_pattern _ [s] true) Hp)
                (match_found _ m e _ st Hs Hfound He Hst Hle Hlr))).
  reflexivity.
Qed.

(** ** From a version at a tag to its string and back *)

Lemma serialized_is (style : Style) (text s : pystr) :
  (check_version text style ;;; Ok text) = Ok s -> s = text.
Proof.
  destruct (check_version text style); simpl; intros H; inversion H. reflexivity.
Qed.

Lemma checked_again (style : Style) (text : pystr) :
  (out <- (check_version text style ;;; Ok text) ;; check_version out style ;;; Ok out)
  = (check_version text style ;;; Ok text).
Proof.
  destruct (check_version text style) as [[]|e] eqn:E; cbn [bind]; [rewrite E|]; reflexivity.
Qed.

Lemma printable_epoch_part (epoch : option Z) (l : list atom) :
  forallb printable_atom (opt_atoms epoch (fun e => [AInt e; AStr (lit "!")]) ++ l) = true ->
  opt_printable epoch = true.
Proof.
  destruct epoch as [e|]; [|reflexivity].
  cbn [opt_atoms app forallb printable_atom opt_printable].
  intros H. apply andb_prop in H. tauto.
Qed.

Lemma serialize_at_tag (v : Version.t) (style : Style) (s : pystr) :
  Version.distance v = 0 ->
  Version.serialize v None false None (Some style) false false = Ok s ->
  s = epoch_text (fst (shape v style)) ++ Version.base v ++ stage_text (snd (shape v style))
  /\ (Version.stage v <> None -> opt_printable (Version.revision v) = true)
  /\ (style = Pep440 -> opt_printable (Version.epoch v) = true).
Proof.
  intros Hd. unfold Version.serialize. rewrite Hd.
  cbn [andb bind fst snd _blank Z.gtb Z.compare].
  match goal with
  | |- context [serialize_pep440 _ _ _ _ _ _ (Some (map AStr ?m))] =>
      assert (Hmeta : m = [])
        by (destruct (Version.tagged_metadata v) as [[|? ?]|];
            destruct (Version.commit v); reflexivity)
  end.
  rewrite Hmeta. clear Hmeta.
  assert (Hrev : forall B (k : list pystr -> result B) (t : B),
             (stage_parts <-
                match Version.stage v with
                | Some st =>
                    match Version.revision v with
                    | Some r => text <- py_str_int r ;; Ok [st; text]
                    | None => Ok [st]
                    end
                | None => Ok []
                end ;; k stage_parts) = Ok t ->
             (Version.stage v <> None -> opt_printable (Version.revision v) = true) /\
             k (match Version.stage v with
                | Some st => st :: match Version.revision v with
                                   | Some r => [str_of_int r]
                                   | None => []
                                   end
                | None => []
                end) = Ok t).
  { intros B k t. destruct (Version.stage v) as [st|]; [|intros H; split; [congruence | exact H]].
    destruct (Version.revision v) as [r|]; [|intros H; split; [reflexivity | exact H]].
    unfold py_str_int. cbn [opt_printable].
    destruct (printable r); cbn [bind]; [|discriminate].
    intros H; split; [reflexivity | exact H]. }
  intros H. apply Hrev in H. destruct H as [Hpr H]. clear Hrev.
  cbn [bind app] in H. rewrite ?app_nil_r in H.
  destruct style.
  - rewrite serialize_pep440_strs in H. cbv zeta in H.
    match type of H with
    | context [forallb printable_atom ?out] =>
        destruct (forallb printable_atom out) eqn:Hout; [|discriminate H]
    end.
    apply printable_epoch_part in Hout.
    rewrite checked_again in H. apply serialized_is in H. subst s.
    split; [|split; [exact Hpr | intros _; exact Hout]].
    cbn [shape fst snd joined_part opt_atoms app].
    destruct (Version.epoch v) as [e|]; destruct (Version.stage v) as [st|];
      cbn [opt_str option_map epoch_text opt_atoms app map concat atom_text stage_text];
      rewrite ?app_nil_r, <- ?app_assoc; try reflexivity.
    + destruct (str_eqb st (lit "post")) eqn:E1; cbn [orb].
      * destruct (Version.revision v) as [r|];
          cbn [opt_atoms app map concat atom_text stage_text sep_text rev_text];
          rewrite ?app_nil_r, <- ?app_assoc; [|reflexivity].
        apply str_eqb_eq in E1. subst st. reflexivity.
      * destruct (str_eqb st (lit "dev")) eqn:E2; cbn [orb].
        -- destruct (Version.revision v) as [r|];
             cbn [opt_atoms app map concat atom_text stage_text sep_text rev_text];
             rewrite ?app_nil_r, <- ?app_assoc; [|reflexivity].
           apply str_eqb_eq in E2. subst st. reflexivity.
        -- cbn [opt_atoms app map concat atom_text stage_text sep_text rev_text].
           rewrite alias_lookup, ?app_nil_r, <- ?app_assoc.
           destruct (Version.revision v); reflexivity.
    + destruct (str_eqb st (lit "post")) eqn:E1; cbn [orb].
      * destruct (Version.revision v) as [r|];
          cbn [opt_atoms app map concat atom_text stage_text sep_text rev_text];
          rewrite ?app_nil_r, <- ?app_assoc; [|reflexivity].
        apply str_eqb_eq in E1. subst st. reflexivity.
      * destruct (str_eqb st (lit "dev")) eqn:E2; cbn [orb].
        -- destruct (Version.revision v) as [r|];
             cbn [opt_atoms app map concat atom_text stage_text sep_text rev_text];
             rewrite ?app_nil_r, <- ?app_assoc; [|reflexivity].
           apply str_eqb_eq in E2. subst st. reflexivity.
        -- cbn [opt_atoms app map concat atom_text stage_text sep_text rev_text].
           rewrite alias_lookup, ?app_nil_r, <- ?app_assoc.
           destruct (Version.revision v); reflexivity.
  - rewrite serialize_semver_strs in H. cbv zeta in H.
    rewrite checked_again in H. apply serialized_is in H. subst s.
    split; [|split; [exact Hpr | discriminate]].
    cbn [shape fst snd epoch_text app].
    destruct (Version.stage v) as [st|]; [|cbn; rewrite ?app_nil_r; reflexivity].
    destruct (Version.revision v) as [r|]; cbn; rewrite ?app_nil_r; reflexivity.
  - rewrite serialize_pvp_strs in H. cbv zeta in H.
    rewrite checked_again in H. apply serialized_is in H. subst s.
    split; [|split; [exact Hpr | discriminate]].
    cbn [shape fst snd epoch_text app].
    destruct (Version.stage v) as [st|]; [|cbn; rewrite ?app_nil_r; reflexivity].
    destruct (Version.revision v) as [r|]; cbn; rewrite ?app_nil_r; reflexivity.
Qed.

Lemma lower_char_alpha c : is_alpha c = true -> is_alpha (lower_char c) = true.
Proof. by_cases_on_char c. Qed.

Lemma letters_label (st : pystr) : letters st = true -> letters (pep440_label st) = true.
Proof.
  intros H. unfold pep440_label.
  repeat match goal with
         | |- context [if ?b then _ else _] => destruct b; try reflexivity
         end.
  apply letters_alpha in H. destruct H as [Hne Hal].
  destruct st as [|c st]; [congruence|].
  unfold str_lower. simpl map. unfold letters.
  apply forallb_forall. intros x Hx.
  change (lower_char c :: map lower_char st) with (map lower_char (c :: st)) in Hx.
  apply in_map_iff in Hx. destruct Hx as (y & <- & Hy).
  apply lower_char_alpha. rewrite forallb_forall in Hal. apply Hal. exact Hy.
Qed.

Lemma digits_of_str (z : Z) : 0 <= z -> digits_value (str_of_int z) = z.
Proof.
  intros H. unfold str_of_int. destruct (Z.ltb_spec z 0); [lia|].
  destruct (str_of_N_spec (Z.to_N z)) as [_ ->]. lia.
Qed.

Lemma shape_ok (v : Version.t) (style : Style) :
  match Version.stage v with Some st => letters st = true | None => True end ->
  opt_nonneg (Version.revision v) = true ->
  opt_nonneg (Version.epoch v) = true ->
  opt_numeric (fst (shape v style)) = true /\ stage_ok (snd (shape v style)) = true.
Proof.
  intros Hst Hrev Hep.
  assert (Hr : forall r, Version.revision v = Some r -> numeric (str_of_int r) = true).
  { intros r E. rewrite E in Hrev. apply str_of_int_numeric. apply Z.leb_le. exact Hrev. }
  destruct style; cbn [shape fst snd].
  - split; [apply opt_str_numeric; exact Hep|].
    destruct (Version.stage v) as [st|]; [|reflexivity].
    destruct (str_eqb st (lit "post") || str_eqb st (lit "dev"))%bool.
    + destruct (Version.revision v) as [r|] eqn:E; [|reflexivity].
      cbn [stage_ok sep_ok rev_ok]. rewrite Hst, (Hr r eq_refl). reflexivity.
    + cbn [stage_ok sep_ok rev_ok]. rewrite (letters_label st Hst).
      destruct (Version.revision v) as [r|] eqn:E; cbn [_blank].
      * rewrite (Hr r eq_refl). reflexivity.
      * reflexivity.
  - split; [reflexivity|].
    destruct (Version.stage v) as [st|]; [|reflexivity].
    cbn [stage_ok sep_ok]. rewrite Hst.
    destruct (Version.revision v) as [r|] eqn:E; cbn [option_map rev_ok sep_ok];
      [rewrite (Hr r eq_refl)|]; reflexivity.
  - split; [reflexivity|].
    destruct (Version.stage v) as [st|]; [|reflexivity].
    cbn [stage_ok sep_ok]. rewrite Hst.
    destruct (Version.revision v) as [r|] eqn:E; cbn [option_map rev_ok sep_ok];
      [rewrite (Hr r eq_refl)|]; reflexivity.
Qed.

Lemma shape_within (v : Version.t) (style : Style) :
  opt_nonneg (Version.revision v) = true ->
  opt_nonneg (Version.epoch v) = true ->
  (Version.stage v <> None -> opt_printable (Version.revision v) = true) ->
  (style = Pep440 -> opt_printable (Version.epoch v) = true) ->
  opt_within_limit (fst (shape v style)) = true /\
  rev_within (snd (shape v style)) = true.
Proof.
  intros Hrev Hep Hpr Hpe.
  assert (Hr : forall r, Version.stage v <> None -> Version.revision v = Some r ->
                         within_limit (str_of_int r) = true).
  { intros r Hs E. specialize (Hpr Hs). rewrite E in Hrev, Hpr.
    cbn [opt_nonneg opt_printable] in Hrev, Hpr.
    rewrite printable_length by (apply Z.leb_le; exact Hrev). exact Hpr. }
  destruct style; cbn [shape fst snd].
  - split.
    + specialize (Hpe eq_refl). destruct (Version.epoch v) as [e|]; [|reflexivity].
      cbn [opt_str option_map opt_within_limit opt_nonneg opt_printable] in *.
      rewrite printable_length by (apply Z.leb_le; exact Hep). exact Hpe.
    + destruct (Version.stage v) as [st|]; [|reflexivity].
      destruct (str_eqb st (lit "post") || str_eqb st (lit "dev"))%bool.
      * destruct (Version.revision v) as [r|] eqn:E; [|reflexivity].
        cbn [rev_within]. apply (Hr r); [discriminate | reflexivity].
      * cbn [rev_within].
        destruct (Version.revision v) as [r|] eqn:E; cbn [_blank];
          [apply (Hr r); [discriminate | reflexivity] | reflexivity].
  - split; [reflexivity|].
    destruct (Version.stage v) as [st|]; [|reflexivity].
    destruct (Version.revision v) as [r|] eqn:E; cbn [option_map rev_within];
      [apply (Hr r); [discriminate | reflexivity] | reflexivity].
  - split; [reflexivity|].
    destruct (Version.stage v) as [st|]; [|reflexivity].
    destruct (Version.revision v) as [r|] eqn:E; cbn [option_map rev_within];
      [apply (Hr r); [discriminate | reflexivity] | reflexivity].
Qed.

(** C1, as the code has it. For a version at distance 0 whose base is
    dot-separated numbers, whose stage (if set) is a run of ASCII letters
    and whose revision and epoch (if set) are not negative, and for each of
    the three styles: when [serialize] returns a string, [Version.parse]
    of that string returns a version with the same base. If the version
    has a stage, then for SemVer and PVP the parsed stage and revision are
    the version's; for PEP 440 the parsed stage is the normalized label and
    the parsed revision is the version's, or 0 when it has none, except
    that a ["post"] or ["dev"] stage without revision is not written and
    so not read back. *)
Theorem C1_roundtrip_at_tag :
  forall (v : Version.t) (style : Style) (s : pystr),
    Version.distance v = 0 ->
    dotted_numeric (Version.base v) = true ->
    match Version.stage v with Some st => letters st = true | None => True end ->
    opt_nonneg (Version.revision v) = true ->
    opt_nonneg (Version.epoch v) = true ->
    Version.serialize v None false None (Some style) false false = Ok s ->
    exists p,
      Version.parse s VERSION_SOURCE_PATTERN = Ok p /\
      Version.base p = Version.base v /\
      (forall st, Version.stage v = Some st ->
         match style with
         | Pep440 =>
             if ((stage_is (lit "post") (Some st) || stage_is (lit "dev") (Some st))
                 && is_none (Version.revision v))%bool
             then Version.stage p = None
             else Version.stage p = Some (pep440_label st) /\
                  Version.revision p = Some (_blank (Version.revision v) 0)
         | _ =>
             Version.stage p = Some st /\ Version.revision p = Version.revision v
         end).
Proof.
  intros v style s Hd Hb Hst Hrev Hep Hs.
  destruct (serialize_at_tag v style s Hd Hs) as (-> & Hpr & Hpe). clear Hs.
  destruct (shape_ok v style Hst Hrev Hep) as [He Hok].
  destruct (shape_within v style Hrev Hep Hpr Hpe) as [Hle Hlr].
  rewrite (parse_found _ _ _ He Hb Hok Hle Hlr).
  eexists. split; [reflexivity|].
  split.
  - destruct (stage_value (snd (shape v style))) as [[? ?]|]; reflexivity.
  - intros st Est.
    assert (Hr : forall r, Version.revision v = Some r -> digits_value (str_of_int r) = r).
    { intros r E. rewrite E in Hrev. apply digits_of_str. apply Z.leb_le. exact Hrev. }
    destruct style; cbn [shape fst snd]; rewrite Est; cbn [stage_is].
    + destruct (str_eqb st (lit "post") || str_eqb st (lit "dev"))%bool eqn:Epd.
      * destruct (Version.revision v) as [r|] eqn:E; cbn [andb is_none stage_value].
        -- cbn [Version.init Version.stage Version.revision _blank].
           rewrite (Hr r eq_refl).
           assert (El : pep440_label st = st).
           { apply orb_prop in Epd.
             destruct Epd as [E1|E1]; apply str_eqb_eq in E1; subst st; reflexivity. }
           rewrite El. split; reflexivity.
        -- reflexivity.
      * cbn [andb stage_value Version.init Version.stage Version.revision].
        split; [reflexivity|]. f_equal.
        destruct (Version.revision v) as [r|] eqn:E; cbn [_blank];
          [apply Hr; reflexivity | reflexivity].
    + destruct (Version.revision v) as [r|] eqn:E;
        cbn [option_map stage_value Version.init Version.stage Version.revision];
        [rewrite (Hr r eq_refl)|]; split; reflexivity.
    + destruct (Version.revision v) as [r|] eqn:E;
        cbn [option_map stage_value Version.init Version.stage Version.revision];
        [rewrite (Hr r eq_refl)|]; split; reflexivity.
Qed.

Lemma C1_roundtrip_at_tag_witness :
  exists p,
    Version.parse (lit "1.2.3-rc.1") VERSION_SOURCE_PATTERN = Ok p /\
    Version.base p = lit "1.2.3" /\
    Version.stage p = Some (lit "rc") /\ Version.revision p = Some 1.
Proof.
  pose (v := Version.init (lit "1.2.3") (Some (lit "rc", Some 1)) 0 (Some (lit "abc123"))
               (Some true) None None None None).
  destruct (C1_roundtrip_at_tag v SemVer (lit "1.2.3-rc.1")
              eq_refl eq_refl eq_refl eq_refl eq_refl eq_refl) as (p & Hp & Hb & Hs).
  exists p. split; [exact Hp|]. split; [exact Hb|].
  exact (Hs (lit "rc") eq_refl).
Defined.

(** C1, as stated, fails: with a distance, the PEP 440 text of a version
    ends in [.postN.dev0], the pattern does not match it, and the parsed
    base is the whole text. *)
Lemma C1_counterexample :
  ~ (forall (v : Version.t) (style : Style) (s : pystr) (p : Version.t),
        Version.serialize v None false None (Some style) false false = Ok s ->
        Version.parse s VERSION_SOURCE_PATTERN = Ok p ->
        Version.base p = Version.base v).
Proof.
  intros H.
  specialize (H (Version.init (lit "1.0.0") None 3 None None None None None None)
                Pep440 (lit "1.0.0.post3.dev0")
                (Version.of_base (lit "1.0.0.post3.dev0")) eq_refl eq_refl).
  discriminate H.
Qed.

(** C4, as stated, fails: a ["post"] stage without a revision is present,
    yet the distance becomes the post-release number, with dev = 0, and is
    not added to the development number. *)
Lemma C4_counterexample :
  ~ (forall v : Version.t,
        Version.distance v > 0 -> Version.commit v = None ->
        Version.serialize v None false None (Some Pep440) false false =
          serialize_pep440 (Version.base v) (pep440_stage (Version.stage v))
            (Version.revision v)
            (fst (stated_post_dev (Version.stage v) (Version.revision v) (Version.distance v)))
            (snd (stated_post_dev (Version.stage v) (Version.revision v) (Version.distance v)))
            (Version.epoch v) (Some [])).
Proof.
  intros H.
  specialize (H (Version.init (lit "1.0.0") (Some (lit "post", None)) 3 None None None
                   None None None) eq_refl eq_refl).
  vm_compute in H. discriminate H.
Qed.

(** * More of the module *)

(** ** [_escape_branch] *)

Lemma re_sub_chr f (s : pystr) :
  forall fuel p,
    (length s < fuel)%nat ->
    re_sub_from (Chr f) [] fuel p s = filter (fun c => negb (f c)) s.
Proof.
  induction s as [|c t IH]; intros fuel p Hf;
    (destruct fuel as [|fuel]; [simpl in Hf; lia|]).
  - reflexivity.
  - simpl in Hf.
    change (re_sub_from (Chr f) [] (S fuel) p (c :: t))
      with (match (if f c then accept (MState (S p) t []) else None) with
            | Some m =>
                if Nat.ltb p (pos m)
                then [] ++ re_sub_from (Chr f) [] fuel (pos m) (rest m)
                else c :: re_sub_from (Chr f) [] fuel (S p) t
            | None => c :: re_sub_from (Chr f) [] fuel (S p) t
            end).
    simpl filter. destruct (f c); simpl negb; cbv iota.
    + unfold accept. cbn [pos rest].
      assert (Hlt : Nat.ltb p (S p) = true) by (apply Nat.ltb_lt; lia).
      rewrite Hlt. simpl app. apply IH. lia.
    + f_equal. apply IH. lia.
Qed.

Lemma filter_all_true {A} (f : A -> bool) (l : list A) :
  forallb f l = true -> filter f l = l.
Proof.
  induction l as [|x l IH]; simpl; [reflexivity|].
  intros H. apply andb_prop in H. destruct H as [Hx Hl]. rewrite Hx, (IH Hl). reflexivity.
Qed.

Lemma filter_satisfies {A} (f : A -> bool) (l : list A) : forallb f (filter f l) = true.
Proof.
  induction l as [|x l IH]; simpl; [reflexivity|].
  destruct (f x) eqn:E; simpl; [rewrite E|]; exact IH.
Qed.

(** X1. [_escape_branch] keeps exactly the ASCII letters and digits of a
    branch name, in order: its result has no other character, a name of
    letters and digits is returned as it is, and escaping twice is escaping
    once. *)
Theorem escape_branch_keeps_alnum :
  forall value : pystr,
    _escape_branch value = filter is_alnum value /\
    forallb is_alnum (_escape_branch value) = true /\
    (forallb is_alnum value = true -> _escape_branch value = value) /\
    _escape_branch (_escape_branch value) = _escape_branch value.
Proof.
  intros value.
  assert (H : forall v, _escape_branch v = filter is_alnum v).
  { intros v. unfold _escape_branch, re_sub, NOT_ALNUM. rewrite re_sub_chr by lia.
    apply filter_ext. intros c. apply negb_involutive. }
  rewrite !H. split; [reflexivity|].
  split; [apply filter_satisfies|].
  split; [apply filter_all_true|].
  apply filter_all_true. apply filter_satisfies.
Qed.

(** ** [Version.__eq__] and [Version._matches_partial] *)

Lemma opt_eqb_spec {A} (eqb : A -> A -> bool) :
  (forall a b, eqb a b = true <-> a = b) ->
  forall x y, opt_eqb eqb x y = true <-> x = y.
Proof.
  intros H [a|] [b|]; simpl; split; intros E; try discriminate; try reflexivity.
  - f_equal. apply H. exact E.
  - apply H. congruence.
Qed.

Lemma bool_eqb_spec (a b : bool) : Bool.eqb a b = true <-> a = b.
Proof. destruct a; destruct b; simpl; split; congruence. Qed.

Lemma list_Z_eqb_spec (a b : list Z) : list_Z_eqb a b = true <-> a = b.
Proof.
  revert b. induction a as [|x a IH]; intros [|y b]; simpl; split; intros H;
    try discriminate; try reflexivity.
  - apply andb_prop in H. destruct H as [Hx Ha].
    apply Z.eqb_eq in Hx. apply IH in Ha. congruence.
  - inversion H; subst. rewrite Z.eqb_refl. simpl. apply IH. reflexivity.
Qed.

Lemma datetime_eqb_spec (a b : datetime) : datetime_eqb a b = true <-> a = b.
Proof.
  unfold datetime_eqb. rewrite list_Z_eqb_spec.
  destruct a, b. unfold datetime_fields. simpl. split; intros H; inversion H; reflexivity.
Qed.

(** X2. [Version.__eq__] is equality of all ten fields: it answers [True]
    exactly when the two versions are the same record. *)
Theorem version_eq_iff :
  forall x y : Version.t, Version.__eq__ x y = true <-> x = y.
Proof.
  intros x y. unfold Version.__eq__.
  rewrite !andb_true_iff.
  rewrite !(opt_eqb_spec str_eqb str_eqb_eq).
  rewrite !(opt_eqb_spec Z.eqb Z.eqb_eq).
  rewrite (opt_eqb_spec Bool.eqb bool_eqb_spec).
  rewrite (opt_eqb_spec datetime_eqb datetime_eqb_spec).
  rewrite str_eqb_eq, Z.eqb_eq.
  destruct x, y; simpl. split.
  - intros H. decompose [and] H. congruence.
  - intros H. inversion H. repeat split; reflexivity.
Qed.

Lemma equal_if_set_refl {A} (eqb : A -> A -> bool) (unset : list (option A)) x :
  (forall a, eqb a a = true) -> _equal_if_set eqb x x unset = true.
Proof.
  intros H. unfold _equal_if_set.
  destruct (existsb _ unset); [reflexivity|].
  destruct x; simpl; auto.
Qed.

Lemma str_eqb_refl (s : pystr) : str_eqb s s = true.
Proof. apply str_eqb_eq. reflexivity. Qed.

Lemma datetime_eqb_refl (d : datetime) : datetime_eqb d d = true.
Proof. apply datetime_eqb_spec. reflexivity. Qed.

Lemma bool_eqb_refl (b : bool) : Bool.eqb b b = true.
Proof. destruct b; reflexivity. Qed.

(** X3. Every version partially matches itself; a partial match ignores the
    distance of the first version when the second is at distance 0; and a
    second version with nothing set but its base matches every version of
    that base. *)
Theorem matches_partial_wildcards :
  forall x y : Version.t,
    Version._matches_partial x x = true /\
    (Version.distance y = 0 ->
     forall d, Version._matches_partial (at_distance x d) y = Version._matches_partial x y) /\
    (forall b, Version._matches_partial x (Version.of_base b) = str_eqb (Version.base x) b).
Proof.
  intros x y. split; [|split].
  - unfold Version._matches_partial.
    rewrite !(equal_if_set_refl str_eqb _ _ str_eqb_refl).
    rewrite !(equal_if_set_refl Z.eqb _ _ Z.eqb_refl).
    rewrite (equal_if_set_refl Bool.eqb _ _ bool_eqb_refl).
    rewrite (equal_if_set_refl datetime_eqb _ _ datetime_eqb_refl).
    reflexivity.
  - intros Hd d. unfold Version._matches_partial, at_distance. simpl.
    rewrite Hd. reflexivity.
  - intros b. unfold Version._matches_partial, Version.of_base. simpl.
    unfold _equal_if_set. simpl.
    rewrite !andb_true_r. reflexivity.
Qed.

(** ** [get_version] *)

(** X4. A version [get_version] returns is the fallback or partially
    matches none of the ignored versions, whichever of the three choices it
    comes from; and with no callback and no installed package it is the
    fallback. *)
Theorem get_version_never_ignored :
  forall (ilm_version : pystr -> option pystr) (name : pystr)
         (first_choice third_choice : option (result (option Version.t)))
         (fallback : Version.t) (ignore : option (list Version.t))
         (parser : pystr -> result Version.t) (v : Version.t),
    get_version ilm_version name first_choice third_choice fallback ignore parser = Ok v ->
    (v = fallback \/
     existsb (Version._matches_partial v) (_blank ignore []) = false) /\
    (ilm_version name = None ->
     get_version ilm_version name None None fallback ignore parser = Ok fallback).
Proof.
  intros ilm_version name first third fallback ignore parser v H.
  split; [|intros E; unfold get_version; rewrite E; reflexivity].
  unfold get_version in H.
  destruct first as [[[f|]|e]|]; cbn [bind] in H; try discriminate H;
    try (destruct (existsb (Version._matches_partial f) (_blank ignore [])) eqn:Ef;
         cbn [negb bind] in H;
         [|inversion H; subst; right; exact Ef]);
    (destruct (ilm_version name) as [text|]; cbn [bind] in H;
     [destruct (parser text) as [s|e]; cbn [bind] in H; [|discriminate H];
      destruct (existsb (Version._matches_partial s) (_blank ignore [])) eqn:Es;
      cbn [negb bind] in H; [|inversion H; subst; right; exact Es]|]);
    (destruct third as [[[t|]|e]|]; cbn [bind] in H; try discriminate H;
     try (destruct (existsb (Version._matches_partial t) (_blank ignore [])) eqn:Et;
          cbn [negb bind] in H;
          [|inversion H; subst; right; exact Et]);
     inversion H; subst; left; reflexivity).
Qed.

Lemma get_version_never_ignored_witness :
  let ignored := Version.of_base (lit "1.0.0") in
  let found := Version.init (lit "0.0.0") None 5 (Some (lit "abc")) None None None None None in
  let fallback := Version.of_base (lit "9.9") in
  found = fallback \/
  existsb (Version._matches_partial found) (_blank (Some [ignored]) []) = false.
Proof.
  intros ignored found fallback.
  exact (proj1 (get_version_never_ignored (fun _ => None) (lit "pkg")
                  (Some (Ok (Some found))) None fallback (Some [ignored])
                  (fun s => Ok (Version.of_base s)) found eq_refl)).
Defined.

(** ** [Version.serialize]: what the arguments do not change *)

(** X5. On a commit with a version tag (distance 0, or below) the [bump]
    argument of [Version.serialize] does nothing, whatever the other
    arguments are. *)
Theorem serialize_bump_at_tag :
  forall (v : Version.t) (metadata : option bool) (dirty : bool)
         (format : option (Version.t -> result pystr)) (style : option Style)
         (tagged_metadata : bool),
    Version.distance v <= 0 ->
    Version.serialize v metadata dirty format style true tagged_metadata =
    Version.serialize v metadata dirty format style false tagged_metadata.
Proof.
  intros v metadata dirty format style tagged Hd.
  assert (H : (Version.distance v >? 0) = false).
  { destruct (Z.gtb_spec (Version.distance v) 0); [lia | reflexivity]. }
  unfold Version.serialize. rewrite H. reflexivity.
Qed.

Lemma serialize_bump_at_tag_witness :
  let v := Version.init (lit "1.2.3") (Some (lit "rc", Some 1)) 0 (Some (lit "abc"))
             (Some true) None None None None in
  Version.serialize v (Some true) true None (Some SemVer) true false =
  Version.serialize v (Some true) true None (Some SemVer) false false.
Proof.
  intros v.
  exact (serialize_bump_at_tag v (Some true) true None (Some SemVer) false
           ltac:(discriminate)).
Defined.

Lemma bump_same_release (x y : Version.t) (index : Z) :
  same_release x y ->
  match Version.bump x index, Version.bump y index with
  | Ok x', Ok y' =>
      Version.base x' = Version.base y' /\ Version.revision x' = Version.revision y'
  | Raise e, Raise e' => e = e'
  | _, _ => False
  end.
Proof.
  intros (Hb & Hs & Hr & _). unfold Version.bump. rewrite Hb, Hs, Hr.
  destruct (Version.stage y).
  - destruct (Version.revision y); split; reflexivity.
  - destruct (bump_version (Version.base y) index); simpl; [split|]; reflexivity.
Qed.

(** X6. With [metadata=False] and no custom format, the text
    [Version.serialize] gives depends on the base, stage, revision, distance
    and epoch only: the commit, the dirty flag, the tagged metadata, the
    branch and the timestamp of the version, and the [dirty] and
    [tagged_metadata] arguments, never show in it. *)
Theorem serialize_without_metadata :
  forall (x y : Version.t) (dirty dirty' tagged tagged' : bool)
         (style : option Style) (bump : bool),
    same_release x y ->
    Version.serialize x (Some false) dirty None style bump tagged =
    Version.serialize y (Some false) dirty' None style bump tagged'.
Proof.
  intros x y dirty dirty' tagged tagged' style bump Hsame.
  pose proof (bump_same_release x y (-1) Hsame) as Hbump.
  destruct Hsame as (Hb & Hs & Hr & Hd & He).
  unfold Version.serialize. rewrite Hd, Hs, He.
  destruct (bump && (Version.distance y >? 0))%bool.
  - destruct (Version.bump x (-1)) as [x'|e]; destruct (Version.bump y (-1)) as [y'|e'];
      cbn [bind fst snd].
    + destruct Hbump as [E1 E2]. rewrite E1, E2. reflexivity.
    + destruct Hbump.
    + destruct Hbump.
    + rewrite Hbump. reflexivity.
  - cbn [bind fst snd]. rewrite Hb, Hr. reflexivity.
Qed.

Lemma serialize_without_metadata_witness :
  let x := Version.init (lit "1.0.0") None 3 (Some (lit "abc")) (Some true)
             (Some (lit "linux")) None (Some (lit "main")) None in
  let y := Version.init (lit "1.0.0") None 3 None None None None None None in
  Version.serialize x (Some false) true None (Some SemVer) false true =
  Version.serialize y (Some false) false None (Some SemVer) false false.
Proof.
  intros x y.
  apply (serialize_without_metadata x y true false true false (Some SemVer) false).
  repeat split.
Defined.

Lemma bind_ok {A B} (c : result A) (k : A -> result B) (t : B) :
  (x <- c ;; k x) = Ok t -> exists x, c = Ok x /\ k x = Ok t.
Proof. destruct c as [x|e]; cbn [bind]; [eauto | discriminate]. Qed.

Lemma checked_result (style : Style) (c : result pystr) (s : pystr) :
  (out <- c ;; check_version out style ;;; Ok out) = Ok s ->
  c = Ok s /\ check_version s style = Ok tt.
Proof.
  destruct c as [out|e]; cbn [bind]; [|discriminate].
  destruct (check_version out style) as [[]|e] eqn:E; cbn [bind]; [|discriminate].
  intros H. inversion H; subst. split; [reflexivity | exact E].
Qed.

(** X7. Every string [Version.serialize] returns for a style passes
    [check_version] for that style, with or without a custom format
    callback, with or without bump; so does every string the three
    [serialize_*] functions return. *)
Theorem serialize_result_valid :
  forall (v : Version.t) (metadata : option bool) (dirty : bool)
         (format : option (Version.t -> result pystr)) (style : Style)
         (bump tagged_metadata : bool) (s : pystr),
    Version.serialize v metadata dirty format (Some style) bump tagged_metadata = Ok s ->
    check_version s style = Ok tt /\
    (forall base stage revision post dev epoch meta t,
        serialize_pep440 base stage revision post dev epoch meta = Ok t ->
        check_version t Pep440 = Ok tt) /\
    (forall base pre meta t,
        serialize_semver base pre meta = Ok t -> check_version t SemVer = Ok tt) /\
    (forall base meta t,
        serialize_pvp base meta = Ok t -> check_version t Pvp = Ok tt).
Proof.
  intros v metadata dirty format style bump tagged s H.
  assert (Hself : forall st text t,
             (check_version text st ;;; Ok text) = Ok t -> check_version t st = Ok tt).
  { intros st text t E.
    destruct (check_version text st) as [[]|e] eqn:Ec; cbn [bind] in E; [|discriminate].
    inversion E; subst. exact Ec. }
  split; [|split; [|split]].
  - unfold Version.serialize in H.
    apply bind_ok in H. destruct H as ([b r] & _ & H). cbn [fst snd] in H.
    destruct format as [f|].
    + apply bind_ok in H. destruct H as (out & _ & H).
      apply (Hself style out s). exact H.
    + cbn [_blank] in H.
      apply bind_ok in H. destruct H as (stage_parts & _ & H).
      apply bind_ok in H. destruct H as (distance_parts & _ & H).
      apply checked_result in H. apply H.
  - intros base stage revision post dev epoch meta t H'. unfold serialize_pep440 in H'.
    apply bind_ok in H'. destruct H' as (m & _ & H').
    apply bind_ok in H'. destruct H' as (text & _ & H'). exact (Hself _ _ _ H').
  - intros base pre meta t H'. unfold serialize_semver in H'.
    apply bind_ok in H'. destruct H' as (p & _ & H').
    apply bind_ok in H'. destruct H' as (m & _ & H').
    apply bind_ok in H'. destruct H' as (text & _ & H'). exact (Hself _ _ _ H').
  - intros base meta t H'. unfold serialize_pvp in H'.
    apply bind_ok in H'. destruct H' as (m & _ & H').
    apply bind_ok in H'. destruct H' as (text & _ & H'). exact (Hself _ _ _ H').
Qed.

Lemma serialize_result_valid_witness :
  check_version (lit "1.0.0-rc.1.post.2+abc") SemVer = Ok tt.
Proof.
  exact (proj1 (serialize_result_valid
                  (Version.init (lit "1.0.0") (Some (lit "rc", Some 1)) 2 (Some (lit "abc"))
                     None None None None None)
                  None false None SemVer false false (lit "1.0.0-rc.1.post.2+abc") eq_refl)).
Defined.

(** ** [bump_version] and [Version.bump] keep a base well formed *)

Lemma digits_value_nonneg (s : pystr) :
  forallb is_digit s = true ->
  forall acc, 0 <= acc -> 0 <= fold_left (fun a c => 10 * a + digit_val c) s acc.
Proof.
  induction s as [|c s IH]; intros H acc Hacc; cbn [fold_left]; [exact Hacc|].
  simpl in H. apply andb_prop in H. destruct H as [Hc Hs].
  apply IH; [exact Hs|]. pose proof (digit_val_range c Hc). lia.
Qed.

Lemma map_str_numeric (l : list Z) :
  Forall (fun z => 0 <= z) l -> forallb numeric (map str_of_int l) = true.
Proof.
  induction 1 as [|z l Hz Hl IH]; simpl; [reflexivity|].
  rewrite (str_of_int_numeric z Hz), IH. reflexivity.
Qed.

Lemma map_value_of_str (l : list Z) :
  Forall (fun z => 0 <= z) l -> map digits_value (map str_of_int l) = l.
Proof.
  induction 1 as [|z l Hz Hl IH]; simpl; [reflexivity|].
  rewrite (digits_of_str z Hz), IH. reflexivity.
Qed.

(** [int] on the segments of a base of digit runs: their numbers, unless
    one of them is longer than the limit. *)
Lemma map_py_int_digits (segs : list pystr) :
  forallb numeric segs = true ->
  map_result py_int segs =
    if forallb within_limit segs then Ok (map digits_value segs)
    else Raise (ValueError ExceedsLimit).
Proof.
  induction segs as [|seg segs IH]; intros H; [reflexivity|].
  cbn [forallb] in H. apply andb_prop in H. destruct H as [Hs Hr].
  cbn [map_result forallb map]. rewrite (py_int_digits seg Hs), (IH Hr).
  destruct (within_limit seg); cbn [bind andb]; [|reflexivity].
  destruct (forallb within_limit segs); reflexivity.
Qed.

Lemma bump_version_dotted (base : pystr) (index : Z) (p : nat) :
  dotted_numeric base = true ->
  forallb within_limit (str_split "." base) = true ->
  norm_index (length (str_split "." base)) index = Some p ->
  printable (nth p (map digits_value (str_split "." base)) 0 + 1) = true ->
  exists out,
    bump_version base index = Ok (str_join (lit ".") (map str_of_int out)) /\
    Forall (fun z => 0 <= z) out /\
    length out = length (str_split "." base) /\
    forall j, (j < length (str_split "." base))%nat ->
      nth j out 0 =
        if Nat.ltb j p then nth j (map digits_value (str_split "." base)) 0
        else if Nat.eqb j p then nth p (map digits_value (str_split "." base)) 0 + 1
        else 0.
Proof.
  intros Hb Hlim Hp Hpr.
  set (segs := str_split "." base) in *.
  assert (Hne : segs <> []) by (apply split_by_not_nil).
  assert (Hnum : forallb numeric segs = true) by exact Hb.
  destruct (bump_version_numbers segs index p Hne Hnum Hlim Hp Hpr)
    as (out & Hbump & Hlen & Hnth).
  assert (Hjoin : str_join (lit ".") segs = base) by (apply (join_split "." base)).
  rewrite Hjoin in Hbump.
  exists out. split; [exact Hbump|]. split; [|split; [exact Hlen | exact Hnth]].
  apply Forall_forall. intros z Hz.
  destruct (In_nth out z 0 Hz) as (j & Hj & <-).
  rewrite Hnth by lia.
  assert (Hv : forall i, 0 <= nth i (map digits_value segs) 0).
  { intros i. destruct (Nat.lt_ge_cases i (length (map digits_value segs))) as [Hi|Hi].
    - apply (Forall_nth (fun z => 0 <= z)); [|exact Hi].
      apply Forall_forall. intros v Hv. apply in_map_iff in Hv.
      destruct Hv as (seg & <- & Hseg).
      rewrite forallb_forall in Hnum. specialize (Hnum seg Hseg).
      apply numeric_digits in Hnum.
      apply digits_value_nonneg; [tauto | lia].
    - rewrite nth_overflow by exact Hi. lia. }
  destruct (Nat.ltb j p); [apply Hv|].
  destruct (Nat.eqb j p); [specialize (Hv p); lia | lia].
Qed.

Lemma split_join_numbers (out : list Z) :
  out <> [] -> Forall (fun z => 0 <= z) out ->
  str_split "." (str_join (lit ".") (map str_of_int out)) = map str_of_int out.
Proof.
  intros Hne Hpos. apply split_join.
  - destruct out; [congruence | discriminate].
  - apply numeric_no_dot. apply map_str_numeric. exact Hpos.
Qed.

(** The bumped base is again a base of digit runs, and its numbers are the
    bumped numbers. *)
Lemma bump_version_shape (base : pystr) (index : Z) (p : nat) :
  dotted_numeric base = true ->
  forallb within_limit (str_split "." base) = true ->
  norm_index (length (str_split "." base)) index = Some p ->
  printable (nth p (map digits_value (str_split "." base)) 0 + 1) = true ->
  exists bumped,
    bump_version base index = Ok bumped /\
    dotted_numeric bumped = true /\
    length (str_split "." bumped) = length (str_split "." base) /\
    forall j, (j < length (str_split "." base))%nat ->
      nth j (map digits_value (str_split "." bumped)) 0 =
        if Nat.ltb j p then nth j (map digits_value (str_split "." base)) 0
        else if Nat.eqb j p then nth p (map digits_value (str_split "." base)) 0 + 1
        else 0.
Proof.
  intros Hb Hlim Hp Hpr.
  destruct (bump_version_dotted base index p Hb Hlim Hp Hpr)
    as (out & Hbump & Hpos & Hlen & Hnth).
  assert (Hout : out <> []).
  { intros ->. simpl in Hlen.
    pose proof (split_by_not_nil (is_char ".") None base) as Hne.
    fold (str_split "." base) in Hne.
    destruct (str_split "." base); [congruence | discriminate]. }
  exists (str_join (lit ".") (map str_of_int out)).
  split; [exact Hbump|].
  unfold dotted_numeric. rewrite (split_join_numbers out Hout Hpos).
  split; [apply map_str_numeric; exact Hpos|].
  split; [rewrite length_map; exact Hlen|].
  intros j Hj. rewrite (map_value_of_str out Hpos). apply Hnth. exact Hj.
Qed.

(** X8. Bumping a base of dot-separated numbers, each of at most
    [int_max_str_digits] digits, at an index in range where the bumped
    number can still be written, gives a base of dot-separated numbers
    again, with as many segments, and reading its segments back with [int]
    gives the bumped numbers. *)
Theorem bump_version_well_formed :
  forall (base : pystr) (index : Z) (p : nat),
    dotted_numeric base = true ->
    forallb within_limit (str_split "." base) = true ->
    norm_index (length (str_split "." base)) index = Some p ->
    printable (nth p (map digits_value (str_split "." base)) 0 + 1) = true ->
    exists bumped,
      bump_version base index = Ok bumped /\
      dotted_numeric bumped = true /\
      length (str_split "." bumped) = length (str_split "." base) /\
      (forall j, (j < length (str_split "." base))%nat ->
         nth j (map digits_value (str_split "." bumped)) 0 =
           if Nat.ltb j p then nth j (map digits_value (str_split "." base)) 0
           else if Nat.eqb j p then nth p (map digits_value (str_split "." base)) 0 + 1
           else 0) /\
      map_result py_int (str_split "." bumped)
        = Ok (map digits_value (str_split "." bumped)).
Proof.
  intros base index p Hb Hlim Hp Hpr.
  destruct (bump_version_dotted base index p Hb Hlim Hp Hpr)
    as (out & Hbump & Hpos & Hlen & Hnth).
  assert (Hout : out <> []).
  { intros ->. simpl in Hlen.
    pose proof (split_by_not_nil (is_char ".") None base) as Hne.
    fold (str_split "." base) in Hne.
    destruct (str_split "." base); [congruence | discriminate]. }
  assert (Hprint : forallb printable out = true).
  { apply (bumped_printable (str_split "." base) out p); assumption. }
  exists (str_join (lit ".") (map str_of_int out)).
  split; [exact Hbump|].
  unfold dotted_numeric. rewrite (split_join_numbers out Hout Hpos).
  split; [apply map_str_numeric; exact Hpos|].
  split; [rewrite length_map; exact Hlen|].
  split.
  - intros j Hj. rewrite (map_value_of_str out Hpos). apply Hnth. exact Hj.
  - apply map_py_int_numeric; [apply map_str_numeric; exact Hpos|].
    apply forallb_forall. intros t Ht. apply in_map_iff in Ht.
    destruct Ht as (z & <- & Hz).
    rewrite Forall_forall in Hpos. rewrite forallb_forall in Hprint.
    rewrite (printable_length z (Hpos z Hz)). exact (Hprint z Hz).
Qed.

Lemma bump_version_well_formed_witness :
  exists bumped,
    bump_version (lit "1.09.3") (-2) = Ok bumped /\ dotted_numeric bumped = true.
Proof.
  destruct (bump_version_well_formed (lit "1.09.3") (-2) 1%nat eq_refl eq_refl eq_refl eq_refl)
    as (bumped & Hb & Hd & _).
  exists bumped. split; [exact Hb | exact Hd].
Defined.

(** X9. On a base of dot-separated numbers, an index out of range, on
    either side, makes [bump_version] raise [IndexError], provided [int]
    reads every segment; a segment of more than [int_max_str_digits] digits
    makes it raise a [ValueError] first, before the index is used. *)
Theorem bump_version_out_of_range :
  forall (base : pystr) (index : Z),
    dotted_numeric base = true ->
    Z.of_nat (length (str_split "." base)) <= index \/
    index < - Z.of_nat (length (str_split "." base)) ->
    bump_version base index =
      if forallb within_limit (str_split "." base)
      then Raise IndexError
      else Raise (ValueError ExceedsLimit).
Proof.
  intros base index Hb Hi.
  unfold bump_version. rewrite (map_py_int_digits _ Hb).
  destruct (forallb within_limit (str_split "." base)); [|reflexivity].
  cbn [bind].
  unfold getitem. rewrite length_map.
  assert (Hn : norm_index (length (str_split "." base)) index = None).
  { destruct (norm_index (length (str_split "." base)) index) as [p|] eqn:E; [|reflexivity].
    apply norm_index_spec in E. lia. }
  rewrite Hn. reflexivity.
Qed.

Lemma bump_version_out_of_range_witness :
  bump_version (lit "1.2.3") (-4) = Raise IndexError.
Proof.
  apply (bump_version_out_of_range (lit "1.2.3") (-4) eq_refl).
  right. simpl. lia.
Defined.

Lemma last_index (base : pystr) :
  norm_index (length (str_split "." base)) (-1)
    = Some (length (str_split "." base) - 1)%nat.
Proof.
  apply norm_index_spec. right.
  pose proof (split_by_not_nil (is_char ".") None base) as Hne.
  fold (str_split "." base) in Hne.
  destruct (str_split "." base); [congruence|]. simpl length. lia.
Qed.

(** X10. [Version.bump()] on a version whose base is dot-separated
    numbers that [int] reads and whose last number plus one can be written:
    it returns a version that differs from the original in base and
    revision only. Without a stage the revision is kept and the base is
    [bump_version(base, -1)]: dot-separated numbers again, as many, the last
    one more and the others the same. With a stage the base is kept and the
    revision becomes the next number, or 2 from none. *)
Theorem version_bump_default :
  forall v : Version.t,
    dotted_numeric (Version.base v) = true ->
    forallb within_limit (str_split "." (Version.base v)) = true ->
    let segs := str_split "." (Version.base v) in
    let last := (length segs - 1)%nat in
    printable (nth last (map digits_value segs) 0 + 1) = true ->
    exists v',
      Version.bump v (-1) = Ok v' /\
      v' = Version.with_base_revision v (Version.base v') (Version.revision v') /\
      match Version.stage v with
      | None =>
          Version.revision v' = Version.revision v /\
          bump_version (Version.base v) (-1) = Ok (Version.base v') /\
          dotted_numeric (Version.base v') = true /\
          length (str_split "." (Version.base v')) = length segs /\
          forall j, (j < length segs)%nat ->
            nth j (map digits_value (str_split "." (Version.base v'))) 0 =
              if Nat.ltb j last then nth j (map digits_value segs) 0
              else nth last (map digits_value segs) 0 + 1
      | Some _ =>
          Version.base v' = Version.base v /\
          Version.revision v' = Some (match Version.revision v with
                                      | Some r => r + 1
                                      | None => 2
                                      end)
      end.
Proof.
  intros v Hb Hlim segs last Hpr. unfold Version.bump.
  destruct (Version.stage v) as [st|] eqn:Es.
  - destruct (Version.revision v) as [r|]; eexists;
      (split; [reflexivity|]); split; try reflexivity; split; reflexivity.
  - destruct (bump_version_shape _ (-1) last Hb Hlim (last_index _) Hpr)
      as (bumped & Hbump & Hd & Hlen & Hnth).
    rewrite Hbump. cbn [bind]. eexists. split; [reflexivity|].
    split; [reflexivity|].
    cbn [Version.with_base_revision Version.base Version.revision].
    split; [reflexivity|]. split; [reflexivity|]. split; [exact Hd|].
    split; [exact Hlen|].
    intros j Hj. rewrite (Hnth j Hj).
    destruct (Nat.ltb_spec j last); [reflexivity|].
    assert (j = last) by (unfold last in *; fold segs in Hj; lia).
    subst j. rewrite Nat.eqb_refl. reflexivity.
Qed.

Lemma version_bump_default_witness :
  exists v',
    Version.bump (Version.init (lit "1.2.9") None 4 (Some (lit "abc")) None None None None None)
      (-1) = Ok v' /\
    bump_version (lit "1.2.9") (-1) = Ok (Version.base v').
Proof.
  destruct (version_bump_default
              (Version.init (lit "1.2.9") None 4 (Some (lit "abc")) None None None None None)
              eq_refl eq_refl eq_refl) as (v' & Hb & _ & _ & Hbv & _).
  exists v'. split; [exact Hb | exact Hbv].
Defined.

(** ** What [_match_version_pattern] selects *)

Lemma match_loop_found (pattern : regex) :
  forall sources pm newer last st b,
    match_loop pattern sources pm newer last = Ok st ->
    l_base st = Some b ->
    exists pre source post m,
      sources = pre ++ source :: post /\
      re_search pattern source = Some m /\
      groupdict_get pattern m "base" = Some b /\
      Forall (fun s => base_of pattern s = None) pre /\
      st = LoopState (Some m) (Some b) (newer ++ unmatched pattern pre) (Some source).
Proof.
  induction sources as [|s sources IH]; intros pm newer last st b Hst Hb; simpl in Hst.
  - inversion Hst; subst st. discriminate Hb.
  - destruct (re_search pattern s) as [m|] eqn:Hs.
    + unfold group_name in Hst.
      destruct (groupindex pattern "base") as [i|] eqn:Hg; [|discriminate Hst].
      destruct (lookup_cap i (caps m)) as [b'|] eqn:Hc.
      * inversion Hst; subst st. simpl in Hb. inversion Hb; subst b'.
        exists [], s, sources, m. simpl. rewrite app_nil_r.
        unfold groupdict_get. rewrite Hg.
        repeat split; try assumption; constructor.
      * destruct (IH _ _ _ _ _ Hst Hb) as (pre & src & post & m' & -> & Hm & Hb' & Hpre & ->).
        exists (s :: pre), src, post, m'.
        split; [reflexivity|]. split; [exact Hm|]. split; [exact Hb'|].
        split.
        -- constructor; [|exact Hpre].
           unfold base_of, group_of, groupdict_get. rewrite Hs, Hg. exact Hc.
        -- unfold unmatched, matches. simpl. rewrite Hs. reflexivity.
    + destruct (IH _ _ _ _ _ Hst Hb) as (pre & src & post & m' & -> & Hm & Hb' & Hpre & ->).
      exists (s :: pre), src, post, m'.
      split; [reflexivity|]. split; [exact Hm|]. split; [exact Hb'|].
      split.
      * constructor; [|exact Hpre]. unfold base_of, group_of. rewrite Hs. reflexivity.
      * unfold unmatched, matches. simpl. rewrite Hs. simpl.
        rewrite <- app_assoc. reflexivity.
Qed.

Lemma firstn_1_split {A} (l pre post : list A) (x : A) :
  firstn 1 l = pre ++ x :: post -> pre = [] /\ post = [].
Proof.
  destruct l as [|y l]; simpl.
  - destruct pre; discriminate.
  - destruct pre as [|p pre]; simpl; intros H; inversion H; subst.
    + split; reflexivity.
    + destruct pre; discriminate.
Qed.

(** X11. A result of [_match_version_pattern] is read from the first
    candidate in which the pattern matches with its [base] group set: every
    earlier candidate gives no base, the unmatched ones among them are the
    newer tags in order, the base, the stage and the tagged metadata are the
    texts of the groups of that match, and with [latest_source] the matched
    tag is the first source and there are no newer tags. *)
Theorem match_selects_first :
  forall (pattern : regex) (sources : list pystr) (latest_source : bool) (mp : Matched.t),
    _match_version_pattern pattern sources latest_source = Ok mp ->
    exists pre post,
      tested sources latest_source = pre ++ Matched.matched_tag mp :: post /\
      Forall (fun s => base_of pattern s = None) pre /\
      base_of pattern (Matched.matched_tag mp) = Some (Matched.base mp) /\
      Matched.newer_tags mp = unmatched pattern pre /\
      option_map fst (Matched.stage_revision mp)
        = group_of pattern "stage" (Matched.matched_tag mp) /\
      Matched.tagged_metadata mp
        = group_of pattern "tagged_metadata" (Matched.matched_tag mp) /\
      (latest_source = true -> pre = [] /\ Matched.newer_tags mp = []).
Proof.
  intros pattern sources latest mp H.
  unfold _match_version_pattern in H. fold (tested sources latest) in H.
  destruct (match_loop pattern (tested sources latest) None [] None) as [st|e] eqn:Hst;
    [|discriminate H].
  cbn [bind] in H.
  destruct (l_match st) as [pm|] eqn:Hpm.
  2:{ destruct latest; [destruct (getitem sources 0)|]; discriminate H. }
  destruct (l_base st) as [b|] eqn:Hb.
  2:{ destruct latest; [destruct (getitem sources 0)|]; discriminate H. }
  destruct (match_loop_found pattern _ _ _ _ _ _ Hst Hb)
    as (pre & src & post & m & Htested & Hm & Hbase & Hpre & Est).
  subst st. cbn [l_match l_base l_source l_newer] in *.
  inversion Hpm; subst pm. clear Hpm Hb.
  assert (Hmp : Matched.matched_tag mp = src /\ Matched.base mp = b /\
                Matched.newer_tags mp = unmatched pattern pre /\
                option_map fst (Matched.stage_revision mp) = groupdict_get pattern m "stage" /\
                Matched.tagged_metadata mp = groupdict_get pattern m "tagged_metadata").
  { destruct (groupdict_get pattern m "stage") as [st|];
      [destruct (groupdict_get pattern m "revision") as [rv|];
       [destruct (int_or BadRevision rv) as [r|]; [|discriminate H]|]|];
      cbn [bind] in H;
      (destruct (groupdict_get pattern m "epoch") as [ep|];
       [destruct (int_or BadEpoch ep) as [x|]; [|discriminate H]|]);
      cbn [bind] in H; inversion H; subst mp; simpl; repeat split; reflexivity. }
  destruct Hmp as (Htag & Hb & Hnewer & Hstage & Hmeta).
  exists pre, post. rewrite Htag.
  split; [exact Htested|]. split; [exact Hpre|].
  unfold base_of, group_of. rewrite Hm.
  split; [rewrite Hb; exact Hbase|].
  split; [exact Hnewer|]. split; [exact Hstage|]. split; [exact Hmeta|].
  intros ->. unfold tested in Htested.
  destruct (firstn_1_split _ _ _ _ Htested) as [-> _].
  split; [reflexivity | exact Hnewer].
Qed.

Lemma match_selects_first_witness :
  exists pre post,
    [lit "nightly"; lit "v1.2.3rc4+linux"; lit "v1.0.0"] = pre ++ lit "v1.2.3rc4+linux" :: post /\
    Forall (fun s => base_of VERSION_SOURCE_PATTERN s = None) pre /\
    unmatched VERSION_SOURCE_PATTERN pre = [lit "nightly"].
Proof.
  destruct (match_selects_first VERSION_SOURCE_PATTERN
              [lit "nightly"; lit "v1.2.3rc4+linux"; lit "v1.0.0"] false
              (Matched.Make (lit "v1.2.3rc4+linux") (lit "1.2.3") (Some (lit "rc", Some 4))
                 [lit "nightly"] (Some (lit "linux")) None)
              eq_refl) as (pre & post & Ht & Hpre & _ & Hn & _).
  exists pre, post. split; [exact Ht|]. split; [exact Hpre|]. symmetry. exact Hn.
Defined.

Lemma match_loop_stops (pattern : regex) (source b : pystr) (post : list pystr) :
  base_of pattern source = Some b ->
  forall pre pm newer last,
    match_loop pattern (pre ++ source :: post) pm newer last =
    match_loop pattern (pre ++ [source]) pm newer last.
Proof.
  intros Hb. unfold base_of, group_of in Hb.
  destruct (re_search pattern source) as [m|] eqn:Hs; [|discriminate Hb].
  unfold groupdict_get in Hb.
  destruct (groupindex pattern "base") as [i|] eqn:Hg; [|discriminate Hb].
  induction pre as [|s pre IH]; intros pm newer last; simpl.
  - rewrite Hs. unfold group_name. rewrite Hg, Hb. reflexivity.
  - destruct (re_search pattern s) as [m'|]; [|apply IH].
    unfold group_name. rewrite Hg.
    destruct (lookup_cap i (caps m')); [reflexivity | apply IH].
Qed.

(** X12. Without [latest_source], the candidates after the first one that
    gives a base are never looked at: the result, or the error, is the same
    with or without them. *)
Theorem match_ignores_older :
  forall (pattern : regex) (pre post : list pystr) (source b : pystr),
    base_of pattern source = Some b ->
    _match_version_pattern pattern (pre ++ source :: post) false =
    _match_version_pattern pattern (pre ++ [source]) false.
Proof.
  intros pattern pre post source b Hb.
  unfold _match_version_pattern.
  rewrite (match_loop_stops pattern source b post Hb pre None [] None).
  reflexivity.
Qed.

Lemma match_ignores_older_witness :
  _match_version_pattern VERSION_SOURCE_PATTERN
    ([lit "nightly"] ++ lit "v1.2.3" :: [lit "v1.0.0"; lit "v0.9"]) false =
  _match_version_pattern VERSION_SOURCE_PATTERN ([lit "nightly"] ++ [lit "v1.2.3"]) false.
Proof.
  exact (match_ignores_older VERSION_SOURCE_PATTERN [lit "nightly"]
           [lit "v1.0.0"; lit "v0.9"] (lit "v1.2.3") (lit "1.2.3") eq_refl).
Defined.

Lemma match_loop_no_base (pattern : regex) (i : nat) :
  groupindex pattern "base" = Some i ->
  forall sources pm newer last,
    Forall (fun s => base_of pattern s = None) sources ->
    exists st, match_loop pattern sources pm newer last = Ok st /\ l_base st = None.
Proof.
  intros Hg. induction sources as [|s sources IH]; intros pm newer last Hall; simpl.
  - eexists. split; reflexivity.
  - inversion Hall as [|? ? Hs Hrest]; subst.
    unfold base_of, group_of, groupdict_get in Hs. rewrite Hg in Hs.
    destruct (re_search pattern s) as [m|]; [|apply IH; exact Hrest].
    unfold group_name. rewrite Hg, Hs. apply IH. exact Hrest.
Qed.

(** X13. With a pattern that has a [base] group, when no candidate gives a
    base (the pattern does not match it, or matches with the group unset),
    [_match_version_pattern] fails with the error of a pattern that matched
    nothing: the one naming the latest tag with [latest_source], the one
    about all tags without, and [IndexError] for no source at all with
    [latest_source]. *)
Theorem match_without_base_text :
  forall (pattern : regex) (i : nat) (sources : list pystr) (latest_source : bool),
    groupindex pattern "base" = Some i ->
    Forall (fun s => base_of pattern s = None) (tested sources latest_source) ->
    _match_version_pattern pattern sources latest_source =
      if latest_source then
        match sources with
        | [] => Raise IndexError
        | first :: _ => Raise (ValueError (NoMatchLatest first))
        end
      else Raise (ValueError NoMatchAny).
Proof.
  intros pattern i sources latest Hg Hall.
  unfold _match_version_pattern. fold (tested sources latest).
  destruct (match_loop_no_base pattern i Hg _ None [] None Hall) as (st & Hst & Hb).
  rewrite Hst. cbn [bind]. rewrite Hb.
  destruct (l_match st); destruct latest; try reflexivity; destruct sources; reflexivity.
Qed.

Lemma match_without_base_text_witness :
  _match_version_pattern (Opt (Group 1 (Some "base"%string) digits) +++ Chr is_alpha)
    [lit "abc"; lit "---"] false = Raise (ValueError NoMatchAny).
Proof.
  apply (match_without_base_text (Opt (Group 1 (Some "base"%string) digits) +++ Chr is_alpha)
           1%nat [lit "abc"; lit "---"] false eq_refl).
  repeat constructor.
Defined.

(** ** What [_VALID_PVP] accepts *)

Lemma dash_not_alnum : is_alnum "-"%char = false.
Proof. reflexivity. Qed.

Lemma dashed_tail_stops_alnum (tokens : list pystr) :
  stops is_alnum (dashed_tail tokens) = true.
Proof. destruct tokens; reflexivity. Qed.

Lemma dashed_tail_base_stops (tokens : list pystr) :
  base_stops (dashed_tail tokens) = true.
Proof. destruct tokens; reflexivity. Qed.

Lemma alphanumeric_alnum (s : pystr) :
  alphanumeric s = true -> s <> [] /\ forallb is_alnum s = true.
Proof.
  destruct s; simpl; intros H; [discriminate|]. split; [discriminate | exact H].
Qed.

Lemma star_dashed g nm k Q (tokens : list pystr) :
  forall p c fuel,
    forallb alphanumeric tokens = true ->
    (length (dashed_tail tokens) < fuel)%nat ->
    (forall c', yields Q (k (MState (p + length (dashed_tail tokens)) [] c'))) ->
    yields Q (star_loop (mt (Group g nm (Chr (is_char "-") +++ Plus (Chr is_alnum)))) k fuel
                (MState p (dashed_tail tokens) c)).
Proof.
  induction tokens as [|t1 tokens IH]; intros p c fuel Hall Hfuel Hk;
    (destruct fuel as [|fuel]; [simpl in Hfuel; lia|]); rewrite star_loop_S.
  - simpl dashed_tail. rewrite mt_group, mt_seq, mt_chr_nil.
    specialize (Hk c). simpl in Hk. rewrite Nat.add_0_r in Hk. exact Hk.
  - simpl in Hall. apply andb_prop in Hall. destruct Hall as [Ht1 Hall].
    apply alphanumeric_alnum in Ht1. destruct Ht1 as [Hne Ha].
    change (dashed_tail (t1 :: tokens)) with ("-"%char :: t1 ++ dashed_tail tokens) in *.
    match goal with
    | |- yields Q (match ?o with Some m => Some m | None => _ end) =>
        assert (Hstep : yields Q o); [|destruct o; [exact Hstep | destruct Hstep]]
    end.
    rewrite mt_group, mt_seq, mt_chr.
    change (is_char "-" "-"%char) with true. cbv iota.
    apply plus_chr_greedy;
      [exact Hne | exact Ha | apply dashed_tail_stops_alnum |].
    cbn [pos rest caps]. unfold set_cap. cbn [pos rest caps].
    assert (Hlt : Nat.ltb (length (dashed_tail tokens))
                    (length ("-"%char :: t1 ++ dashed_tail tokens)) = true).
    { apply Nat.ltb_lt. simpl. rewrite !length_app. lia. }
    rewrite Hlt.
    apply IH; [exact Hall | |].
    + simpl in Hfuel. rewrite !length_app in Hfuel. lia.
    + intros c'. specialize (Hk c').
      replace (S p + length t1 + length (dashed_tail tokens))%nat
        with (p + length ("-"%char :: t1 ++ dashed_tail tokens))%nat
        by (simpl; rewrite length_app; lia).
      exact Hk.
Qed.

Lemma pvp_accepts (g1 : pystr) (groups tokens : list pystr) :
  forallb numeric (g1 :: groups) = true ->
  forallb alphanumeric tokens = true ->
  matches _VALID_PVP (str_join (lit ".") (g1 :: groups) ++ dashed_tail tokens) = true.
Proof.
  intros Hnum Hall.
  unfold matches, _VALID_PVP. rewrite re_search_bol.
  match goal with
  | |- is_some ?o = true =>
      assert (H : yields (fun _ => True) o); [|destruct o; [reflexivity | destruct H]]
  end.
  apply (dotted_greedy 1 None
           (mt (Star (Group 2 None (Chr (is_char "-") +++ Plus (Chr is_alnum))) +++ Eol) accept));
    [exact Hnum | apply dashed_tail_base_stops |].
  intros c' _. rewrite mt_seq, mt_star. cbn [rest].
  apply star_dashed; [exact Hall | lia |].
  intros c''. rewrite mt_eol_nil. exact I.
Qed.

Lemma join_dashed (t1 : pystr) (tokens : list pystr) :
  "-"%char :: str_join (lit "-") (t1 :: tokens) = dashed_tail (t1 :: tokens).
Proof.
  revert t1. induction tokens as [|t2 tokens IH]; intros t1.
  - unfold dashed_tail. cbn [map concat str_join]. rewrite app_nil_r. reflexivity.
  - change (str_join (lit "-") (t1 :: t2 :: tokens))
      with (t1 ++ "-"%char :: str_join (lit "-") (t2 :: tokens)).
    rewrite IH. reflexivity.
Qed.

(** X14. [serialize_pvp] on a base of dot-separated numbers with metadata
    whose items are written as non-empty runs of letters and digits: when
    every item prints, the result is the base followed by each item behind a
    dash; when a number among them has more than [int_max_str_digits]
    digits, a [ValueError]. Without metadata the result is the base alone. *)
Theorem serialize_pvp_accepts :
  forall (base : pystr) (metadata : list atom),
    dotted_numeric base = true ->
    forallb alphanumeric (map atom_text metadata) = true ->
    serialize_pvp base (Some metadata) =
      (if forallb printable_atom metadata
       then Ok (base ++ dashed_tail (map atom_text metadata))
       else Raise (ValueError ExceedsLimit)) /\
    serialize_pvp base None = Ok base.
Proof.
  intros base metadata Hb Hall.
  destruct (dotted_numeric_groups base Hb) as (g1 & groups & -> & Hnum).
  assert (Hcheck : forall tokens, forallb alphanumeric tokens = true ->
             check_version (str_join (lit ".") (g1 :: groups) ++ dashed_tail tokens) Pvp = Ok tt).
  { intros tokens Ht. pose proof (pvp_accepts g1 groups tokens Hnum Ht) as Hm.
    unfold matches in Hm. unfold check_version. cbn [style_pattern].
    destruct (re_search _VALID_PVP _); [reflexivity | discriminate Hm]. }
  assert (Hbare : serialize_pvp (str_join (lit ".") (g1 :: groups)) None
                  = Ok (str_join (lit ".") (g1 :: groups))).
  { unfold serialize_pvp. rewrite extend_joined_none by reflexivity. cbn [bind].
    rewrite join_str_spec. cbn [app forallb printable_atom andb map atom_text concat].
    rewrite app_nil_r. specialize (Hcheck [] eq_refl).
    simpl dashed_tail in Hcheck. rewrite app_nil_r in Hcheck.
    cbn [bind]. rewrite Hcheck. reflexivity. }
  split; [|exact Hbare].
  destruct metadata as [|x l].
  - cbn [forallb map]. simpl dashed_tail. rewrite app_nil_r.
    unfold serialize_pvp. rewrite extend_joined_none by reflexivity.
    unfold serialize_pvp in Hbare. rewrite extend_joined_none in Hbare by reflexivity.
    exact Hbare.
  - unfold serialize_pvp, extend_joined. cbn [nonempty].
    rewrite join_atoms_spec.
    destruct (forallb printable_atom (x :: l)); cbn [bind]; [|reflexivity].
    rewrite join_str_spec. cbn [app forallb printable_atom andb map atom_text concat].
    rewrite app_nil_r.
    change (lit "-" ++ str_join (lit "-") (atom_text x :: map atom_text l))
      with ("-"%char :: str_join (lit "-") (atom_text x :: map atom_text l)).
    rewrite (join_dashed (atom_text x) (map atom_text l)).
    change (atom_text x :: map atom_text l) with (map atom_text (x :: l)).
    cbn [bind]. rewrite (Hcheck _ Hall). reflexivity.
Qed.

Lemma serialize_pvp_accepts_witness :
  serialize_pvp (lit "1.2.3") (Some [AStr (lit "rc"); AInt 7; AStr (lit "abc123")])
    = Ok (lit "1.2.3-rc-7-abc123").
Proof.
  exact (proj1 (serialize_pvp_accepts (lit "1.2.3")
                  [AStr (lit "rc"); AInt 7; AStr (lit "abc123")] eq_refl eq_refl)).
Defined.

(** ** A bare base under [_VALID_SEMVER] *)

Lemma star_chr_exact f k (xs : pystr) :
  forall p t c,
    forallb f xs = true -> stops f t = true ->
    (forall p' x r c', f x = true -> k (MState p' (x :: r) c') = None) ->
    star_chr f k p (xs ++ t) c = k (MState (p + length xs) t c).
Proof.
  induction xs as [|x xs IH]; intros p t c Hxs Ht Hk.
  - simpl. rewrite Nat.add_0_r. destruct t as [|y t]; [reflexivity|].
    simpl in Ht. apply negb_true_iff in Ht. simpl. rewrite Ht. reflexivity.
  - simpl in Hxs. apply andb_prop in Hxs. destruct Hxs as [Hx Hxs].
    simpl. rewrite Hx, (IH (S p) t c Hxs Ht Hk), Nat.add_succ_r.
    change (S p + length xs)%nat with (S (p + length xs)).
    destruct (k (MState (S (p + length xs)) t c)) eqn:E; [reflexivity|].
    apply Hk. exact Hx.
Qed.

(** A run of digits is taken whole by [\d+] when what follows cannot start
    at a digit. *)
Lemma digits_exact k (ds t : pystr) p c :
  numeric ds = true -> stops is_digit t = true ->
  (forall p' x r c', is_digit x = true -> k (MState p' (x :: r) c') = None) ->
  mt digits k (MState p (ds ++ t) c) = k (MState (p + length ds) t c).
Proof.
  intros Hn Ht Hk. apply numeric_digits in Hn. destruct Hn as [Hne Hd].
  unfold digits. rewrite mt_plus_chr.
  destruct ds as [|x xs]; [congruence|].
  simpl in Hd. apply andb_prop in Hd. destruct Hd as [Hx Hxs].
  cbn [app]. rewrite Hx, (star_chr_exact is_digit k xs (S p) t c Hxs Ht Hk).
  simpl length. rewrite Nat.add_succ_r. reflexivity.
Qed.

Lemma dot_fails_on_digit (R : regex) k p x r c :
  is_digit x = true -> mt (Chr (is_char ".") +++ R) k (MState p (x :: r) c) = None.
Proof.
  intros Hx. rewrite mt_seq, mt_chr, (digit_not_dot x Hx). reflexivity.
Qed.

Lemma digits_dot (R : regex) k (a t : pystr) p c :
  numeric a = true ->
  mt (digits +++ Chr (is_char ".") +++ R) k (MState p (a ++ "."%char :: t) c) =
    mt R k (MState (S (p + length a)) t c).
Proof.
  intros Ha. rewrite mt_seq.
  rewrite (digits_exact _ a ("."%char :: t) p c Ha eq_refl).
  - rewrite mt_seq, mt_chr. reflexivity.
  - intros p' x r c' Hx. apply dot_fails_on_digit. exact Hx.
Qed.

Lemma digits_dot_end (R : regex) k (a : pystr) p c :
  numeric a = true ->
  mt (digits +++ Chr (is_char ".") +++ R) k (MState p a c) = None.
Proof.
  intros Ha. rewrite mt_seq. rewrite <- (app_nil_r a).
  rewrite (digits_exact _ a [] p c Ha eq_refl).
  - reflexivity.
  - intros p' x r c' Hx. apply dot_fails_on_digit. exact Hx.
Qed.

Lemma digit_or_dot_plain (x : ascii) :
  is_digit x = true \/ is_char "." x = true ->
  is_char "-" x = false /\ is_char "+" x = false /\ N.eqb (code x) 10 = false.
Proof. by_cases_on_char x. Qed.

Lemma semver_tail_fails (a b : regex) p x r c :
  is_digit x = true \/ is_char "." x = true ->
  mt (Opt (Group 1 None (Chr (is_char "-") +++ a)) +++
      Opt (Group 3 None (Chr (is_char "+") +++ b)) +++ Eol) accept
     (MState p (x :: r) c) = None.
Proof.
  intros Hx. destruct (digit_or_dot_plain x Hx) as (Hd & Hp & Hn).
  rewrite mt_seq, mt_opt, mt_group, mt_seq, mt_chr, Hd.
  rewrite mt_seq, mt_opt, mt_group, mt_seq, mt_chr, Hp.
  cbn [mt rest]. rewrite Hn. destruct r; reflexivity.
Qed.

Lemma semver_core (segs : list pystr) :
  forallb numeric segs = true -> segs <> [] ->
  matches _VALID_SEMVER (str_join (lit ".") segs) = Nat.eqb (length segs) 3.
Proof.
  intros Hnum Hne. unfold matches, _VALID_SEMVER. rewrite re_search_bol.
  destruct segs as [|a segs]; [congruence|].
  simpl in Hnum. apply andb_prop in Hnum. destruct Hnum as [Ha Hnum].
  destruct segs as [|b segs].
  { cbn [str_join]. rewrite (digits_dot_end _ _ a 0 [] Ha). reflexivity. }
  change (str_join (lit ".") (a :: b :: segs))
    with (a ++ "."%char :: str_join (lit ".") (b :: segs)).
  rewrite (digits_dot _ _ a _ 0 [] Ha).
  simpl in Hnum. apply andb_prop in Hnum. destruct Hnum as [Hb Hnum].
  destruct segs as [|c segs].
  { cbn [str_join]. rewrite (digits_dot_end _ _ b _ [] Hb). reflexivity. }
  change (str_join (lit ".") (b :: c :: segs))
    with (b ++ "."%char :: str_join (lit ".") (c :: segs)).
  rewrite (digits_dot _ _ b _ _ [] Hb).
  simpl in Hnum. apply andb_prop in Hnum. destruct Hnum as [Hc Hnum].
  rewrite mt_seq.
  destruct segs as [|d segs].
  - cbn [str_join]. rewrite <- (app_nil_r c).
    rewrite (digits_exact _ c [] _ [] Hc eq_refl).
    + reflexivity.
    + intros p' x r c' Hx. apply semver_tail_fails. left. exact Hx.
  - change (str_join (lit ".") (c :: d :: segs))
      with (c ++ "."%char :: str_join (lit ".") (d :: segs)).
    rewrite (digits_exact _ c ("."%char :: str_join (lit ".") (d :: segs)) _ [] Hc eq_refl).
    + rewrite semver_tail_fails by (right; reflexivity). reflexivity.
    + intros p' x r c' Hx. apply semver_tail_fails. left. exact Hx.
Qed.

Lemma leading_zero_numeric (seg : pystr) :
  numeric seg = true -> matches LEADING_ZERO seg = leading_zero seg.
Proof.
  intros Hn.
  destruct (matches LEADING_ZERO seg) eqn:Em; destruct (leading_zero seg) eqn:El;
    try reflexivity; exfalso.
  - apply leading_zero_matches in Em. destruct Em as (ds & Hds & Hseg).
    apply numeric_digits in Hds. destruct Hds as [Hne _].
    destruct ds as [|y ds]; [congruence|].
    destruct Hseg as [->| ->]; discriminate El.
  - assert (Hm : matches LEADING_ZERO seg = true); [|congruence].
    apply leading_zero_matches.
    destruct seg as [|c [|y t]]; try discriminate El.
    simpl in El. unfold is_char in El. apply Ascii.eqb_eq in El. subst c.
    exists (y :: t). split; [|left; reflexivity].
    apply numeric_digits in Hn. destruct Hn as [_ Hd].
    change (numeric (y :: t)) with (forallb is_digit (y :: t)).
    rewrite forallb_forall in Hd. apply forallb_forall.
    intros z Hz. apply Hd. right. exact Hz.
Qed.

Lemma split_join_by (f : ascii -> bool) (sep : ascii) (segs : list pystr) :
  f sep = true -> segs <> [] ->
  forallb (fun seg => forallb (fun c => negb (f c)) seg) segs = true ->
  split_by f None (str_join [sep] segs) = segs.
Proof.
  intros Hsep.
  induction segs as [|seg segs IH]; intros Hne H; [congruence|].
  simpl in H. apply andb_prop in H. destruct H as [Hseg Hrest].
  destruct segs as [|seg' segs'].
  - simpl. apply split_by_no_sep. exact Hseg.
  - change (str_join [sep] (seg :: seg' :: segs'))
      with (seg ++ sep :: str_join [sep] (seg' :: segs')).
    rewrite (split_by_app _ seg _ Hseg).
    change (split_by f None (sep :: str_join [sep] (seg' :: segs')))
      with (if f sep
            then [] :: split_by f None (str_join [sep] (seg' :: segs'))
            else match split_by f None (str_join [sep] (seg' :: segs')) with
                 | h :: r => (sep :: h) :: r
                 | [] => [[sep]]
                 end).
    rewrite Hsep.
    rewrite IH by (try discriminate; exact Hrest).
    rewrite app_nil_r. reflexivity.
Qed.

Lemma forallb_join (P : ascii -> bool) (sep : ascii) (segs : list pystr) :
  P sep = true -> forallb (forallb P) segs = true ->
  forallb P (str_join [sep] segs) = true.
Proof.
  intros Hsep. induction segs as [|seg segs IH]; intros H; [reflexivity|].
  simpl in H. apply andb_prop in H. destruct H as [Hseg Hrest].
  destruct segs as [|seg' segs']; [exact Hseg|].
  change (str_join [sep] (seg :: seg' :: segs'))
    with (seg ++ sep :: str_join [sep] (seg' :: segs')).
  rewrite forallb_app, Hseg. simpl. rewrite Hsep. apply IH. exact Hrest.
Qed.

Lemma digit_plain (c : ascii) :
  is_digit c = true -> negb (is_char "+" c) = true /\ negb (is_dot_dash c) = true.
Proof. by_cases_on_char c. Qed.

Lemma semver_parts (segs : list pystr) :
  forallb numeric segs = true -> segs <> [] ->
  split_by is_dot_dash None (before_plus (str_join (lit ".") segs)) = segs.
Proof.
  intros Hnum Hne.
  assert (Hd : forall seg, In seg segs -> forall c, In c seg -> is_digit c = true).
  { intros seg Hseg c Hc. rewrite forallb_forall in Hnum.
    destruct (numeric_digits seg (Hnum seg Hseg)) as [_ H].
    rewrite forallb_forall in H. exact (H c Hc). }
  unfold before_plus. rewrite take_while_id.
  - apply (split_join_by is_dot_dash "." segs eq_refl Hne).
    apply forallb_forall. intros seg Hseg. apply forallb_forall. intros c Hc.
    exact (proj2 (digit_plain c (Hd seg Hseg c Hc))).
  - apply (forallb_join (fun c => negb (is_char "+" c)) "." segs eq_refl).
    apply forallb_forall. intros seg Hseg. apply forallb_forall. intros c Hc.
    exact (proj1 (digit_plain c (Hd seg Hseg c Hc))).
Qed.

Lemma existsb_agree {A} (f g : A -> bool) (l : list A) :
  (forall x, In x l -> f x = g x) -> existsb f l = existsb g l.
Proof.
  induction l as [|x l IH]; intros H; [reflexivity|].
  simpl. rewrite (H x (or_introl eq_refl)), IH; [reflexivity|].
  intros y Hy. apply H. right. exact Hy.
Qed.

Lemma semver_check_bare (base : pystr) :
  dotted_numeric base = true ->
  check_version base SemVer =
    if (Nat.eqb (length (str_split "." base)) 3 &&
        negb (existsb leading_zero (str_split "." base)))%bool
    then Ok tt
    else Raise (ValueError (NotConforming base SemVer)).
Proof.
  intros Hb.
  assert (Hjoin : str_join (lit ".") (str_split "." base) = base)
    by (apply (join_split "." base)).
  assert (Hne : str_split "." base <> []) by (apply split_by_not_nil).
  unfold dotted_numeric in Hb.
  set (segs := str_split "." base) in *.
  rewrite check_version_semver.
  pose proof (semver_core segs Hb Hne) as Hcore.
  pose proof (semver_parts segs Hb Hne) as Hparts.
  rewrite Hjoin in Hcore, Hparts. unfold matches in Hcore.
  rewrite Hparts.
  rewrite (existsb_agree (matches LEADING_ZERO) leading_zero segs).
  - destruct (re_search _VALID_SEMVER base); simpl in Hcore; rewrite <- Hcore;
      [|reflexivity].
    simpl andb. destruct (existsb leading_zero segs); reflexivity.
  - intros seg Hseg. apply leading_zero_numeric.
    rewrite forallb_forall in Hb. exact (Hb seg Hseg).
Qed.

(** X15. [serialize_semver] on a base of dot-separated numbers, without
    pre-release identifiers and metadata (none given, or empty lists),
    returns the base exactly when it has three segments and none of them
    is a number written with a leading zero; any other such base is
    rejected as not conforming. *)
Theorem serialize_semver_base :
  forall (base : pystr) (pre metadata : option (list atom)),
    dotted_numeric base = true ->
    nonempty pre = None -> nonempty metadata = None ->
    serialize_semver base pre metadata =
      if (Nat.eqb (length (str_split "." base)) 3 &&
          negb (existsb leading_zero (str_split "." base)))%bool
      then Ok base
      else Raise (ValueError (NotConforming base SemVer)).
Proof.
  intros base pre metadata Hb Hpre Hmeta.
  unfold serialize_semver. rewrite !extend_joined_none by assumption.
  cbn [bind]. rewrite join_str_spec.
  cbn [app forallb printable_atom andb map atom_text concat bind].
  rewrite app_nil_r, (semver_check_bare base Hb).
  destruct (Nat.eqb (length (str_split "." base)) 3 &&
            negb (existsb leading_zero (str_split "." base)))%bool; reflexivity.
Qed.

Lemma serialize_semver_base_witness :
  serialize_semver (lit "1.20.3") None None = Ok (lit "1.20.3") /\
  serialize_semver (lit "1.02.3") None (Some [])
    = Raise (ValueError (NotConforming (lit "1.02.3") SemVer)) /\
  serialize_semver (lit "1.2") (Some []) None
    = Raise (ValueError (NotConforming (lit "1.2") SemVer)).
Proof.
  split; [|split].
  - exact (serialize_semver_base (lit "1.20.3") None None eq_refl eq_refl eq_refl).
  - exact (serialize_semver_base (lit "1.02.3") None (Some []) eq_refl eq_refl eq_refl).
  - exact (serialize_semver_base (lit "1.2") (Some []) None eq_refl eq_refl eq_refl).
Defined.

(** ** Tag references *)

Lemma str_replace_absent (old new : pystr) :
  forall fuel s, occurs old s = false -> str_replace_from old new fuel s = s.
Proof.
  induction fuel as [|fuel IH]; intros s H; [reflexivity|].
  destruct s as [|c t]; simpl in H |- *.
  - apply orb_false_elim in H. destruct H as [H _]. rewrite H. reflexivity.
  - apply orb_false_elim in H. destruct H as [H Ht]. rewrite H, (IH t Ht). reflexivity.
Qed.

Lemma startswith_app (p s : pystr) : startswith p (p ++ s) = true.
Proof.
  induction p as [|c p IH]; simpl; [reflexivity|].
  rewrite Ascii.eqb_refl. exact IH.
Qed.

Lemma skipn_prefix {A} (p s : list A) : skipn (length p) (p ++ s) = s.
Proof. induction p as [|c p IH]; simpl; [reflexivity | exact IH]. Qed.

(** X16. [normalize_tag_ref] always gives a reference under [refs/tags/]
    and leaves such a reference alone, so it is idempotent; and [ref] gives
    back the tag name it was made from, provided [refs/tags/] does not occur
    in the name itself. *)
Theorem tag_ref_round_trip :
  forall tag : pystr,
    startswith (lit "refs/tags/") (GitRefInfo.normalize_tag_ref tag) = true /\
    GitRefInfo.normalize_tag_ref (GitRefInfo.normalize_tag_ref tag)
      = GitRefInfo.normalize_tag_ref tag /\
    (occurs (lit "refs/tags/") tag = false ->
     GitRefInfo.ref (GitRefInfo.normalize_tag_ref tag) = tag).
Proof.
  intros tag.
  assert (Hpre : startswith (lit "refs/tags/") (GitRefInfo.normalize_tag_ref tag) = true).
  { unfold GitRefInfo.normalize_tag_ref.
    destruct (startswith (lit "refs/tags/") tag) eqn:E; [exact E | apply startswith_app]. }
  split; [exact Hpre|]. split.
  - unfold GitRefInfo.normalize_tag_ref at 1. rewrite Hpre. reflexivity.
  - intros Hocc.
    assert (Hs : startswith (lit "refs/tags/") tag = false).
    { destruct tag as [|c t]; [reflexivity|].
      change (occurs (lit "refs/tags/") (c :: t))
        with (startswith (lit "refs/tags/") (c :: t) || occurs (lit "refs/tags/") t)%bool
        in Hocc.
      apply orb_false_elim in Hocc. tauto. }
    unfold GitRefInfo.normalize_tag_ref. rewrite Hs.
    unfold GitRefInfo.ref, str_replace.
    change (str_replace_from ?o ?n (S ?f) ?s)
      with (if startswith o s
            then n ++ str_replace_from o n f (skipn (length o) s)
            else match s with
                 | [] => []
                 | c :: t => c :: str_replace_from o n f t
                 end).
    rewrite startswith_app, skipn_prefix. cbn [app].
    apply str_replace_absent. exact Hocc.
Qed.

(** ** A version that is only a base *)

Lemma pep440_check_bare (base : pystr) :
  dotted_numeric base = true -> check_version base Pep440 = Ok tt.
Proof.
  intros Hb. destruct (dotted_numeric_groups base Hb) as (g1 & groups & -> & Hnum).
  apply check_version_pep440.
  pose proof (pep440_accepts g1 groups None None None Hnum I eq_refl eq_refl) as H.
  simpl pep440_tail in H. rewrite app_nil_r in H. exact H.
Qed.

Lemma pvp_check_bare (base : pystr) :
  dotted_numeric base = true -> check_version base Pvp = Ok tt.
Proof.
  intros Hb. destruct (dotted_numeric_groups base Hb) as (g1 & groups & -> & Hnum).
  pose proof (pvp_accepts g1 groups [] Hnum eq_refl) as H.
  simpl dashed_tail in H. rewrite app_nil_r in H.
  unfold matches in H. unfold check_version. cbn [style_pattern].
  destruct (re_search _VALID_PVP _); [reflexivity | discriminate H].
Qed.

(** X17. A version made of a base of dot-separated numbers alone,
    [Version(base)], serializes to that base: with the default style, with
    PEP 440 and with PVP, whatever the metadata, dirty, bump and
    tagged-metadata flags; with SemVer it does so exactly when the base has
    three segments none of which has a leading zero, and is rejected
    otherwise. [str] of it is the base. *)
Theorem serialize_bare_base :
  forall (base : pystr) (metadata : option bool) (dirty bump tagged_metadata : bool),
    dotted_numeric base = true ->
    let v := Version.of_base base in
    Version.serialize v metadata dirty None None bump tagged_metadata = Ok base /\
    Version.serialize v metadata dirty None (Some Pep440) bump tagged_metadata = Ok base /\
    Version.serialize v metadata dirty None (Some Pvp) bump tagged_metadata = Ok base /\
    Version.serialize v metadata dirty None (Some SemVer) bump tagged_metadata =
      (if (Nat.eqb (length (str_split "." base)) 3 &&
           negb (existsb leading_zero (str_split "." base)))%bool
       then Ok base
       else Raise (ValueError (NotConforming base SemVer))) /\
    Version.__str__ v = Ok base.
Proof.
  intros base metadata dirty bump tagged Hb v.
  assert (Hgo : forall metadata dirty bump tagged style,
             Version.serialize v metadata dirty None style bump tagged =
               (check_version base (_blank style Pep440) ;;; Ok base)).
  { clear metadata dirty bump tagged. intros metadata dirty bump tagged style. unfold Version.serialize, v, Version.of_base, Version.init.
    cbn [Version.distance Version.base Version.revision Version.stage Version.commit
         Version.dirty Version.tagged_metadata Version.epoch].
    rewrite andb_false_r. cbn [bind fst snd].
    cbv zeta. change (0 >? 0) with false. cbv iota. cbn [bind app].
    match goal with
    | |- context [serialize_pvp _ (Some (map AStr ?m))] =>
        assert (Hmeta : m = [])
          by (unfold Version.truth, _blank; rewrite andb_false_r;
              destruct metadata as [[|]|]; reflexivity)
    end.
    rewrite Hmeta. cbn [map orb fst snd].
    destruct (_blank style Pep440);
      [unfold serialize_pep440 | unfold serialize_semver | unfold serialize_pvp];
      rewrite !extend_joined_none by reflexivity; cbn [bind];
      rewrite join_str_spec;
      cbn [opt_atoms app forallb printable_atom andb map atom_text concat];
      rewrite app_nil_r; apply checked_again. }
  rewrite !Hgo. unfold Version.__str__. fold v. rewrite Hgo. cbn [_blank].
  rewrite (pep440_check_bare base Hb), (pvp_check_bare base Hb),
    (semver_check_bare base Hb).
  repeat split; try reflexivity.
  destruct (Nat.eqb (length (str_split "." base)) 3 &&
            negb (existsb leading_zero (str_split "." base)))%bool; reflexivity.
Qed.

Lemma serialize_bare_base_witness :
  Version.serialize (Version.of_base (lit "0.10")) (Some true) true None None true true
    = Ok (lit "0.10") /\
  Version.__str__ (Version.of_base (lit "0.10")) = Ok (lit "0.10").
Proof.
  destruct (serialize_bare_base (lit "0.10") (Some true) true true true eq_refl)
    as (H1 & _ & _ & _ & H5).
  split; [exact H1 | exact H5].
Defined.

(** ** [Version.parse] and the leading ["v"] *)

(** X18. [Version.parse] puts a ["v"] in front of a string that does not
    start with one before it tries the pattern. So when the pattern gives a
    result the string parses the same with and without its ["v"]; when it
    gives none, the string as written, ["v"] included, becomes the base. *)
Theorem parse_optional_prefix :
  forall (version : pystr) (pattern : regex),
    startswith (lit "v") version = false ->
    match _match_version_pattern pattern [prefixed version] true with
    | Ok _ => Version.parse (lit "v" ++ version) pattern = Version.parse version pattern
    | Raise _ =>
        Version.parse (lit "v" ++ version) pattern = Ok (Version.of_base (lit "v" ++ version)) /\
        Version.parse version pattern = Ok (Version.of_base version)
    end.
Proof.
  intros version pattern Hv.
  assert (H1 : prefixed (lit "v" ++ version) = prefixed version)
    by (unfold prefixed at 2; rewrite Hv; reflexivity).
  destruct (_match_version_pattern pattern [prefixed version] true) as [mp|e] eqn:E.
  - rewrite (parse_of_match (lit "v" ++ version) pattern mp) by (rewrite H1; exact E).
    rewrite (parse_of_match version pattern mp) by exact E.
    reflexivity.
  - assert (Hp : forall s, prefixed s = prefixed version ->
                   Version.parse s pattern = Ok (Version.of_base s)).
    { intros s Hs. destruct (match_one_raises _ _ _ E) as (m & Hm).
      unfold Version.parse. fold (prefixed s). rewrite Hs, E, Hm. reflexivity. }
    split; [exact (Hp _ H1) | exact (Hp _ eq_refl)].
Qed.

Lemma parse_optional_prefix_witness :
  Version.parse (lit "v1.2.3") VERSION_SOURCE_PATTERN
    = Version.parse (lit "1.2.3") VERSION_SOURCE_PATTERN.
Proof.
  exact (parse_optional_prefix (lit "1.2.3") VERSION_SOURCE_PATTERN eq_refl).
Defined.

(** ** The matcher against the matches of a pattern *)

Lemma star_loop_sound (a : regex) :
  (forall k s m, mt a k s = Some m -> exists s', run a s s' /\ k s' = Some m) ->
  forall fuel k s m,
    star_loop (mt a) k fuel s = Some m ->
    exists s', run (Star a) s s' /\ k s' = Some m.
Proof.
  intros IHa. induction fuel as [|fuel IH]; intros k s m H.
  - exists s. split; [constructor | exact H].
  - rewrite star_loop_S in H.
    match type of H with
    | match mt a ?K s with _ => _ end = _ => destruct (mt a K s) as [m0|] eqn:E
    end.
    + inversion H; subst m0.
      destruct (IHa _ _ _ E) as (s1 & Hrun & Hk).
      destruct (Nat.ltb (length (rest s1)) (length (rest s))); [|discriminate Hk].
      destruct (IH _ _ _ Hk) as (s2 & Hstar & Hk2).
      exists s2. split; [eapply run_star_more; eassumption | exact Hk2].
    + exists s. split; [constructor | exact H].
Qed.

(** Whatever the matcher returns is a match of the pattern: the
    continuation was entered in a state the pattern leads to. *)
Lemma mt_sound (r : regex) :
  forall k s m, mt r k s = Some m -> exists s', run r s s' /\ k s' = Some m.
Proof.
  induction r as [|f|a IHa b IHb|a IHa b IHb|a IHa|a IHa|a IHa|i nm a IHa| |];
    intros k s m H.
  - exists s. split; [constructor | exact H].
  - destruct s as [p [|x t] c]; [discriminate H|].
    rewrite mt_chr in H. destruct (f x) eqn:Hx; [|discriminate H].
    eexists. split; [constructor; exact Hx | exact H].
  - rewrite mt_seq in H.
    destruct (IHa _ _ _ H) as (s1 & Ha & H1).
    destruct (IHb _ _ _ H1) as (s2 & Hb & H2).
    exists s2. split; [econstructor; eassumption | exact H2].
  - rewrite mt_alt in H. destruct (mt a k s) as [m0|] eqn:E.
    + inversion H; subst m0. destruct (IHa _ _ _ E) as (s1 & Ha & H1).
      exists s1. split; [apply run_alt_l; exact Ha | exact H1].
    + destruct (IHb _ _ _ H) as (s1 & Hb & H1).
      exists s1. split; [apply run_alt_r; exact Hb | exact H1].
  - rewrite mt_star in H. exact (star_loop_sound a IHa _ _ _ _ H).
  - change (mt (Plus a) k s)
      with (mt a (fun s' => star_loop (mt a) k (S (length (rest s'))) s') s) in H.
    destruct (IHa _ _ _ H) as (s1 & Ha & H1).
    destruct (star_loop_sound a IHa _ _ _ _ H1) as (s2 & Hs & H2).
    exists s2. split; [econstructor; eassumption | exact H2].
  - rewrite mt_opt in H. destruct (mt a k s) as [m0|] eqn:E.
    + inversion H; subst m0. destruct (IHa _ _ _ E) as (s1 & Ha & H1).
      exists s1. split; [apply run_opt_some; exact Ha | exact H1].
    + exists s. split; [apply run_opt_none | exact H].
  - rewrite mt_group in H.
    destruct (IHa _ _ _ H) as (s1 & Ha & H1).
    eexists. split; [apply run_group; exact Ha | exact H1].
  - simpl in H. destruct (Nat.eqb (pos s) 0) eqn:E; [|discriminate H].
    exists s. split; [constructor; apply Nat.eqb_eq; exact E | exact H].
  - simpl in H. exists s. destruct (rest s) as [|c [|y t]] eqn:Er.
    + split; [constructor; left; exact Er | exact H].
    + destruct (N.eqb (code c) 10) eqn:Ec; [|discriminate H].
      split; [constructor; right; exists c; split; [exact Er | exact Ec] | exact H].
    + discriminate H.
Qed.

(** A match only adds captures. *)
Lemma run_extends (r : regex) (s s' : mstate) :
  run r s s' -> exists l, caps s' = l ++ caps s.
Proof.
  induction 1;
    repeat match goal with
           | IH : exists l, _ |- _ => destruct IH as (? & ?)
           end;
    try (exists []; reflexivity).
  - eexists. cbn [caps app]. etransitivity; [eassumption|].
    match goal with H : caps s' = _ |- _ => rewrite H end. apply app_assoc.
  - eexists; eassumption.
  - eexists; eassumption.
  - eexists. etransitivity; [eassumption|].
    match goal with H : caps s' = _ |- _ => rewrite H end. apply app_assoc.
  - eexists. etransitivity; [eassumption|].
    match goal with H : caps s' = _ |- _ => rewrite H end. apply app_assoc.
  - eexists; eassumption.
  - match goal with H : caps s' = _ |- _ => rename H into Hc end.
    eexists. unfold set_cap. cbn [caps]. rewrite Hc.
    rewrite app_comm_cons. reflexivity.
Qed.

Lemma run_captures (P : nat -> pystr -> Prop) (r : regex) (s s' : mstate) :
  run r s s' -> captures P r ->
  (forall i t, In (i, t) (caps s) -> P i t) ->
  forall i t, In (i, t) (caps s') -> P i t.
Proof.
  induction 1; intros Hcap Hin; cbn [captures] in Hcap; try exact Hin.
  - destruct Hcap as [Ha Hb]. apply IHrun2; [exact Hb|]. apply IHrun1; assumption.
  - destruct Hcap as [Ha Hb]. apply IHrun; assumption.
  - destruct Hcap as [Ha Hb]. apply IHrun; assumption.
  - apply IHrun2; [exact Hcap|]. apply IHrun1; assumption.
  - apply IHrun2; [exact Hcap|]. apply IHrun1; assumption.
  - apply IHrun; assumption.
  - destruct Hcap as [Ha Hp]. intros j t Hj.
    unfold set_cap in Hj. cbn [caps] in Hj. destruct Hj as [Hj|Hj].
    + inversion Hj; subst. apply Hp. assumption.
    + exact (IHrun Ha Hin j t Hj).
Qed.

Lemma run_star_chr f (s s' : mstate) :
  run (Star (Chr f)) s s' ->
  exists xs, forallb f xs = true /\ rest s = xs ++ rest s' /\
             pos s' = (pos s + length xs)%nat.
Proof.
  intros H. remember (Star (Chr f)) as r eqn:Er.
  induction H; try discriminate Er; inversion Er; subst.
  - exists []. simpl. rewrite Nat.add_0_r. auto.
  - destruct (IHrun2 eq_refl) as (xs & Hxs & Hrest & Hpos).
    inversion H; subst. cbn [rest pos] in *.
    exists (x :: xs). simpl. rewrite Hrest, Hpos.
    match goal with Hx : f x = true |- _ => rewrite Hx end.
    rewrite Hxs. repeat split. lia.
Qed.

Lemma run_digits_text (s s' : mstate) :
  run digits s s' -> numeric (firstn (pos s' - pos s) (rest s)) = true.
Proof.
  intros H. inversion H; subst.
  match goal with
  | Hc : run (Chr is_digit) s ?s1, Hs : run (Star (Chr is_digit)) ?s1 s' |- _ =>
      inversion Hc; subst; destruct (run_star_chr _ _ _ Hs) as (xs & Hxs & Hrest & Hpos)
  end.
  cbn [rest pos] in *. rewrite Hpos, Hrest.
  replace (S p + length xs - p)%nat with (length (x :: xs)) by (cbn [length]; lia).
  change (x :: xs ++ rest s') with ((x :: xs) ++ rest s').
  rewrite firstn_app, firstn_all, Nat.sub_diag. simpl firstn. rewrite app_nil_r.
  simpl. match goal with Hx : is_digit x = true |- _ => rewrite Hx end. exact Hxs.
Qed.

Lemma lookup_cap_in i t c : lookup_cap i c = Some t -> In (i, t) c.
Proof.
  induction c as [|[j u] c IH]; simpl; [discriminate|].
  destruct (Nat.eqb_spec i j) as [->|Hne].
  - intros H. inversion H. left. reflexivity.
  - intros H. right. exact (IH H).
Qed.

Lemma lookup_cap_app i l c b :
  lookup_cap i c = Some b -> exists b', lookup_cap i (l ++ c) = Some b'.
Proof.
  intros H. induction l as [|[j u] l IH]; simpl; [eauto|].
  destruct (Nat.eqb i j); [eauto | exact IH].
Qed.

Lemma run_plus_chr f (s s' : mstate) :
  run (Plus (Chr f)) s s' ->
  exists xs, xs <> [] /\ forallb f xs = true /\ rest s = xs ++ rest s' /\
             pos s' = (pos s + length xs)%nat.
Proof.
  intros H. inversion H; subst.
  match goal with
  | Hc : run (Chr f) s ?s1, Hs : run (Star (Chr f)) ?s1 s' |- _ =>
      inversion Hc; subst; destruct (run_star_chr _ _ _ Hs) as (xs & Hxs & Hrest & Hpos)
  end.
  cbn [rest pos] in *. exists (x :: xs).
  split; [discriminate|]. split; [|split].
  - simpl. match goal with Hx : f x = true |- _ => rewrite Hx end. exact Hxs.
  - rewrite Hrest. reflexivity.
  - rewrite Hpos. simpl. lia.
Qed.

Lemma run_digits (s s' : mstate) :
  run digits s s' ->
  exists ds, numeric ds = true /\ rest s = ds ++ rest s' /\
             pos s' = (pos s + length ds)%nat.
Proof.
  intros H. destruct (run_plus_chr _ _ _ H) as (xs & Hne & Hxs & Hrest & Hpos).
  exists xs. split; [|split; assumption].
  destruct xs; [congruence | exact Hxs].
Qed.

Lemma consumed_text (s s' : mstate) (xs : pystr) :
  rest s = xs ++ rest s' -> pos s' = (pos s + length xs)%nat ->
  firstn (pos s' - pos s) (rest s) = xs.
Proof. intros -> ->. apply firstn_consumed. Qed.

Lemma run_letters_text (s s' : mstate) :
  run (Plus (Chr is_alpha)) s s' -> letters (firstn (pos s' - pos s) (rest s)) = true.
Proof.
  intros H. destruct (run_plus_chr _ _ _ H) as (xs & Hne & Hxs & Hrest & Hpos).
  rewrite (consumed_text _ _ xs Hrest Hpos).
  destruct xs; [congruence | exact Hxs].
Qed.

Lemma run_dotted g nm (s s' : mstate) :
  run (Star (Group g nm (Chr (is_char ".") +++ digits))) s s' ->
  exists groups, forallb numeric groups = true /\
                 rest s = dotted_tail groups ++ rest s' /\
                 pos s' = (pos s + length (dotted_tail groups))%nat.
Proof.
  intros H. remember (Star (Group g nm (Chr (is_char ".") +++ digits))) as r eqn:Er.
  induction H; try discriminate Er; inversion Er; subst.
  - exists []. simpl. rewrite Nat.add_0_r. auto.
  - destruct (IHrun2 eq_refl) as (groups & Hnum & Hrest & Hpos).
    inversion H; subst.
    match goal with
    | Hb : run (Chr (is_char ".") +++ digits) s ?s1 |- _ =>
        inversion Hb as [| |? ? ? s2 ? Hdot Hds| | | | | | | | | |]; subst;
        inversion Hdot; subst;
        destruct (run_digits _ _ Hds) as (ds & Hn & Hr & Hp)
    end.
    unfold set_cap in Hrest, Hpos. cbn [rest pos] in *.
    match goal with Hx : is_char "." ?c = true |- _ =>
      unfold is_char in Hx; apply Ascii.eqb_eq in Hx; subst c end.
    exists (ds :: groups). split; [simpl; rewrite Hn; exact Hnum|].
    change (dotted_tail (ds :: groups)) with ("."%char :: ds ++ dotted_tail groups).
    split.
    + rewrite Hr, Hrest. cbn [app]. rewrite <- app_assoc. reflexivity.
    + rewrite Hpos, Hp. simpl. rewrite length_app. lia.
Qed.

Lemma dotted_numeric_join (g1 : pystr) (groups : list pystr) :
  forallb numeric (g1 :: groups) = true ->
  dotted_numeric (str_join (lit ".") (g1 :: groups)) = true.
Proof.
  intros H. unfold dotted_numeric.
  assert (Hs : str_split "." (str_join (lit ".") (g1 :: groups)) = g1 :: groups).
  { apply split_join; [discriminate | apply numeric_no_dot; exact H]. }
  rewrite Hs. exact H.
Qed.

Lemma run_base_text g nm (s s' : mstate) :
  run (digits +++ Star (Group g nm (Chr (is_char ".") +++ digits))) s s' ->
  dotted_numeric (firstn (pos s' - pos s) (rest s)) = true.
Proof.
  intros H. inversion H as [| |? ? ? s1 ? Hd Hs| | | | | | | | | |]; subst.
  destruct (run_digits _ _ Hd) as (g1 & Hg1 & Hr1 & Hp1).
  destruct (run_dotted _ _ _ _ Hs) as (groups & Hnum & Hr2 & Hp2).
  rewrite (consumed_text s s' (g1 ++ dotted_tail groups)).
  - rewrite <- join_dotted. apply dotted_numeric_join. simpl. rewrite Hg1. exact Hnum.
  - rewrite Hr1, Hr2. apply app_assoc.
  - rewrite Hp2, Hp1, length_app. lia.
Qed.

(** Every match of the default pattern has its [base] group set, and its
    groups hold what [default_groups] says. *)
Lemma vsp_match_caps (source : pystr) (m : mstate) :
  re_search VERSION_SOURCE_PATTERN source = Some m ->
  (exists b, lookup_cap 3 (caps m) = Some b) /\
  (forall i t, lookup_cap i (caps m) = Some t -> default_groups i t).
Proof.
  unfold VERSION_SOURCE_PATTERN. rewrite re_search_bol. intros H.
  destruct (mt_sound _ _ _ _ H) as (s' & Hrun & Hacc).
  unfold accept in Hacc. inversion Hacc; subst s'. clear Hacc H.
  split.
  - inversion Hrun as [| |a b s0 s1 s2 Hv Hrest| | | | | | | | | |]; subst.
    inversion Hrest as [| |a b s0 s2 s3 He Hrest'| | | | | | | | | |]; subst.
    inversion Hrest' as [| |a b s0 s3 s4 Hb Htail| | | | | | | | | |]; subst.
    inversion Hb; subst.
    destruct (run_extends _ _ _ Htail) as (l & Hl). rewrite Hl.
    unfold set_cap. cbn [caps].
    eapply lookup_cap_app. apply lookup_cap_head.
  - assert (Hall : forall i t, In (i, t) (caps m) -> default_groups i t).
    { apply (run_captures default_groups _ _ _ Hrun).
      - cbn [captures].
        repeat split; intros s s' Hd; try exact I.
        + exact (run_digits_text _ _ Hd).
        + exact (run_base_text _ _ _ _ Hd).
        + exact (run_letters_text _ _ Hd).
        + exact (run_digits_text _ _ Hd).
      - intros i t []. }
    intros i t Ht. exact (Hall i t (lookup_cap_in _ _ _ Ht)).
Qed.

Lemma vsp_loop_finds :
  forall sources pm newer last,
    existsb (matches VERSION_SOURCE_PATTERN) sources = true ->
    exists m b nw src,
      match_loop VERSION_SOURCE_PATTERN sources pm newer last
        = Ok (LoopState (Some m) (Some b) nw (Some src)) /\
      In src sources /\
      re_search VERSION_SOURCE_PATTERN src = Some m /\
      lookup_cap 3 (caps m) = Some b.
Proof.
  induction sources as [|s sources IH]; intros pm newer last Hex; [discriminate Hex|].
  cbn [existsb] in Hex. unfold matches at 1 in Hex. cbn [match_loop].
  destruct (re_search VERSION_SOURCE_PATTERN s) as [m|] eqn:Hs.
  - destruct (vsp_match_caps s m Hs) as ((b & Hb) & _).
    unfold group_name.
    destruct vsp_groupindex as (_ & Hg & _). rewrite Hg, Hb.
    exists m, b, newer, s.
    split; [reflexivity | split; [left; reflexivity | split; [exact Hs | exact Hb]]].
  - destruct (IH None (newer ++ [s]) (Some s) Hex) as (m & b & nw & src & H1 & H2 & H3).
    exists m, b, nw, src. split; [exact H1 | split; [right; exact H2 | exact H3]].
Qed.

Lemma no_match_raises (pattern : regex) (sources : list pystr) (latest : bool) :
  existsb (matches pattern) (tested sources latest) = false ->
  _match_version_pattern pattern sources latest = Raise (no_match sources latest).
Proof.
  intros Hex. unfold _match_version_pattern. fold (tested sources latest).
  destruct (match_loop_no_match pattern _ None [] None Hex) as (st & Hst & Hb).
  rewrite Hst. cbn [bind]. rewrite Hb. unfold no_match.
  destruct (l_match st); destruct latest; try reflexivity; destruct sources; reflexivity.
Qed.

(** A match consumes text and never gives any back, so no group holds more
    than what was there to read. *)
Lemma run_rest_length (r : regex) (s s' : mstate) :
  run r s s' -> (length (rest s') <= length (rest s))%nat.
Proof.
  induction 1; cbn [rest length set_cap] in *; lia.
Qed.

Lemma run_caps_short (n : nat) (r : regex) (s s' : mstate) :
  run r s s' -> (length (rest s) <= n)%nat ->
  (forall i t, In (i, t) (caps s) -> (length t <= n)%nat) ->
  forall i t, In (i, t) (caps s') -> (length t <= n)%nat.
Proof.
  induction 1; intros Hlen Hin; try exact Hin.
  - apply IHrun2; [|apply IHrun1; assumption].
    pose proof (run_rest_length _ _ _ H). lia.
  - apply IHrun; assumption.
  - apply IHrun; assumption.
  - apply IHrun2; [|apply IHrun1; assumption].
    pose proof (run_rest_length _ _ _ H). lia.
  - apply IHrun2; [|apply IHrun1; assumption].
    pose proof (run_rest_length _ _ _ H). lia.
  - apply IHrun; assumption.
  - intros j t Hj. unfold set_cap in Hj. cbn [caps] in Hj. destruct Hj as [Hj|Hj].
    + inversion Hj; subst. rewrite length_firstn. lia.
    + exact (IHrun Hlen Hin j t Hj).
Qed.

Lemma vsp_caps_short (source : pystr) (m : mstate) (i : nat) (t : pystr) :
  re_search VERSION_SOURCE_PATTERN source = Some m ->
  lookup_cap i (caps m) = Some t -> (length t <= length source)%nat.
Proof.
  unfold VERSION_SOURCE_PATTERN. rewrite re_search_bol. intros H Ht.
  destruct (mt_sound _ _ _ _ H) as (s' & Hrun & Hacc).
  unfold accept in Hacc. inversion Hacc; subst s'.
  apply (run_caps_short (length source) _ _ _ Hrun) with (i := i).
  - cbn [rest]. lia.
  - intros j u [].
  - apply lookup_cap_in. exact Ht.
Qed.

Lemma split_by_short (f : ascii -> bool) (s part : pystr) :
  In part (split_by f None s) -> (length part <= length s)%nat.
Proof.
  revert part. induction s as [|c t IH]; intros part Hin.
  - simpl in Hin. destruct Hin as [<-|[]]. simpl. lia.
  - cbn [split_by] in Hin. destruct (f c).
    + destruct Hin as [<-|Hin]; [simpl; lia|]. specialize (IH part Hin). simpl. lia.
    + destruct (split_by f None t) as [|h r] eqn:E.
      * destruct Hin as [<-|[]]. simpl. lia.
      * destruct Hin as [<-|Hin].
        -- specialize (IH h (or_introl eq_refl)). simpl. lia.
        -- specialize (IH part (or_intror Hin)). simpl. lia.
Qed.

Lemma take_while_short (f : ascii -> bool) (s : pystr) :
  (length (take_while f s) <= length s)%nat.
Proof.
  induction s as [|c t IH]; [simpl; lia|].
  simpl. destruct (f c); simpl; lia.
Qed.

Lemma distance_token_short (value t : pystr) :
  distance_token value = Some t -> (length t <= length value)%nat.
Proof.
  unfold distance_token, nonempty_str. intros H.
  assert (Ht : t = take_while is_digit (without_leading "d" value)).
  { destruct (take_while is_digit (without_leading "d" value)); [discriminate H|].
    inversion H. reflexivity. }
  subst t. pose proof (take_while_short is_digit (without_leading "d" value)) as Hl.
  assert (Hw : (length (without_leading "d" value) <= length value)%nat).
  { unfold without_leading. destruct value as [|x v]; [simpl; lia|].
    destruct (Ascii.eqb x "d"); simpl; lia. }
  lia.
Qed.

Lemma distance_digits_short (parts : list pystr) :
  forall cl t, distance_digits parts cl = Some t ->
    exists part, In part parts /\ (length t <= length part)%nat.
Proof.
  induction parts as [|part parts IH]; intros cl t H; [discriminate H|].
  destruct cl as [|c cl]; [discriminate H|]. cbn [distance_digits] in H.
  destruct c;
    try (destruct (IH cl t H) as (q & Hq & Hl); exists q; split; [right; exact Hq | exact Hl]).
  exists part. split; [left; reflexivity | exact (distance_token_short part t H)].
Qed.

Lemma short_within (s : pystr) (n : nat) :
  (length s <= n)%nat -> (n <= int_max_str_digits)%nat -> within_limit s = true.
Proof. intros H Hn. unfold within_limit. apply Nat.leb_le. lia. Qed.

(** The value of [_match_version_pattern] with the default pattern, once
    the loop has found its match. *)
Lemma vsp_value (sources : list pystr) (latest : bool)
  (m : mstate) (b : pystr) (nw : list pystr) (src : pystr) :
  match_loop VERSION_SOURCE_PATTERN (tested sources latest) None [] None
    = Ok (LoopState (Some m) (Some b) nw (Some src)) ->
  _match_version_pattern VERSION_SOURCE_PATTERN sources latest =
    (stage_revision <-
       match lookup_cap 7 (caps m) with
       | Some stage =>
           match lookup_cap 8 (caps m) with
           | None => Ok (Some (stage, None))
           | Some text => r <- int_or BadRevision text ;; Ok (Some (stage, Some r))
           end
       | None => Ok None
       end ;;
     epoch <-
       match lookup_cap 2 (caps m) with
       | Some text => e <- int_or BadEpoch text ;; Ok (Some e)
       | None => Ok None
       end ;;
     Ok (Matched.Make src b stage_revision nw (lookup_cap 10 (caps m)) epoch)).
Proof.
  intros H. unfold _match_version_pattern. fold (tested sources latest).
  rewrite H. cbn [bind l_match l_base l_source l_newer].
  destruct vsp_groupindex as (Ge & _ & Gs & Gr & Gt).
  unfold groupdict_get. rewrite Ge, Gs, Gr, Gt. reflexivity.
Qed.

Ltac settle_epoch m Hcaps Hnn :=
  let ep := fresh "ep" in
  let E2 := fresh "E2" in
  let Hep := fresh "Hep" in
  let We := fresh "We" in
  destruct (lookup_cap 2 (caps m)) as [ep|] eqn:E2;
  [ pose proof (Hcaps 2%nat ep E2) as Hep; cbn [default_groups] in Hep;
    destruct (within_limit ep) eqn:We;
    [ rewrite (int_or_numeric BadEpoch ep Hep We); cbn [bind]; left;
      eexists; (split; [reflexivity|]);
      unfold default_fields;
      cbn [Matched.base Matched.stage_revision Matched.epoch Matched.tagged_metadata
           opt_nonneg];
      repeat split; auto
    | rewrite (int_or_too_long BadEpoch ep Hep We); cbn [bind]; right;
      exists ep; split; [exists 2%nat; exact E2|]; split; [exact Hep|];
      split; [exact We|]; right; reflexivity ]
  | cbn [bind]; left;
    eexists; (split; [reflexivity|]);
    unfold default_fields;
    cbn [Matched.base Matched.stage_revision Matched.epoch Matched.tagged_metadata
         opt_nonneg];
    repeat split; auto ].

(** With the default pattern and a candidate that matches, the result is
    built from the groups of the match, unless the digits of the revision
    or of the epoch are more than [int] reads. *)
Lemma vsp_result (sources : list pystr) (latest : bool) :
  existsb (matches VERSION_SOURCE_PATTERN) (tested sources latest) = true ->
  exists src m,
    In src (tested sources latest) /\
    re_search VERSION_SOURCE_PATTERN src = Some m /\
    ((exists mp,
        _match_version_pattern VERSION_SOURCE_PATTERN sources latest = Ok mp /\
        default_fields mp /\
        lookup_cap 3 (caps m) = Some (Matched.base mp) /\
        Matched.tagged_metadata mp = lookup_cap 10 (caps m)) \/
     (exists text,
        (exists i, lookup_cap i (caps m) = Some text) /\
        numeric text = true /\ within_limit text = false /\
        (_match_version_pattern VERSION_SOURCE_PATTERN sources latest
           = Raise (ValueError (BadRevision text)) \/
         _match_version_pattern VERSION_SOURCE_PATTERN sources latest
           = Raise (ValueError (BadEpoch text))))).
Proof.
  intros Hex.
  destruct (vsp_loop_finds _ None [] None Hex)
    as (m & b & nw & src & Hloop & Hin & Hm & Hb).
  exists src, m. split; [exact Hin|]. split; [exact Hm|].
  rewrite (vsp_value sources latest m b nw src Hloop).
  destruct (vsp_match_caps src m Hm) as (_ & Hcaps).
  pose proof (Hcaps 3%nat b Hb) as Hbase. cbn [default_groups] in Hbase.
  assert (Hnn : forall t, numeric t = true -> (0 <=? digits_value t) = true).
  { intros t Ht. apply Z.leb_le. apply numeric_digits in Ht.
    apply digits_value_nonneg; [tauto | lia]. }
  destruct (lookup_cap 7 (caps m)) as [st|] eqn:E7.
  - pose proof (Hcaps 7%nat st E7) as Hst. cbn [default_groups] in Hst.
    destruct (lookup_cap 8 (caps m)) as [rv|] eqn:E8.
    + pose proof (Hcaps 8%nat rv E8) as Hrv. cbn [default_groups] in Hrv.
      destruct (within_limit rv) eqn:Wr.
      * rewrite (int_or_numeric BadRevision rv Hrv Wr). cbn [bind].
        settle_epoch m Hcaps Hnn.
      * rewrite (int_or_too_long BadRevision rv Hrv Wr). cbn [bind]. right.
        exists rv. split; [exists 8%nat; exact E8|]. split; [exact Hrv|].
        split; [exact Wr|]. left. reflexivity.
    + cbn [bind]. settle_epoch m Hcaps Hnn.
  - cbn [bind]. settle_epoch m Hcaps Hnn.
Qed.

(** X19. With the default pattern, when one of the candidates
    [_match_version_pattern] looks at matches, the [base] group is always
    set and the texts of [revision] and [epoch] are always digits: so the
    missing-group error cannot occur, and a number error occurs only for
    digits beyond the [int_max_str_digits] that [int] reads. In
    particular there is a result whenever no candidate is longer than that.
    When no candidate matches, the error is that of a pattern that matched
    nothing. *)
Theorem default_pattern_conversions :
  forall (sources : list pystr) (latest_source : bool),
    if existsb (matches VERSION_SOURCE_PATTERN) (tested sources latest_source)
    then
      ((exists mp,
          _match_version_pattern VERSION_SOURCE_PATTERN sources latest_source = Ok mp) \/
       (exists text,
          numeric text = true /\ within_limit text = false /\
          (_match_version_pattern VERSION_SOURCE_PATTERN sources latest_source
             = Raise (ValueError (BadRevision text)) \/
           _match_version_pattern VERSION_SOURCE_PATTERN sources latest_source
             = Raise (ValueError (BadEpoch text))))) /\
      (forallb within_limit (tested sources latest_source) = true ->
       exists mp,
         _match_version_pattern VERSION_SOURCE_PATTERN sources latest_source = Ok mp)
    else _match_version_pattern VERSION_SOURCE_PATTERN sources latest_source
           = Raise (no_match sources latest_source).
Proof.
  intros sources latest.
  destruct (existsb (matches VERSION_SOURCE_PATTERN) (tested sources latest)) eqn:Hex;
    [|apply no_match_raises; exact Hex].
  destruct (vsp_result sources latest Hex) as (src & m & Hin & Hm & Hres).
  split.
  - destruct Hres as [(mp & Hmp & _)|(text & _ & Hn & Hw & Hr)].
    + left. exists mp. exact Hmp.
    + right. exists text. split; [exact Hn|]. split; [exact Hw | exact Hr].
  - intros Hshort.
    destruct Hres as [(mp & Hmp & _)|(text & (i & Hi) & _ & Hw & _)].
    + exists mp. exact Hmp.
    + exfalso. rewrite forallb_forall in Hshort. specialize (Hshort src Hin).
      unfold within_limit in Hshort, Hw.
      apply Nat.leb_le in Hshort. apply Nat.leb_gt in Hw.
      pose proof (vsp_caps_short src m i text Hm Hi). lia.
Qed.

(** X20. Every result of [_match_version_pattern] with the default
    pattern has a base of dot-separated numbers, a stage, if any, made of
    letters with a revision that is not negative, and an epoch, if any,
    that is not negative. *)
Theorem default_pattern_fields :
  forall (sources : list pystr) (latest_source : bool) (mp : Matched.t),
    _match_version_pattern VERSION_SOURCE_PATTERN sources latest_source = Ok mp ->
    default_fields mp.
Proof.
  intros sources latest mp H.
  destruct (existsb (matches VERSION_SOURCE_PATTERN) (tested sources latest)) eqn:Hex.
  - destruct (vsp_result sources latest Hex) as (src & m & _ & _ & Hres).
    destruct Hres as [(mp' & Hmp & Hf & _)|(text & _ & _ & _ & [Hr|Hr])].
    + rewrite H in Hmp. inversion Hmp; subst mp'. exact Hf.
    + rewrite H in Hr. discriminate Hr.
    + rewrite H in Hr. discriminate Hr.
  - rewrite (no_match_raises _ _ _ Hex) in H. discriminate H.
Qed.

Lemma default_pattern_fields_witness :
  default_fields
    (Matched.Make (lit "v2!1.20.3-rc.4+linux") (lit "1.20.3") (Some (lit "rc", Some 4))
       [lit "nightly"] (Some (lit "linux")) (Some 2)).
Proof.
  exact (default_pattern_fields [lit "nightly"; lit "v2!1.20.3-rc.4+linux"] false
           (Matched.Make (lit "v2!1.20.3-rc.4+linux") (lit "1.20.3") (Some (lit "rc", Some 4))
              [lit "nightly"] (Some (lit "linux")) (Some 2))
           eq_refl).
Defined.

(** A base shorter than the limit: [int] reads its segments, and its last
    number plus one can be written. *)
Lemma short_base_bumps (base : pystr) (p : nat) :
  dotted_numeric base = true ->
  (length base < int_max_str_digits)%nat ->
  forallb within_limit (str_split "." base) = true /\
  printable (nth p (map digits_value (str_split "." base)) 0 + 1) = true.
Proof.
  intros Hb Hlen.
  assert (Hseg : forall seg, In seg (str_split "." base) ->
             (length seg < int_max_str_digits)%nat).
  { intros seg Hin. pose proof (split_by_short _ _ _ Hin). lia. }
  split.
  - apply forallb_forall. intros seg Hin. specialize (Hseg seg Hin).
    apply (short_within seg (length seg)); lia.
  - destruct (Nat.lt_ge_cases p (length (str_split "." base))) as [Hp|Hp].
    + rewrite (nth_indep _ 0 (digits_value []))
        by (rewrite length_map; exact Hp).
      rewrite map_nth.
      assert (Hin : In (nth p (str_split "." base) []) (str_split "." base))
        by (apply nth_In; exact Hp).
      set (seg := nth p (str_split "." base) []) in *.
      unfold dotted_numeric in Hb. rewrite forallb_forall in Hb.
      destruct (numeric_digits seg (Hb seg Hin)) as [_ Hd].
      pose proof (digits_value_bound seg Hd) as Hv.
      specialize (Hseg seg Hin).
      apply (printable_below _ (S (length seg))); [lia | lia |].
      rewrite Nat2Z.inj_succ, Z.pow_succ_r by lia. lia.
    + rewrite nth_overflow by (rewrite length_map; exact Hp).
      apply (printable_below _ 1); [lia | unfold int_max_str_digits; lia | simpl; lia].
Qed.

(** X21. A string of fewer than [int_max_str_digits] characters, its
    ["v"] in front counted, that the default pattern matches parses to a
    version whose base is dot-separated numbers, and that version can always
    be bumped: [Version.parse(s).bump()] returns. *)
Theorem parse_then_bump :
  forall version : pystr,
    matches VERSION_SOURCE_PATTERN (prefixed version) = true ->
    Nat.ltb (length (prefixed version)) int_max_str_digits = true ->
    exists v v',
      Version.parse version VERSION_SOURCE_PATTERN = Ok v /\
      dotted_numeric (Version.base v) = true /\
      Version.bump v (-1) = Ok v'.
Proof.
  intros version Hm Hshort. apply Nat.ltb_lt in Hshort.
  assert (Hex : existsb (matches VERSION_SOURCE_PATTERN) (tested [prefixed version] true)
                = true).
  { cbn [tested firstn existsb]. rewrite Hm. reflexivity. }
  destruct (vsp_result _ _ Hex) as (src & m & Hin & Hs & Hres).
  assert (Hsrc : src = prefixed version).
  { cbn [tested firstn] in Hin. destruct Hin as [<-|[]]. reflexivity. }
  subst src.
  assert (Hcap : forall i t, lookup_cap i (caps m) = Some t ->
             (length t <= length (prefixed version))%nat).
  { intros i t Ht. exact (vsp_caps_short _ m i t Hs Ht). }
  destruct Hres as [(mp & Hmp & (Hbase & _) & Hb3 & Htm)|(text & (i & Hi) & _ & Hw & _)].
  2:{ exfalso. unfold within_limit in Hw. apply Nat.leb_gt in Hw.
      specialize (Hcap i text Hi). lia. }
  assert (Hread : distance_readable mp = true).
  { unfold distance_readable. cbv zeta.
    destruct (distance_digits _ _) as [t|] eqn:Ed; [|reflexivity].
    destruct (distance_digits_short _ _ _ Ed) as (part & Hpart & Hl).
    apply split_by_short in Hpart.
    assert (Hmeta : (length (_blank (Matched.tagged_metadata mp) [])
                     <= length (prefixed version))%nat).
    { rewrite Htm. destruct (lookup_cap 10 (caps m)) as [t'|] eqn:E10.
      - exact (Hcap _ _ E10).
      - simpl. lia. }
    cbn [opt_within_limit]. apply (short_within t (length t)); lia. }
  assert (Hb : Version.base (decomposed mp) = Matched.base mp).
  { unfold decomposed, decomposed_with, Version.init.
    destruct (Matched.stage_revision mp) as [[st rev]|]; reflexivity. }
  pose proof (Hcap _ _ Hb3) as Hblen.
  destruct (short_base_bumps (Matched.base mp)
              (length (str_split "." (Matched.base mp)) - 1) Hbase ltac:(lia))
    as [Hlim Hpr].
  exists (decomposed mp).
  assert (Hbump : exists v', Version.bump (decomposed mp) (-1) = Ok v').
  { unfold Version.bump.
    destruct (Version.stage (decomposed mp));
      [destruct (Version.revision (decomposed mp)); eexists; reflexivity|].
    rewrite Hb.
    destruct (bump_version_dotted _ (-1) _ Hbase Hlim (last_index _) Hpr)
      as (out & Hbump & _).
    rewrite Hbump. cbn [bind]. eexists. reflexivity. }
  destruct Hbump as (v' & Hv'). exists v'.
  split; [rewrite (parse_of_match version _ mp Hmp), Hread; reflexivity|].
  split; [rewrite Hb; exact Hbase | exact Hv'].
Qed.

Lemma parse_then_bump_witness :
  exists v v',
    Version.parse (lit "1.2.9rc1+d4.gabc") VERSION_SOURCE_PATTERN = Ok v /\
    dotted_numeric (Version.base v) = true /\
    Version.bump v (-1) = Ok v'.
Proof.
  exact (parse_then_bump (lit "1.2.9rc1+d4.gabc") eq_refl eq_refl).
Defined.
